(** * DynamicBot: the staking agent of [autobot.py]

    A shallow embedding of the allocation engine, the Telegram command
    interpreter, the history tracker, the notification publisher and the
    endpoint selector of [src/autobot.py], with the properties of the
    specification stated over it.

    Modelling conventions.
    - Python [float] values are exact rationals [Q]: the arithmetic and the
      comparisons of the source are kept, rounding, infinities and NaN are
      outside the model.  Numeric literals that are dyadic (all concrete
      inputs used below) behave identically in both.
    - The preference multipliers are the exception: [/boost] and [/slash]
      add and subtract [0.1] over and over, so their arithmetic is that of
      binary64, with the rounding to the nearest double after each
      operation ([round64]); it is checked against the primitive floats of
      the prover on concrete values.
    - Python [int] values (subnet ids, block heights, update ids) are [Z].
    - A value whose [float(...)] conversion is guarded by [try/except] in the
      source is an [option Q]: [None] stands for a conversion that raises.
    - [config.preferences] is a [gmap string Q] keyed by [str(netuid)], which
      is [pretty] on [Z]; [config.exclude_list] is a [list Z]; the dicts the
      source iterates over are insertion-ordered association lists.
    - Message texts are ASCII strings.
    - Code that talks to the chain gateway or to Telegram runs in a small
      state-and-exception monad that also records a trace of the external
      calls it makes.  The answers of the outside world to one task (one
      command, one block cycle) are collected in a [World].
    - One command and one block cycle each run to their end without the
      other cycle in between: the interleaving of the two cycles at their
      [await] points is not modelled.
    - The [while True] loop of the control-poll cycle runs against a finite
      script of poll results, and the one of [main_loop] against the worlds
      of the successive block cycles. *)

From Corelib Require Import PrimFloat SpecFloat FloatOps.
From Stdlib Require Import Ascii String DecimalString QArith Qround Qabs Qpower Lqa.
From stdpp Require Import gmap strings list fin_maps pretty.

Open Scope Z_scope.

(** * Part I: the embedding *)

(** ** Numbers *)

(** [x < y] on Python floats, as a boolean. *)
Definition Qltb (x y : Q) : bool := negb (Qle_bool y x).

(** [sum(xs)]: Python adds from the left, starting at [0]. *)
Definition Qsum (xs : list Q) : Q := fold_left Qplus xs 0%Q.

(** [float(x)] inside [try ... except: x = 0.0]. *)
Definition float_or_zero (x : option Q) : Q := default 0%Q x.

(** *** Binary64 rounding

    The arithmetic of [/boost] and [/slash] is kept with its rounding: a
    double is the rational it denotes, and [round64] is the rounding of
    IEEE 754 binary64 in the default mode (to nearest, ties to even),
    which Python applies to the exact result of each [+] and [-]. *)

Definition pow2 (e : Z) : Q := (2 ^ e)%Q.

(** [floor (log2 x)] for [x > 0]. *)
Definition Qlog2 (x : Q) : Z :=
  let k := Z.log2 (Qnum x) - Z.log2 (Zpos (Qden x)) in
  if Qle_bool (pow2 k) x then k else k - 1.

(** Rounding to the nearest integer, ties to even. *)
Definition round_half_even (x : Q) : Z :=
  let f := Qfloor x in
  match (x - inject_Z f ?= 1 # 2)%Q with
  | Lt => f
  | Gt => f + 1
  | Eq => if Z.even f then f else f + 1
  end.

(** The exponent of the unit in the last place of the double nearest to
    [x]: 53 bits of precision, and the subnormal spacing [2^-1074] below
    [2^-1022]. *)
Definition ulp_exponent (x : Q) : Z := Z.max (Qlog2 (Qabs x) - 52) (-1074).

(** The finite double nearest to [x], ties to even.  Overflow to an
    infinity is outside the model; the sums and differences below never
    overflow from finite doubles. *)
Definition round64 (x : Q) : Q :=
  if Qeq_bool x 0 then 0%Q
  else
    let e := ulp_exponent x in
    Qred (inject_Z (round_half_even (x / pow2 e)) * pow2 e).

(** [x] is (the value of) a double. *)
Definition is_double (x : Q) : Prop := (round64 x == x)%Q.

(** The unit roundoff of binary64. *)
Definition u64 : Q := pow2 (-53).

(** The double that the literal [0.1] denotes:
    0.1000000000000000055511151231257827. *)
Definition tenth_q : Q := 3602879701896397 # 36028797018963968.

(** ** Data model *)

(** One entry of [sub.all_subnets()]. *)
Record Subnet := {
  netuid : Z;
  subnet_name : string;
  symbol : string;
  price : option Q;          (* [float(s.price)], [None] when it raises *)
  tao_in_emission : Q;
}.

(** One entry of [sub.get_stake_for_coldkey(...)]. *)
Record StakeInfo := {
  si_netuid : Z;
  si_hotkey_ss58 : string;
  si_stake : option Q;       (* [float(stake.stake)], [None] when it raises *)
}.

(** The dict appended to [purchase_history] and [accumulated_history]. *)
Record PurchaseEvent := {
  pe_block : Z;
  pe_netuid : Z;
  pe_subnet_name : string;
  pe_stake_amount : Q;
  pe_score : Q;
  pe_pref_multiplier : Q;
}.

(** Insertion-ordered dicts with string keys ([subnet_info],
    [current_stakes]). *)
Definition dict (V : Type) : Type := list (string * V).

Fixpoint dict_set {V} (d : dict V) (k : string) (v : V) : dict V :=
  match d with
  | [] => [(k, v)]
  | (k', v') :: d' =>
      if bool_decide (k' = k) then (k, v) :: d' else (k', v') :: dict_set d' k v
  end.

Fixpoint dict_get {V} (d : dict V) (k : string) : option V :=
  match d with
  | [] => None
  | (k', v') :: d' => if bool_decide (k' = k) then Some v' else dict_get d' k
  end.

Definition dict_values {V} (d : dict V) : list V := snd <$> d.

(** The dict stored in [last_history_snapshot]. *)
Record Snapshot := {
  snap_time : Q;
  snap_block : Z;
  snap_wallet_balance : Q;
  snap_stake_value : Q;
  snap_stakes : dict Q;
}.

(** The attributes of the [config] object the program reads or writes. *)
Record Config := {
  paused : bool;
  preferences : gmap string Q;
  exclude_list : list Z;
  stake_amount : Q;
  validator : string;
  telegram_token : string;           (* [""] when absent: falsy *)
  telegram_chat_id : Z;              (* [0] when absent: falsy *)
  telegram_update_interval : Z;
}.

(** The mutable store both cycles share: the [config] object, the two
    module-level globals, and the [purchase_history] list of [main_loop]. *)
Record St := {
  config : Config;
  last_history_snapshot : option Snapshot;
  accumulated_history : list PurchaseEvent;
  purchase_history : list PurchaseEvent;
}.

Definition set_config (f : Config → Config) (st : St) : St :=
  {| config := f (config st);
     last_history_snapshot := last_history_snapshot st;
     accumulated_history := accumulated_history st;
     purchase_history := purchase_history st |}.

Definition set_paused (b : bool) (c : Config) : Config :=
  {| paused := b; preferences := preferences c; exclude_list := exclude_list c;
     stake_amount := stake_amount c; validator := validator c;
     telegram_token := telegram_token c; telegram_chat_id := telegram_chat_id c;
     telegram_update_interval := telegram_update_interval c |}.

Definition set_preferences (p : gmap string Q) (c : Config) : Config :=
  {| paused := paused c; preferences := p; exclude_list := exclude_list c;
     stake_amount := stake_amount c; validator := validator c;
     telegram_token := telegram_token c; telegram_chat_id := telegram_chat_id c;
     telegram_update_interval := telegram_update_interval c |}.

Definition set_exclude_list (l : list Z) (c : Config) : Config :=
  {| paused := paused c; preferences := preferences c; exclude_list := l;
     stake_amount := stake_amount c; validator := validator c;
     telegram_token := telegram_token c; telegram_chat_id := telegram_chat_id c;
     telegram_update_interval := telegram_update_interval c |}.

Definition set_stake_amount (a : Q) (c : Config) : Config :=
  {| paused := paused c; preferences := preferences c; exclude_list := exclude_list c;
     stake_amount := a; validator := validator c;
     telegram_token := telegram_token c; telegram_chat_id := telegram_chat_id c;
     telegram_update_interval := telegram_update_interval c |}.

Definition set_last_history_snapshot (s : option Snapshot) (st : St) : St :=
  {| config := config st; last_history_snapshot := s;
     accumulated_history := accumulated_history st;
     purchase_history := purchase_history st |}.

Definition set_accumulated_history (l : list PurchaseEvent) (st : St) : St :=
  {| config := config st; last_history_snapshot := last_history_snapshot st;
     accumulated_history := l; purchase_history := purchase_history st |}.

Definition set_purchase_history (l : list PurchaseEvent) (st : St) : St :=
  {| config := config st; last_history_snapshot := last_history_snapshot st;
     accumulated_history := accumulated_history st; purchase_history := l |}.

(** ** Exceptions, external calls and the monad *)

Inductive exn :=
  | IndexError                       (* [parts[1]] on a one-element list *)
  | AttributeError                   (* an attribute a [list] does not have *)
  | ZeroDivisionError                (* [x % 0] *)
  | ConversionError                  (* an unguarded [float(...)] that raises *)
  | GatewayError (msg : string)      (* raised by a chain gateway call *)
  | HTTPError (msg : string)         (* raised by [requests] *)
  | RetryError (last : exn)          (* tenacity, after the last attempt *)
  | ConnectFailed (last_error : exn)
      (* [Exception(f"Failed to connect to any endpoints. Last error: {last_error}")] *)
  | ConnectFailedNone.               (* the same with [last_error = None] *)

Inductive outcome (A : Type) :=
  | Returned (a : A)
  | Raised (e : exn).
Arguments Returned {A} a.
Arguments Raised {A} e.

(** A gateway session: the endpoint it was opened on and the attempt
    (1, 2 or 3) of the retry policy that opened it. *)
Record handle := { h_endpoint : string; h_attempt : nat }.

(** The display string [stake_action] of a block cycle. *)
Inductive StakeAction :=
  | ActNone                                   (* [""] *)
  | ActStake (actual_stake best_score pref_multiplier : Q)
  | ActStakeError (e : exn)                   (* ["Stake error: {e}"] *)
  | ActPaused.                                (* ["Paused"] *)

(** The [Action] column of a table row. *)
Inductive RowAction :=
  | RowExcluded
  | RowChosen (a : StakeAction)
  | RowBlank.

Record Row := {
  row_netuid : Z;
  row_name : string;
  row_price : Q;
  row_emission : Q;
  row_score : Q;
  row_pref_multiplier : Q;
  row_stake : Q;
  row_action : RowAction;
}.

(** The numbers of the one-line [summary]. *)
Record Summary := {
  sum_wallet_balance : Q;
  sum_total_price : Q;
  sum_total_stake : Q;
  sum_total_stake_value : Q;
}.

(** The texts handed to [send_telegram_message], by their content. *)
Inductive message :=
  | MsgInvalidCommand                (* "Invalid command." *)
  | MsgPaused                        (* "Bot is now paused. ..." *)
  | MsgResumed                       (* "Bot has resumed staking." *)
  | MsgErrInit (e : exn)             (* "Error initializing subtensor connection: {e}" *)
  | MsgErrBalanceInfo (e : exn)      (* "Error retrieving balance info: {e}" *)
  | MsgErrPortfolioInfo (e : exn)    (* "Error retrieving portfolio info: {e}" *)
  | MsgErrSubnetData (e : exn)       (* "Error retrieving subnet data: {e}" *)
  | MsgErrStakeInfo (e : exn)        (* "Error retrieving stake info: {e}" *)
  | MsgBalance (wallet_balance : Q) (current_block : Z)
      (stakes : option (list (Z * Q * string)))
      (* "*Portfolio Balance Info:*" ...; [None] is "No stakes found." *)
  | MsgHistoryCreated
      (* "History snapshot created. No previous history available." *)
  | MsgHistory (time_diff : Q) (block_diff : Z)
      (amount_staked stake_diff pnl : Q) (increases : list (string * string * Q))
      (* "*History Summary:*" ... *)
  | MsgUsageNetuid                   (* "Usage: Command requires a netuid." *)
  | MsgUsageNumericNetuid            (* "Usage: Command requires a numeric netuid." *)
  | MsgSubnetNotFound (n : Z)        (* "Subnet {netuid} not found." *)
  | MsgSubnetInfo (n : Z) (name : string) (price my_stake : Q)
      (symbol : string) (current_pref : Q) (current_block : Z)
  | MsgNewPreference (n : Z) (new_pref : Q)
      (* "New preference for subnet {netuid} is: ..." *)
  | MsgExcluded (n : Z)              (* "... has been added to the exclude list." *)
  | MsgAlreadyExcluded (n : Z)       (* "... is already in the exclude list." *)
  | MsgUsageUnstake                  (* "Usage: /unstake <netuid> <amount>" *)
  | MsgUsageUnstakeNumber            (* "... (amount must be a number)" *)
  | MsgUnstaked (amount : Q) (n : Z)
  | MsgErrUnstake (n : Z) (e : exn)
  | MsgUsageStake                    (* "Usage: /stake <netuid> <amount>" *)
  | MsgUsageStakeNumber              (* "... (amount must be a number)" *)
  | MsgStaked (amount : Q) (n : Z)
  | MsgErrStake (n : Z) (e : exn)
  | MsgUsageAmount                   (* "Usage: /amount <value> (value must be a number)" *)
  | MsgNewAmount (new_amount : Q)    (* "New stake amount is: ..." *)
  | MsgDigest (current_block : Z) (summary : Summary)
      (events : list PurchaseEvent). (* [build_telegram_update_message] *)

(** What became of one call of [send_telegram_message]. *)
Inductive send_outcome :=
  | NotConfigured                    (* no token or no chat id: returns at once *)
  | Posted                           (* the POST went through *)
  | PostFailed (e : exn).            (* the POST raised: a panel is printed *)

(** Panels printed on the console. *)
Inductive panel :=
  | PanelPollError (e : exn)         (* title "Telegram Poll Error" *)
  | PanelSummary (s : Summary) (rows : list Row).

(** The externally visible calls, in the order they are made. *)
Inductive event :=
  | EOpen (endpoint : string) (attempt : nat)
      (* [bt.async_subtensor(endpoint)] and [sub.initialize()] *)
  | EBackoff                         (* tenacity's wait before the next attempt *)
  | EClose (sub : handle)
  | EAddStake (sub : handle) (n : Z) (amount : Q)
  | EUnstake (sub : handle) (n : Z) (amount : Q)
  | ESendTelegram (chat_id : Z) (text : message) (o : send_outcome)
  | EConsole (p : panel)
  | EWaitForBlock (sub : handle)
  | EGetUpdates (offset : Z)
  | ESleep (seconds : Z).

(** What one verification attempt on an endpoint meets. *)
Inductive attempt_outcome :=
  | InitFails (e : exn)      (* opening or initialising the session raises *)
  | VerifyFails (e : exn)    (* [get_current_block] raises *)
  | Verified.

(** The answers of the outside world to one task. *)
Record World := {
  w_connect : string → nat → attempt_outcome;
  w_current_block : outcome Z;
  w_all_subnets : outcome (list Subnet);
  w_stake_for_coldkey : outcome (list StakeInfo);
  w_stake_for_coldkey_after : outcome (list StakeInfo);
      (* the second call of a block cycle *)
  w_balance : outcome Q;
  w_add_stake : outcome unit;
  w_unstake : outcome unit;
  w_wait_for_block : outcome unit;
  w_post : option exn;       (* [requests.post] and [raise_for_status] *)
  w_time : Q;                (* [time.time()] *)
}.

(** Computations: they read and write the store, append to the trace, and
    return or raise. *)
Definition M (A : Type) : Type := St → list event * St * outcome A.

Definition ret {A} (a : A) : M A := λ st, ([], st, Returned a).

Definition bind {A B} (m : M A) (f : A → M B) : M B := λ st,
  match m st with
  | (t, st', Returned a) =>
      let '(t', st'', r) := f a st' in (t ++ t', st'', r)
  | (t, st', Raised e) => (t, st', Raised e)
  end.

Notation "x <- m ;; k" := (bind m (λ x, k))
  (at level 100, m at next level, right associativity).
Notation "m ;;; k" := (bind m (λ _, k))
  (at level 100, right associativity).

Definition raise {A} (e : exn) : M A := λ st, ([], st, Raised e).

(** [try: m  except Exception as e: ...]: the exception becomes a value. *)
Definition try_ {A} (m : M A) : M (outcome A) := λ st,
  let '(t, st', r) := m st in (t, st', Returned r).

Definition emit (ev : event) : M unit := λ st, ([ev], st, Returned tt).
Definition get : M St := λ st, ([], st, Returned st).
Definition modify (f : St → St) : M unit := λ st, ([], f st, Returned tt).

(** An awaited gateway call whose answer the world fixes. *)
Definition await {A} (r : outcome A) : M A :=
  match r with
  | Returned a => ret a
  | Raised e => raise e
  end.

(** A computation that only appends to the trace. *)
Definition lift_trace {A} (r : list event * outcome A) : M A := λ st,
  (fst r, st, snd r).

(** ** The endpoint selector *)

Definition ENDPOINTS : list string := ["finney"; "subvortex"; "archive"].

(** The body of [get_and_test_subtensor], run as attempt number [attempt]. *)
Definition attempt_once (w : World) (endpoint : string) (attempt : nat)
    : list event * outcome handle :=
  let sub := {| h_endpoint := endpoint; h_attempt := attempt |} in
  match w_connect w endpoint attempt with
  | InitFails e => ([EOpen endpoint attempt], Raised e)
  | VerifyFails e => ([EOpen endpoint attempt; EClose sub], Raised e)
  | Verified => ([EOpen endpoint attempt], Returned sub)
  end.

(** tenacity's [retry]: run attempt [attempt]; when it raises and [more]
    attempts are left, wait and run the next one; when none is left, raise
    [RetryError]. *)
Fixpoint retry_from {A} (f : nat → list event * outcome A) (attempt more : nat)
    : list event * outcome A :=
  match f attempt with
  | (t, Returned a) => (t, Returned a)
  | (t, Raised e) =>
      match more with
      | O => (t, Raised (RetryError e))
      | S more' =>
          let '(t', r) := retry_from f (S attempt) more' in
          (t ++ EBackoff :: t', r)
      end
  end.

(** [stop_after_attempt(3)] *)
Definition max_attempts : nat := 3.

Definition get_and_test_subtensor (w : World) (endpoint : string)
    : list event * outcome handle :=
  retry_from (attempt_once w endpoint) 1 (max_attempts - 1).

(** The [for endpoint in ENDPOINTS] loop of [get_working_subtensor]. *)
Fixpoint try_endpoints (w : World) (endpoints : list string) (last_error : option exn)
    : list event * outcome handle :=
  match endpoints with
  | [] =>
      ([], Raised match last_error with
                  | Some e => ConnectFailed e
                  | None => ConnectFailedNone
                  end)
  | endpoint :: rest =>
      match get_and_test_subtensor w endpoint with
      | (t, Returned sub) => (t, Returned sub)
      | (t, Raised e) =>
          let '(t', r) := try_endpoints w rest (Some e) in (t ++ t', r)
      end
  end.

Definition get_working_subtensor (w : World) : list event * outcome handle :=
  try_endpoints w ENDPOINTS None.

(** [await sub.close()] *)
Definition close (sub : handle) : M unit := emit (EClose sub).

(** ** Telegram *)

(** [send_telegram_message(message, config, chat_id)]: a failing POST is
    caught and printed, never raised.  The [config] is the one in the store;
    a [chat_id] of [0] stands for [None], which is as falsy. *)
Definition send_telegram_message (w : World) (text : message) (chat_id : Z)
    : M unit :=
  st <- get ;;
  let chat := if bool_decide (chat_id = 0)
              then telegram_chat_id (config st) else chat_id in
  if bool_decide (telegram_token (config st) = "") || bool_decide (chat = 0)
  then emit (ESendTelegram chat text NotConfigured)
  else match w_post w with
       | None => emit (ESendTelegram chat text Posted)
       | Some e => emit (ESendTelegram chat text (PostFailed e))
       end.

(** ** The allocation engine *)

(** [preferences.get(str(netuid), 1.0)] *)
Definition pref_get (preferences : gmap string Q) (n : Z) : Q :=
  default 1%Q (preferences !! pretty n).

(** The body of the [for s in subnets] loop of [select_best_subnet], acting
    on [(best_subnet, best_score)]. *)
Definition select_step (exclude_list : list Z) (preferences : gmap string Q)
    (acc : option Subnet * Q) (s : Subnet) : option Subnet * Q :=
  if bool_decide (netuid s = 0) || bool_decide (netuid s ∈ exclude_list)
  then acc
  else match price s with
       | None => acc
       | Some p =>
           if Qle_bool p 0 then acc
           else
             let score := (tao_in_emission s / p)%Q in
             let pref_multiplier := pref_get preferences (netuid s) in
             let effective_score := (score * pref_multiplier)%Q in
             if Qltb (snd acc) effective_score
             then (Some s, effective_score)
             else acc
       end.

Definition select_best_subnet (subnets : list Subnet) (exclude_list : list Z)
    (preferences : gmap string Q) : option Subnet * Q :=
  fold_left (select_step exclude_list preferences) subnets (None, 0%Q).

(** The score the loop computes for a subnet of price [p]. *)
Definition effective_score (preferences : gmap string Q) (s : Subnet) (p : Q) : Q :=
  ((tao_in_emission s / p) * pref_get preferences (netuid s))%Q.

(** [s] is eligible and [e] is its effective score. *)
Definition candidate (exclude_list : list Z) (preferences : gmap string Q)
    (s : Subnet) (e : Q) : Prop :=
  netuid s ≠ 0 ∧ (netuid s ∉ exclude_list) ∧
  (∃ p, price s = Some p ∧ (0 < p)%Q ∧ e = effective_score preferences s p).

(** [get_stake_info]: the positions of the validator, by subnet id; a later
    position of the same subnet replaces an earlier one. *)
Definition get_stake_info (validator : string) (stakes : list StakeInfo)
    : gmap Z StakeInfo :=
  fold_left (λ d stake,
      if bool_decide (si_hotkey_ss58 stake = validator)
      then <[si_netuid stake := stake]> d else d)
    stakes ∅.

(** The rows and the running totals of [build_display_table]. *)
Definition display_step (stake_info : gmap Z StakeInfo) (exclude_list : list Z)
    (preferences : gmap string Q) (chosen_netuid : option Z)
    (stake_action : StakeAction)
    (acc : list Row * (Q * Q * Q)) (s : Subnet) : list Row * (Q * Q * Q) :=
  let '(rows, (total_stake, total_stake_value, total_price)) := acc in
  if bool_decide (netuid s = 0) then acc
  else
    let price := float_or_zero (price s) in
    if Qle_bool price 0 then acc
    else
      let score := (tao_in_emission s / price)%Q in
      let pref_multiplier := pref_get preferences (netuid s) in
      let stake_amt := match stake_info !! netuid s with
                       | Some stake => float_or_zero (si_stake stake)
                       | None => 0%Q
                       end in
      let action :=
        if bool_decide (netuid s ∈ exclude_list) then RowExcluded
        else if bool_decide (chosen_netuid = Some (netuid s))
             then RowChosen stake_action
             else RowBlank in
      (rows ++ [{| row_netuid := netuid s; row_name := subnet_name s;
                   row_price := price; row_emission := tao_in_emission s;
                   row_score := score; row_pref_multiplier := pref_multiplier;
                   row_stake := stake_amt; row_action := action |}],
       ((total_stake + stake_amt)%Q,
        (total_stake_value + stake_amt * price)%Q,
        (total_price + price)%Q)).

Definition build_display_table (subnets : list Subnet)
    (stake_info : gmap Z StakeInfo) (exclude_list : list Z)
    (preferences : gmap string Q) (chosen_netuid : option Z)
    (stake_action : StakeAction) (wallet_balance : Q) : list Row * Summary :=
  let '(rows, (total_stake, total_stake_value, total_price)) :=
    fold_left
      (display_step stake_info exclude_list preferences chosen_netuid stake_action)
      subnets ([], (0%Q, 0%Q, 0%Q)) in
  (rows, {| sum_wallet_balance := wallet_balance;
            sum_total_price := total_price;
            sum_total_stake := total_stake;
            sum_total_stake_value := total_stake_value |}).

(** [stake_on_subnet]: the [add_stake] call is issued, then answered. *)
Definition stake_on_subnet (w : World) (sub : handle) (n : Z) (stake_amount : Q)
    : M unit :=
  emit (EAddStake sub n stake_amount) ;;; await (w_add_stake w).

(** [unstake_on_subnet] *)
Definition unstake_on_subnet (w : World) (sub : handle) (n : Z) (amount : Q)
    : M unit :=
  emit (EUnstake sub n amount) ;;; await (w_unstake w).

(** [x % y == 0] *)
Definition py_mod_is_zero (x y : Z) : M bool :=
  if bool_decide (y = 0) then raise ZeroDivisionError
  else ret (bool_decide (x `mod` y = 0)).

(** The allocation step of [process_block]: lines 575-599.  It returns
    [(stake_action, chosen_netuid)]. *)
Definition allocate (w : World) (sub : handle) (stake_amount : Q)
    (preferences : gmap string Q) (current_block : Z)
    (chosen_subnet : option Subnet) (best_score : Q)
    : M (StakeAction * option Z) :=
  st <- get ;;
  let cfg := config st in
  match chosen_subnet with
  | Some chosen =>
      if negb (paused cfg) && Qltb 0 best_score then
        let chosen_netuid := netuid chosen in
        let pref_multiplier := pref_get preferences chosen_netuid in
        let actual_stake := (stake_amount * pref_multiplier)%Q in
        r <- try_ (stake_on_subnet w sub chosen_netuid actual_stake) ;;
        match r with
        | Returned _ =>
            let purchase_event :=
              {| pe_block := current_block; pe_netuid := netuid chosen;
                 pe_subnet_name := subnet_name chosen;
                 pe_stake_amount := actual_stake; pe_score := best_score;
                 pe_pref_multiplier := pref_multiplier |} in
            modify (λ st, set_purchase_history
                            (purchase_history st ++ [purchase_event]) st) ;;;
            modify (λ st, set_accumulated_history
                            (accumulated_history st ++ [purchase_event]) st) ;;;
            ret (ActStake actual_stake best_score pref_multiplier,
                 Some chosen_netuid)
        | Raised e => ret (ActStakeError e, Some chosen_netuid)
        end
      else if paused cfg then ret (ActPaused, None)
      else ret (ActNone, None)
  | None =>
      if paused cfg then ret (ActPaused, None) else ret (ActNone, None)
  end.

(** The notification step of [process_block]: lines 614-619. *)
Definition publish (w : World) (current_block : Z) (summary : Summary) : M unit :=
  st <- get ;;
  let telegram_interval := telegram_update_interval (config st) in
  multiple <- py_mod_is_zero current_block telegram_interval ;;
  if multiple && negb (bool_decide (purchase_history st = [])) then
    send_telegram_message w
      (MsgDigest current_block summary (purchase_history st)) 0 ;;;
    modify (set_purchase_history [])
  else ret tt.

(** The block cycle up to the display: lines 561-612.  It yields the block
    height and the summary the publisher needs, and what was selected. *)
Definition process_block_head (w : World) (sub : handle)
    : M (Z * Summary * (option Subnet * Q)) :=
  st0 <- get ;;
  let exclude_list := exclude_list (config st0) in
  let stake_amount := stake_amount (config st0) in
  let validator := validator (config st0) in
  let preferences := preferences (config st0) in
  current_block <- await (w_current_block w) ;;
  subnets <- await (w_all_subnets w) ;;
  stakes <- await (w_stake_for_coldkey w) ;;
  let '(chosen_subnet, best_score) :=
    select_best_subnet subnets exclude_list preferences in
  a <- allocate w sub stake_amount preferences current_block
         chosen_subnet best_score ;;
  let '(stake_action, chosen_netuid) := a in
  stakes' <- await (w_stake_for_coldkey_after w) ;;
  let stake_info := get_stake_info validator stakes' in
  wallet_balance <- await (w_balance w) ;;
  let '(table, summary) :=
    build_display_table subnets stake_info exclude_list preferences
      chosen_netuid stake_action wallet_balance in
  emit (EConsole (PanelSummary summary table)) ;;;
  ret (current_block, summary, (chosen_subnet, best_score)).

(** One block cycle: [process_block].  The list the source returns is
    [purchase_history], which lives in the store here; the model returns the
    pair the cycle selected instead, so that statements can refer to it. *)
Definition process_block (w : World) (sub : handle) : M (option Subnet * Q) :=
  x <- process_block_head w sub ;;
  let '(current_block, summary, selected) := x in
  publish w current_block summary ;;;
  emit (EWaitForBlock sub) ;;;
  await (w_wait_for_block w) ;;;
  ret selected.

(** ** The block loop *)

(** The [while True] loop of [main_loop], run against the worlds of the
    successive cycles.  It yields the error of the cycle that made it
    [break], the one the panel "Error in process block" reports; [None] is
    the script used up, which is when the loop would run the next cycle. *)
Fixpoint block_loop (ws : list World) (sub : handle) : M (option exn) :=
  match ws with
  | [] => ret None
  | w :: rest =>
      r <- try_ (process_block w sub) ;;
      match r with
      | Returned _ => block_loop rest sub
      | Raised e => ret (Some e)
      end
  end.

(** [main_loop(wallet, config)]: the session is acquired in the world [w0],
    outside any [try]; [purchase_history] starts empty; the session is
    closed once the loop has been left. *)
Definition main_loop (w0 : World) (ws : list World) : M (option exn) :=
  sub <- lift_trace (get_working_subtensor w0) ;;
  modify (set_purchase_history []) ;;;
  r <- block_loop ws sub ;;
  match r with
  | Some e => close sub ;;; ret (Some e)
  | None => ret None
  end.

(** ** The command interpreter *)

(** Whitespace for [str.split()] and [str.strip()], on ASCII. *)
Definition is_space (c : ascii) : bool :=
  let n := nat_of_ascii c in
  ((9 <=? n) && (n <=? 13) || (28 <=? n) && (n <=? 32))%nat.

(** [text.strip().split()]: the maximal runs of non-whitespace; [cur] is the
    token being read. *)
Fixpoint split_from (cur : option string) (s : string) : list string :=
  match s with
  | EmptyString => match cur with Some tok => [tok] | None => [] end
  | String c s' =>
      if is_space c
      then match cur with
           | Some tok => tok :: split_from None s'
           | None => split_from None s'
           end
      else split_from (Some (default "" cur +:+ String c "")) s'
  end.

Definition split (text : string) : list string := split_from None text.

(** [str.lower()], on ASCII. *)
Definition lower_ascii (c : ascii) : ascii :=
  let n := nat_of_ascii c in
  if ((65 <=? n) && (n <=? 90))%nat then ascii_of_nat (n + 32) else c.

Fixpoint lower (s : string) : string :=
  match s with
  | EmptyString => EmptyString
  | String c s' => String (lower_ascii c) (lower s')
  end.

(** An inbound Telegram message that has a ["text"]. *)
Record Message := { msg_text : string; msg_chat_id : Z }.

(** The commands that take a netuid: line 294. *)
Definition netuid_commands : list string :=
  ["/info"; "/boost"; "/slash"; "/exclude"; "/unstake"; "/stake"].

(** The verbs [handle_telegram_command] acts on. *)
Definition recognized_commands : list string :=
  ["/pause"; "/start"; "/balance"; "/history"] ++ netuid_commands ++ ["/amount"].

(** [get_working_subtensor()] inside [try ... except], in the monad. *)
Definition acquire (w : World) : M (outcome handle) :=
  try_ (lift_trace (get_working_subtensor w)).

(** An attribute lookup on a Python [list] object: [list] has no attribute
    named [symbol]. *)
Definition list_symbol {A} (l : list A) : outcome string := Raised AttributeError.

(** The [for stake in stake_info] loop of [/balance]: lines 197-203.  The
    f-string of line 203 reads [stake_info.symbol], with [stake_info] the
    list itself. *)
Fixpoint balance_lines (stake_info : list StakeInfo) (todo : list StakeInfo)
    (msg_lines : list (Z * Q * string)) : outcome (list (Z * Q * string)) :=
  match todo with
  | [] => Returned msg_lines
  | stake :: rest =>
      let stake_amt := float_or_zero (si_stake stake) in
      if Qltb 0 stake_amt then
        match list_symbol stake_info with
        | Returned sym =>
            balance_lines stake_info rest
              (msg_lines ++ [(si_netuid stake, stake_amt, sym)])
        | Raised e => Raised e
        end
      else balance_lines stake_info rest msg_lines
  end.

(** [/balance]: lines 175-209. *)
Definition cmd_balance (w : World) (chat_id : Z) : M unit :=
  r <- acquire w ;;
  match r with
  | Raised e => send_telegram_message w (MsgErrInit e) chat_id
  | Returned sub =>
      q <- try_ (current_block <- await (w_current_block w) ;;
                 stake_info <- await (w_stake_for_coldkey w) ;;
                 wallet_balance <- await (w_balance w) ;;
                 ret (current_block, stake_info, wallet_balance)) ;;
      match q with
      | Raised e =>
          send_telegram_message w (MsgErrBalanceInfo e) chat_id ;;;
          close sub
      | Returned (current_block, stake_info, wallet_balance) =>
          stakes <- match stake_info with
                    | [] => ret None
                    | _ => ls <- await (balance_lines stake_info stake_info []) ;;
                           ret (Some ls)
                    end ;;
          send_telegram_message w
            (MsgBalance wallet_balance current_block stakes) chat_id ;;;
          close sub
      end
  end.

(** [subnet_info]: lines 228-231; [float(s.price)] is not guarded here. *)
Fixpoint build_subnet_info (subnets : list Subnet) (subnet_info : dict (Q * string))
    : outcome (dict (Q * string)) :=
  match subnets with
  | [] => Returned subnet_info
  | s :: rest =>
      if bool_decide (netuid s ≠ 0) then
        match price s with
        | Some p =>
            build_subnet_info rest
              (dict_set subnet_info (pretty (netuid s)) (p, subnet_name s))
        | None => Raised ConversionError
        end
      else build_subnet_info rest subnet_info
  end.

(** [current_stakes]: lines 233-240. *)
Definition build_current_stakes (stake_info : list StakeInfo) : dict Q :=
  fold_left (λ d stake,
      dict_set d (pretty (si_netuid stake)) (float_or_zero (si_stake stake)))
    stake_info [].

(** [subnet_info.get(netuid, {}).get("price", 0.0)] *)
Definition info_price (subnet_info : dict (Q * string)) (k : string) : Q :=
  match dict_get subnet_info k with Some (p, _) => p | None => 0%Q end.

(** [subnet_info.get(netuid, {}).get("name", "")] *)
Definition info_name (subnet_info : dict (Q * string)) (k : string) : string :=
  match dict_get subnet_info k with Some (_, n) => n | None => "" end.

(** [current_total_stake_value]: lines 243-246. *)
Definition total_stake_value (subnet_info : dict (Q * string))
    (current_stakes : dict Q) : Q :=
  fold_left (λ acc kv, (acc + snd kv * info_price subnet_info (fst kv))%Q)
    current_stakes 0%Q.

(** [increases_lines]: lines 270-276. *)
Definition increases (subnet_info : dict (Q * string)) (last_stakes : dict Q)
    (current_stakes : dict Q) : list (string * string * Q) :=
  omap (λ kv,
      let previous_amt := default 0%Q (dict_get last_stakes (fst kv)) in
      let diff := (snd kv - previous_amt)%Q in
      if Qltb 0 diff then Some (fst kv, info_name subnet_info (fst kv), diff)
      else None)
    current_stakes.

(** [/history]: lines 211-291. *)
Definition cmd_history (w : World) (chat_id : Z) : M unit :=
  r <- acquire w ;;
  match r with
  | Raised e => send_telegram_message w (MsgErrInit e) chat_id
  | Returned sub =>
      q <- try_ (current_block <- await (w_current_block w) ;;
                 subnets <- await (w_all_subnets w) ;;
                 stake_info <- await (w_stake_for_coldkey w) ;;
                 wallet_balance <- await (w_balance w) ;;
                 ret (current_block, subnets, stake_info, wallet_balance)) ;;
      match q with
      | Raised e =>
          send_telegram_message w (MsgErrPortfolioInfo e) chat_id ;;;
          close sub
      | Returned (current_block, subnets, stake_info, wallet_balance) =>
          subnet_info <- await (build_subnet_info subnets []) ;;
          let current_stakes := build_current_stakes stake_info in
          let current_total_stake := Qsum (dict_values current_stakes) in
          let current_total_stake_value :=
            total_stake_value subnet_info current_stakes in
          let current_time := w_time w in
          let current_snapshot :=
            {| snap_time := current_time; snap_block := current_block;
               snap_wallet_balance := wallet_balance;
               snap_stake_value := current_total_stake_value;
               snap_stakes := current_stakes |} in
          st <- get ;;
          match last_history_snapshot st with
          | None =>
              modify (set_last_history_snapshot (Some current_snapshot)) ;;;
              send_telegram_message w MsgHistoryCreated chat_id
          | Some last =>
              let time_diff := (current_time - snap_time last)%Q in
              let block_diff := current_block - snap_block last in
              let amount_staked :=
                Qsum (pe_stake_amount <$> accumulated_history st) in
              let previous_total_stake := Qsum (dict_values (snap_stakes last)) in
              let stake_diff := (current_total_stake - previous_total_stake)%Q in
              let previous_value :=
                (snap_wallet_balance last + snap_stake_value last)%Q in
              let current_value :=
                (wallet_balance + current_total_stake_value)%Q in
              let pnl := (current_value - previous_value)%Q in
              send_telegram_message w
                (MsgHistory time_diff block_diff amount_staked stake_diff pnl
                   (increases subnet_info (snap_stakes last) current_stakes))
                chat_id ;;;
              modify (set_last_history_snapshot (Some current_snapshot)) ;;;
              modify (set_accumulated_history [])
          end ;;;
          close sub
      end
  end.

Section Interpreter.

(** [int(s)] and [float(s)] on one token: [None] is [ValueError].  What
    Python accepts as a number is left open. *)
Variable py_int : string → option Z.
Variable py_float : string → option Q.

(** [/info]: lines 304-360. *)
Definition cmd_info (w : World) (n : Z) (chat_id : Z) : M unit :=
  r <- acquire w ;;
  match r with
  | Raised e => send_telegram_message w (MsgErrInit e) chat_id
  | Returned sub =>
      q <- try_ (current_block <- await (w_current_block w) ;;
                 subnets <- await (w_all_subnets w) ;;
                 ret (current_block, subnets)) ;;
      match q with
      | Raised e =>
          send_telegram_message w (MsgErrSubnetData e) chat_id ;;;
          close sub
      | Returned (current_block, subnets) =>
          match find (λ s, bool_decide (netuid s = n)) subnets with
          | None =>
              send_telegram_message w (MsgSubnetNotFound n) chat_id ;;;
              close sub
          | Some target =>
              let price := float_or_zero (price target) in
              q' <- try_ (await (w_stake_for_coldkey w)) ;;
              match q' with
              | Raised e =>
                  send_telegram_message w (MsgErrStakeInfo e) chat_id ;;;
                  close sub
              | Returned stake_info =>
                  st <- get ;;
                  let my_stake :=
                    match find (λ stake,
                                  bool_decide (si_netuid stake = n) &&
                                  bool_decide (si_hotkey_ss58 stake =
                                               validator (config st)))
                               stake_info with
                    | Some stake => float_or_zero (si_stake stake)
                    | None => 0%Q
                    end in
                  let current_pref := pref_get (preferences (config st)) n in
                  send_telegram_message w
                    (MsgSubnetInfo n (subnet_name target) price my_stake
                       (symbol target) current_pref current_block) chat_id ;;;
                  close sub
              end
          end
      end
  end.

(** The value [/boost] stores: line 364.  [current_pref] is a double, [0.1]
    is [tenth_q], and the sum is rounded. *)
Definition boosted (current_pref : Q) : Q := round64 (current_pref + tenth_q).

(** The value [/slash] stores: lines 370-372, rounded likewise. *)
Definition slashed (current_pref : Q) : Q :=
  let new_pref := round64 (current_pref - tenth_q) in
  if Qltb new_pref tenth_q then tenth_q else new_pref.

(** [/boost]: lines 362-366. *)
Definition cmd_boost (w : World) (n : Z) (chat_id : Z) : M unit :=
  st <- get ;;
  let current_pref := pref_get (preferences (config st)) n in
  let new_pref := boosted current_pref in
  modify (set_config
            (set_preferences (<[pretty n := new_pref]> (preferences (config st))))) ;;;
  send_telegram_message w (MsgNewPreference n new_pref) chat_id.

(** [/slash]: lines 368-374. *)
Definition cmd_slash (w : World) (n : Z) (chat_id : Z) : M unit :=
  st <- get ;;
  let current_pref := pref_get (preferences (config st)) n in
  let new_pref := slashed current_pref in
  modify (set_config
            (set_preferences (<[pretty n := new_pref]> (preferences (config st))))) ;;;
  send_telegram_message w (MsgNewPreference n new_pref) chat_id.

(** [/exclude]: lines 376-381. *)
Definition cmd_exclude (w : World) (n : Z) (chat_id : Z) : M unit :=
  st <- get ;;
  if bool_decide (n ∉ exclude_list (config st)) then
    modify (set_config (set_exclude_list (exclude_list (config st) ++ [n]))) ;;;
    send_telegram_message w (MsgExcluded n) chat_id
  else send_telegram_message w (MsgAlreadyExcluded n) chat_id.

(** [/unstake]: lines 383-402. *)
Definition cmd_unstake (w : World) (n : Z) (parts : list string) (chat_id : Z)
    : M unit :=
  match parts !! 2%nat with
  | None => send_telegram_message w MsgUsageUnstake chat_id
  | Some arg =>
      match py_float arg with
      | None => send_telegram_message w MsgUsageUnstakeNumber chat_id
      | Some amount =>
          r <- acquire w ;;
          match r with
          | Raised e => send_telegram_message w (MsgErrInit e) chat_id
          | Returned sub =>
              q <- try_ (unstake_on_subnet w sub n amount) ;;
              match q with
              | Returned _ =>
                  send_telegram_message w (MsgUnstaked amount n) chat_id
              | Raised e =>
                  send_telegram_message w (MsgErrUnstake n e) chat_id
              end ;;;
              close sub
          end
      end
  end.

(** [/stake]: lines 404-423. *)
Definition cmd_stake (w : World) (n : Z) (parts : list string) (chat_id : Z)
    : M unit :=
  match parts !! 2%nat with
  | None => send_telegram_message w MsgUsageStake chat_id
  | Some arg =>
      match py_float arg with
      | None => send_telegram_message w MsgUsageStakeNumber chat_id
      | Some amount =>
          r <- acquire w ;;
          match r with
          | Raised e => send_telegram_message w (MsgErrInit e) chat_id
          | Returned sub =>
              q <- try_ (stake_on_subnet w sub n amount) ;;
              match q with
              | Returned _ =>
                  send_telegram_message w (MsgStaked amount n) chat_id
              | Raised e =>
                  send_telegram_message w (MsgErrStake n e) chat_id
              end ;;;
              close sub
          end
      end
  end.

(** [/amount]: lines 425-432.  [parts[1]] is read inside the [try], whose
    handler is [except ValueError]. *)
Definition cmd_amount (w : World) (parts : list string) (chat_id : Z) : M unit :=
  match parts !! 1%nat with
  | None => raise IndexError
  | Some arg =>
      match py_float arg with
      | None => send_telegram_message w MsgUsageAmount chat_id
      | Some new_amount =>
          modify (set_config (set_stake_amount new_amount)) ;;;
          send_telegram_message w (MsgNewAmount new_amount) chat_id
      end
  end.

(** The [if cmd == "/info": ... elif ...] chain of lines 304-423, for the
    commands that have parsed a netuid. *)
Definition netuid_command (w : World) (cmd : string) (n : Z)
    (parts : list string) (chat_id : Z) : M unit :=
  if bool_decide (cmd = "/info") then cmd_info w n chat_id
  else if bool_decide (cmd = "/boost") then cmd_boost w n chat_id
  else if bool_decide (cmd = "/slash") then cmd_slash w n chat_id
  else if bool_decide (cmd = "/exclude") then cmd_exclude w n chat_id
  else if bool_decide (cmd = "/unstake") then cmd_unstake w n parts chat_id
  else if bool_decide (cmd = "/stake") then cmd_stake w n parts chat_id
  else ret tt.

(** [handle_telegram_command(message, wallet, config)].  The netuid of
    lines 294-302 is parsed first for the six commands that take one; the
    chain of line 304 then ends in [/amount] and has no [else]. *)
Definition handle_telegram_command (w : World) (message : Message) : M unit :=
  let text := msg_text message in
  let chat_id := msg_chat_id message in
  let parts := split text in
  match parts with
  | [] => send_telegram_message w MsgInvalidCommand chat_id
  | first :: _ =>
      let cmd := lower first in
      if bool_decide (cmd = "/pause") then
        modify (set_config (set_paused true)) ;;;
        send_telegram_message w MsgPaused chat_id
      else if bool_decide (cmd = "/start") then
        modify (set_config (set_paused false)) ;;;
        send_telegram_message w MsgResumed chat_id
      else if bool_decide (cmd = "/balance") then cmd_balance w chat_id
      else if bool_decide (cmd = "/history") then cmd_history w chat_id
      else if bool_decide (cmd ∈ netuid_commands) then
        match parts !! 1%nat with
        | None => send_telegram_message w MsgUsageNetuid chat_id
        | Some arg =>
            match py_int arg with
            | None => send_telegram_message w MsgUsageNumericNetuid chat_id
            | Some n => netuid_command w cmd n parts chat_id
            end
        end
      else if bool_decide (cmd = "/amount") then cmd_amount w parts chat_id
      else ret tt
  end.

(** ** The control-poll cycle *)

(** One entry of the ["result"] list; [upd_message] is the ["message"] or
    ["channel_post"] when it has a ["text"]. *)
Record Update := { update_id : Z; upd_message : option Message }.

(** What one [getUpdates] request meets: the request or its JSON decoding
    raises, or it yields updates, each handled against its own world. *)
Inductive PollStep :=
  | PollFails (e : exn)
  | PollReturns (updates : list (Update * World)).

(** The [for update in data.get("result", [])] loop: lines 131-136. *)
Fixpoint handle_updates (updates : list (Update * World)) (offset : Z) : M Z :=
  match updates with
  | [] => ret offset
  | (update, w) :: rest =>
      let offset := Z.max offset (update_id update + 1) in
      match upd_message update with
      | Some message => handle_telegram_command w message
      | None => ret tt
      end ;;;
      handle_updates rest offset
  end.

Definition poll_interval : Z := 3.

(** The [while True] loop of [poll_telegram_updates], run against a finite
    script of poll results.  It returns the cursor when the script is used
    up, which is when the loop would poll again. *)
Fixpoint poll_loop (script : list PollStep) (offset : Z) : M Z :=
  match script with
  | [] => ret offset
  | step :: rest =>
      emit (EGetUpdates offset) ;;;
      match step with
      | PollFails e =>
          emit (EConsole (PanelPollError e)) ;;;
          emit (ESleep poll_interval) ;;;
          poll_loop rest offset
      | PollReturns updates =>
          offset' <- handle_updates updates offset ;;
          emit (ESleep poll_interval) ;;;
          poll_loop rest offset'
      end
  end.

(** [poll_telegram_updates(wallet, config)]: [None] when no token is
    configured and the function returns at once. *)
Definition poll_telegram_updates (script : list PollStep) : M (option Z) :=
  st <- get ;;
  if bool_decide (telegram_token (config st) = "") then ret None
  else offset <- poll_loop script 0 ;; ret (Some offset).

End Interpreter.

(** ** Vocabulary of the statements *)

Definition trace_of {A} (x : list event * St * outcome A) : list event := x.1.1.
Definition state_of {A} (x : list event * St * outcome A) : St := x.1.2.
Definition result_of {A} (x : list event * St * outcome A) : outcome A := x.2.

(** What the selection loop has established after the subnets [seen]. *)
Definition select_inv (exclude_list : list Z) (preferences : gmap string Q)
    (seen : list Subnet) (acc : option Subnet * Q) : Prop :=
  match acc.1 with
  | None =>
      acc.2 = 0%Q ∧
      ∀ (j : nat) s' e', seen !! j = Some s' →
        candidate exclude_list preferences s' e' → (e' <= 0)%Q
  | Some s =>
      ∃ i : nat, seen !! i = Some s ∧
        candidate exclude_list preferences s acc.2 ∧ (0 < acc.2)%Q ∧
        ∀ (j : nat) s' e', seen !! j = Some s' →
          candidate exclude_list preferences s' e' →
          (e' <= acc.2)%Q ∧ ((j < i)%nat → (e' < acc.2)%Q)
  end.

(** The connection attempts a trace makes, in order. *)
Definition opens (t : list event) : list (string * nat) :=
  omap (λ ev, match ev with EOpen ep k => Some (ep, k) | _ => None end) t.

(** The first [k] attempts on one endpoint. *)
Definition attempts_upto (endpoint : string) (k : nat) : list (string * nat) :=
  (λ j, (endpoint, j)) <$> seq 1 k.

(** Every attempt the retry policy allows on the endpoint fails. *)
Definition endpoint_fails (w : World) (endpoint : string) : Prop :=
  ∀ k, (1 ≤ k ≤ max_attempts)%nat → w_connect w endpoint k ≠ Verified.

(** The error an attempt ends in. *)
Definition attempt_error (o : attempt_outcome) : option exn :=
  match o with
  | InitFails e | VerifyFails e => Some e
  | Verified => None
  end.

(** Every session the trace closes is one whose verification failed. *)
Definition closes_failed (w : World) (t : list event) : Prop :=
  ∀ sub, EClose sub ∈ t →
    ∃ e, w_connect w (h_endpoint sub) (h_attempt sub) = VerifyFails e.

(** The event one call of [send_telegram_message] leaves in the trace. *)
Definition send_event (w : World) (cfg : Config) (text : message) (chat_id : Z)
    : event :=
  let chat := if bool_decide (chat_id = 0) then telegram_chat_id cfg else chat_id in
  ESendTelegram chat text
    (if bool_decide (telegram_token cfg = "") || bool_decide (chat = 0)
     then NotConfigured
     else match w_post w with None => Posted | Some e => PostFailed e end).

(** The stake mutations a trace issues, in order. *)
Definition add_stake_calls (t : list event) : list (handle * Z * Q) :=
  omap (λ ev, match ev with EAddStake sub n a => Some (sub, n, a) | _ => None end) t.

(** The messages a trace hands to [send_telegram_message], in order. *)
Definition sent (t : list event) : list message :=
  omap (λ ev, match ev with ESendTelegram _ text _ => Some text | _ => None end) t.

(** The sessions a trace closes, in order. *)
Definition closed (t : list event) : list handle :=
  omap (λ ev, match ev with EClose sub => Some sub | _ => None end) t.

(** A property of a computation that holds from every store, whether the
    computation returns or raises: [R] relates the store before, the trace
    and the store after. *)
Definition always {A} (R : St → list event → St → Prop) (m : M A) : Prop :=
  ∀ st, R st (trace_of (m st)) (state_of (m st)).

(** Relations that hold of doing nothing and of doing one thing after
    another. *)
Class Sequential (R : St → list event → St → Prop) : Prop := {
  seq_skip st : R st [] st;
  seq_then st t1 st1 t2 st2 : R st t1 st1 → R st1 t2 st2 → R st (t1 ++ t2) st2;
}.

(** A computation that can only return values satisfying [P]. *)
Definition returns_only {A} (P : A → Prop) (m : M A) : Prop :=
  ∀ st a, result_of (m st) = Returned a → P a.

(** No stake is committed and no purchase is recorded: the accumulated
    buffer is as before, the batch buffer is as before or flushed. *)
Definition no_commit (st : St) (t : list event) (st' : St) : Prop :=
  add_stake_calls t = [] ∧
  accumulated_history st' = accumulated_history st ∧
  (purchase_history st' = purchase_history st ∨ purchase_history st' = []).

(** The same of a store that is paused, which then stays paused. *)
Definition no_commit_while_paused (st : St) (t : list event) (st' : St) : Prop :=
  paused (config st) = true →
  config st' = config st ∧ no_commit st t st'.

(** The store is left as it is, no stake is committed and nothing is sent. *)
Definition reads_only (st : St) (t : list event) (st' : St) : Prop :=
  st' = st ∧ add_stake_calls t = [] ∧ sent t = [].

(** Nothing is sent and the configuration is left as it is. *)
Definition sends_nothing (st : St) (t : list event) (st' : St) : Prop :=
  sent t = [] ∧ config st' = config st.

(** Run a command [k] times in a row. *)
Fixpoint repeat_cmd (k : nat) (m : M unit) : M unit :=
  match k with
  | O => ret tt
  | S k' => m ;;; repeat_cmd k' m
  end.

(** The store after [/boost n] and after [/slash n]. *)
Definition boost_store (n : Z) (st : St) : St :=
  set_config
    (set_preferences
       (<[pretty n := boosted (pref_get (preferences (config st)) n)]>
          (preferences (config st)))) st.

Definition slash_store (n : Z) (st : St) : St :=
  set_config
    (set_preferences
       (<[pretty n := slashed (pref_get (preferences (config st)) n)]>
          (preferences (config st)))) st.

(** The multiplier of subnet [n] after [boosts] times [/boost n] followed by
    [slashes] times [/slash n]. *)
Definition multiplier_after (w : World) (n chat_id : Z) (st : St)
    (boosts slashes : nat) : Q :=
  pref_get
    (preferences (config (state_of
       ((repeat_cmd boosts (cmd_boost w n chat_id) ;;;
         repeat_cmd slashes (cmd_slash w n chat_id)) st)))) n.

(** A count as a rational. *)
Definition Qn (k : nat) : Q := inject_Z (Z.of_nat k).

(** The distance that [k] rounded steps on values up to [2 * M] can put
    between the multiplier and its exact value. *)
Definition drift (M : Q) (k : nat) : Q := (2 * Qn k * u64 * M)%Q.

(** The exact value kept at the floor. *)
Definition floor_at (x : Q) : Q := if Qltb x tenth_q then tenth_q else x.

(** The handler only replied [text] and left the store as it was. *)
Definition replied (w : World) (st : St) (text : message) (chat_id : Z)
    : list event * St * outcome unit :=
  ([send_event w (config st) text chat_id], st, Returned tt).

(** The snapshot [/history] builds from the answers of the gateway. *)
Definition snapshot_of (w : World) (current_block : Z) (wallet_balance : Q)
    (subnet_info : dict (Q * string)) (stake_info : list StakeInfo) : Snapshot :=
  {| snap_time := w_time w; snap_block := current_block;
     snap_wallet_balance := wallet_balance;
     snap_stake_value :=
       total_stake_value subnet_info (build_current_stakes stake_info);
     snap_stakes := build_current_stakes stake_info |}.

(** The summary [/history] sends against the prior snapshot [last]. *)
Definition history_summary (w : World) (current_block : Z) (wallet_balance : Q)
    (subnet_info : dict (Q * string)) (stake_info : list StakeInfo)
    (accumulated : list PurchaseEvent) (last : Snapshot) : message :=
  let current_stakes := build_current_stakes stake_info in
  MsgHistory
    (w_time w - snap_time last)%Q
    (current_block - snap_block last)
    (Qsum (pe_stake_amount <$> accumulated))
    (Qsum (dict_values current_stakes) - Qsum (dict_values (snap_stakes last)))%Q
    ((wallet_balance + total_stake_value subnet_info current_stakes)
     - (snap_wallet_balance last + snap_stake_value last))%Q
    (increases subnet_info (snap_stakes last) current_stakes).

(** The profit and loss the specification describes: both sides of the
    comparison valued at the current prices. *)
Definition pnl_at_current_prices (wallet_balance : Q)
    (subnet_info : dict (Q * string)) (current_stakes : dict Q)
    (last : Snapshot) : Q :=
  ((wallet_balance + total_stake_value subnet_info current_stakes)
   - (snap_wallet_balance last
      + total_stake_value subnet_info (snap_stakes last)))%Q.

(** The profit and loss a history summary reports. *)
Definition reported_pnl (text : message) : option Q :=
  match text with
  | MsgHistory _ _ _ _ pnl _ => Some pnl
  | _ => None
  end.

(** The amount staked a history summary reports. *)
Definition reported_amount_staked (text : message) : option Q :=
  match text with
  | MsgHistory _ _ amount_staked _ _ _ => Some amount_staked
  | _ => None
  end.

(** The command verb of a text: its first token, in lower case. *)
Definition verb_of (text : string) : option string := lower <$> head (split text).

(** The gateway is reached and answers every query of [/history], and every
    listed price converts. *)
Definition answers_history (w : World) (tc : list event) (sub : handle)
    (current_block : Z) (stake_info : list StakeInfo) (wallet_balance : Q)
    (subnet_info : dict (Q * string)) : Prop :=
  ∃ subnets,
    get_working_subtensor w = (tc, Returned sub) ∧
    w_current_block w = Returned current_block ∧
    w_all_subnets w = Returned subnets ∧
    w_stake_for_coldkey w = Returned stake_info ∧
    w_balance w = Returned wallet_balance ∧
    build_subnet_info subnets [] = Returned subnet_info.

(** ** The multiplier arithmetic on primitive floats

    [boosted] and [slashed] once more, on the binary64 floats of the
    prover's kernel, to compare [round64] with on concrete values.  [tenth]
    is the double that the literal [0.1] denotes, and [Q_of_float] the
    rational a finite double denotes. *)

Definition tenth : float := 0x1.999999999999ap-4%float.

Definition boosted_float (current_pref : float) : float :=
  PrimFloat.add current_pref tenth.

Definition slashed_float (current_pref : float) : float :=
  let new_pref := PrimFloat.sub current_pref tenth in
  if PrimFloat.ltb new_pref tenth then tenth else new_pref.

Definition Q_of_float (x : float) : option Q :=
  match Prim2SF x with
  | S754_zero _ => Some 0%Q
  | S754_finite s m e =>
      Some (Qred ((if s then -1 else 1) * inject_Z (Zpos m) * pow2 e))
  | _ => None
  end.

(** ** Further vocabulary: the table, the selection and the block cycle *)

(** A position counts for the validator on subnet [n]. *)
Definition position_of (validator : string) (n : Z) (stake : StakeInfo) : bool :=
  bool_decide (si_netuid stake = n) && bool_decide (si_hotkey_ss58 stake = validator).

(** The last element of a list that passes a test. *)
Definition last_such {A} (test : A → bool) (l : list A) : option A :=
  last (List.filter test l).

(** The subnets [build_display_table] gives a row: not the root, and with
    a price that converts and is above 0. *)
Definition shown (s : Subnet) : bool :=
  negb (bool_decide (netuid s = 0)) && negb (Qle_bool (float_or_zero (price s)) 0).

(** The row of a subnet that is shown. *)
Definition row_of (stake_info : gmap Z StakeInfo) (exclude_list : list Z)
    (preferences : gmap string Q) (chosen_netuid : option Z)
    (stake_action : StakeAction) (s : Subnet) : Row :=
  {| row_netuid := netuid s; row_name := subnet_name s;
     row_price := float_or_zero (price s);
     row_emission := tao_in_emission s;
     row_score := (tao_in_emission s / float_or_zero (price s))%Q;
     row_pref_multiplier := pref_get preferences (netuid s);
     row_stake := match stake_info !! netuid s with
                  | Some stake => float_or_zero (si_stake stake)
                  | None => 0%Q
                  end;
     row_action :=
       if bool_decide (netuid s ∈ exclude_list) then RowExcluded
       else if bool_decide (chosen_netuid = Some (netuid s))
            then RowChosen stake_action
            else RowBlank |}.

(** A subnet the selection loop scores: not the root, not excluded, and
    with a price that converts and is above 0. *)
Definition eligible (exclude_list : list Z) (s : Subnet) : bool :=
  negb (bool_decide (netuid s = 0)) &&
  negb (bool_decide (netuid s ∈ exclude_list)) &&
  match price s with
  | Some p => negb (Qle_bool p 0)
  | None => false
  end.

(** The panels a trace prints on the console, in order. *)
Definition panels (t : list event) : list panel :=
  omap (λ ev, match ev with EConsole p => Some p | _ => None end) t.

(** The calls a block cycle can make: it stakes, sends, prints and waits
    for the next block. *)
Definition cycle_event (ev : event) : bool :=
  match ev with
  | EAddStake _ _ _ | ESendTelegram _ _ _ | EConsole _ | EWaitForBlock _ => true
  | _ => false
  end.

(** What a block cycle leaves alone: it makes no other call than those of
    [cycle_event], and it changes neither the configuration nor the history
    snapshot. *)
Definition cycle_frame (st : St) (t : list event) (st' : St) : Prop :=
  Forall (λ ev, cycle_event ev = true) t ∧
  config st' = config st ∧
  last_history_snapshot st' = last_history_snapshot st.

(** An awaited call answered. *)
Definition is_returned {A} (r : outcome A) : bool :=
  match r with Returned _ => true | Raised _ => false end.

(** The gateway answers the five queries of a block cycle and the wait for
    the next block. *)
Definition cycle_answered (w : World) : bool :=
  is_returned (w_current_block w) && is_returned (w_all_subnets w) &&
  is_returned (w_stake_for_coldkey w) &&
  is_returned (w_stake_for_coldkey_after w) && is_returned (w_balance w) &&
  is_returned (w_wait_for_block w).

(** No panel is printed. *)
Definition prints_nothing (st : St) (t : list event) (st' : St) : Prop :=
  panels t = [].

(** ** Further vocabulary: the command interpreter *)

(** The calls that reach for a gateway session. *)
Definition connect_event (ev : event) : bool :=
  match ev with
  | EOpen _ _ | EBackoff | EClose _ => true
  | _ => false
  end.

(** The calls a command can make: it connects, stakes or unstakes, and
    replies. *)
Definition handler_event (ev : event) : bool :=
  match ev with
  | EOpen _ _ | EBackoff | EClose _ | EAddStake _ _ _ | EUnstake _ _ _
  | ESendTelegram _ _ _ => true
  | _ => false
  end.

(** What no command touches: the batch buffer of the block loop, the
    validator, the Telegram credentials and the update interval; and no
    command removes an exclusion. *)
Definition handler_frame (st : St) (t : list event) (st' : St) : Prop :=
  Forall (λ ev, handler_event ev = true) t ∧
  purchase_history st' = purchase_history st ∧
  validator (config st') = validator (config st) ∧
  telegram_token (config st') = telegram_token (config st) ∧
  telegram_chat_id (config st') = telegram_chat_id (config st) ∧
  telegram_update_interval (config st') = telegram_update_interval (config st) ∧
  exclude_list (config st) `prefix_of` exclude_list (config st').

(** The unstake calls a trace issues, in order. *)
Definition unstake_calls (t : list event) : list (handle * Z * Q) :=
  omap (λ ev, match ev with EUnstake sub n a => Some (sub, n, a) | _ => None end) t.

(** A computation that can only raise exceptions satisfying [P]. *)
Definition raises_only {A} (P : exn → Prop) (m : M A) : Prop :=
  ∀ st e, result_of (m st) = Raised e → P e.

(** No stake is added and none is removed. *)
Definition moves_nothing (st : St) (t : list event) (st' : St) : Prop :=
  add_stake_calls t = [] ∧ unstake_calls t = [].

(** No session is opened or closed. *)
Definition session_idle (st : St) (t : list event) (st' : St) : Prop :=
  Forall (λ ev, connect_event ev = false) t.

(** A computation that, when it returns, has closed the session [sub] as
    its last act and touched no other session. *)
Definition closes_last {A} (sub : handle) (m : M A) : Prop :=
  ∀ st, match result_of (m st) with
        | Returned _ =>
            ∃ body, trace_of (m st) = body ++ [EClose sub] ∧
                    Forall (λ ev, connect_event ev = false) body
        | Raised _ => True
        end.

(** The session discipline of a command that returns: it uses no session,
    or it connects once and, having acquired a session, closes it as its
    last act; a failure to connect is only reported. *)
Definition disciplined (w : World) (chat_id : Z) (m : M unit) : Prop :=
  ∀ st, result_of (m st) = Returned tt →
    Forall (λ ev, connect_event ev = false) (trace_of (m st)) ∨
    match get_working_subtensor w with
    | (tc, Raised e) =>
        trace_of (m st) = tc ++ [send_event w (config st) (MsgErrInit e) chat_id]
    | (tc, Returned sub) =>
        ∃ body, trace_of (m st) = tc ++ body ++ [EClose sub] ∧
                Forall (λ ev, connect_event ev = false) body
    end.

(** The store is left as it is. *)
Definition store_kept (st : St) (t : list event) (st' : St) : Prop := st' = st.

(** The verbs of the commands that change a setting or the history. *)
Definition setting_commands : list string :=
  ["/pause"; "/start"; "/history"; "/boost"; "/slash"; "/exclude"; "/amount"].

(** A trace with the chats of its replies erased. *)
Definition without_chat (t : list event) : list event :=
  (λ ev, match ev with
         | ESendTelegram _ text o => ESendTelegram 0 text o
         | _ => ev
         end) <$> t.

(** Two computations that run alike from every store, up to the chat their
    replies go to. *)
Definition same_run {A} (m1 m2 : M A) : Prop :=
  ∀ st, without_chat (trace_of (m1 st)) = without_chat (trace_of (m2 st)) ∧
        state_of (m1 st) = state_of (m2 st) ∧
        result_of (m1 st) = result_of (m2 st).

(** Every reply goes to the chat [chat_id]. *)
Definition replies_to (chat_id : Z) (st : St) (t : list event) (st' : St) : Prop :=
  Forall (λ ev, match ev with
                | ESendTelegram c _ _ => c = chat_id
                | _ => True
                end) t.

(** ** Further vocabulary: the selector, the cursor and [/history] *)

(** The session of a connection attempt that passed [initialize()] and then
    failed its verification. *)
Definition verify_failed (w : World) (a : string * nat) : option handle :=
  match w_connect w a.1 a.2 with
  | VerifyFails _ => Some {| h_endpoint := a.1; h_attempt := a.2 |}
  | _ => None
  end.

(** The cursors a trace polls from, in order. *)
Definition polled (t : list event) : list Z :=
  omap (λ ev, match ev with EGetUpdates offset => Some offset | _ => None end) t.

(** The cursor after a batch of updates: line 132. *)
Definition cursor_after (updates : list (Update * World)) (offset : Z) : Z :=
  fold_left (λ o uw, Z.max o (update_id uw.1 + 1)) updates offset.

(** A list of cursors that starts at or above [lo] and never goes back. *)
Fixpoint nondecreasing (lo : Z) (l : list Z) : Prop :=
  match l with
  | [] => True
  | x :: l' => lo ≤ x ∧ nondecreasing x l'
  end.

(** The first error among the four queries of [/history], in the order
    they are made. *)
Definition history_query_error (w : World) : option exn :=
  match w_current_block w with
  | Raised e => Some e
  | Returned _ =>
  match w_all_subnets w with
  | Raised e => Some e
  | Returned _ =>
  match w_stake_for_coldkey w with
  | Raised e => Some e
  | Returned _ =>
  match w_balance w with
  | Raised e => Some e
  | Returned _ => None
  end end end end.

(** ** Concrete inputs *)

(** A reading of plain decimal numerals, for the concrete runs below. *)
Definition ex_int (s : string) : option Z :=
  if bool_decide (s = "") then None else Z.of_int <$> NilEmpty.int_of_string s.

Definition ex_float (s : string) : option Q := inject_Z <$> ex_int s.

Definition ex_config : Config :=
  {| paused := false; preferences := {[ "2" := 2%Q ]}; exclude_list := [3];
     stake_amount := (1 # 2)%Q; validator := "validator";
     telegram_token := "token"; telegram_chat_id := 42;
     telegram_update_interval := 10 |}.

Definition ex_store : St :=
  {| config := ex_config; last_history_snapshot := None;
     accumulated_history := []; purchase_history := [] |}.

(** Four subnets: the root, two eligible ones and an excluded one; the
    price of subnet 1 varies between runs. *)
Definition ex_subnets (price1 : Q) : list Subnet :=
  [ {| netuid := 0; subnet_name := "root"; symbol := "r"; price := Some 1%Q;
       tao_in_emission := 100%Q |};
    {| netuid := 1; subnet_name := "alpha"; symbol := "a"; price := Some price1;
       tao_in_emission := 4%Q |};
    {| netuid := 2; subnet_name := "beta"; symbol := "b"; price := Some 4%Q;
       tao_in_emission := 6%Q |};
    {| netuid := 3; subnet_name := "gamma"; symbol := "c"; price := Some 1%Q;
       tao_in_emission := 50%Q |} ].

(** One position of 10 on subnet 1. *)
Definition ex_stakes : list StakeInfo :=
  [ {| si_netuid := 1; si_hotkey_ss58 := "validator"; si_stake := Some 10%Q |} ].

(** A world in which every call succeeds, at the given block height, price
    of subnet 1 and time. *)
Definition ex_world (current_block : Z) (price1 : Q) (time : Q) : World :=
  {| w_connect := λ _ _, Verified;
     w_current_block := Returned current_block;
     w_all_subnets := Returned (ex_subnets price1);
     w_stake_for_coldkey := Returned ex_stakes;
     w_stake_for_coldkey_after := Returned ex_stakes;
     w_balance := Returned 100%Q;
     w_add_stake := Returned tt;
     w_unstake := Returned tt;
     w_wait_for_block := Returned tt;
     w_post := None;
     w_time := time |}.

Definition ex_sub : handle := {| h_endpoint := "finney"; h_attempt := 1 |}.

Definition ex_message (text : string) : Message :=
  {| msg_text := text; msg_chat_id := 7 |}.

(** [subnet_info] for [ex_subnets price1]. *)
Definition ex_subnet_info (price1 : Q) : dict (Q * string) :=
  [("1", (price1, "alpha")); ("2", (4%Q, "beta")); ("3", (1%Q, "gamma"))].

(** The endpoints "finney" and "subvortex" never verify; "archive" does at
    once. *)
Definition ex_failover_world : World :=
  {| w_connect := λ endpoint _,
       if bool_decide (endpoint = "archive") then Verified
       else VerifyFails (GatewayError "down");
     w_current_block := Returned 20;
     w_all_subnets := Returned (ex_subnets 2);
     w_stake_for_coldkey := Returned ex_stakes;
     w_stake_for_coldkey_after := Returned ex_stakes;
     w_balance := Returned 100%Q;
     w_add_stake := Returned tt;
     w_unstake := Returned tt;
     w_wait_for_block := Returned tt;
     w_post := None;
     w_time := 1000%Q |}.

(** The store of the examples, paused. *)
Definition ex_store_paused : St := set_config (set_paused true) ex_store.

(** A listing with a subnet other than the root whose price does not
    convert, and a gateway that answers with it. *)
Definition ex_unpriced_subnets : list Subnet :=
  [ {| netuid := 1; subnet_name := "alpha"; symbol := "a"; price := Some 2%Q;
       tao_in_emission := 4%Q |};
    {| netuid := 5; subnet_name := "eps"; symbol := "e"; price := None;
       tao_in_emission := 1%Q |} ].

Definition ex_unpriced_world : World :=
  {| w_connect := λ _ _, Verified;
     w_current_block := Returned 20;
     w_all_subnets := Returned ex_unpriced_subnets;
     w_stake_for_coldkey := Returned ex_stakes;
     w_stake_for_coldkey_after := Returned ex_stakes;
     w_balance := Returned 100%Q;
     w_add_stake := Returned tt;
     w_unstake := Returned tt;
     w_wait_for_block := Returned tt;
     w_post := None;
     w_time := 0%Q |}.

(** A gateway that accepts the stake and then fails the refresh of the
    positions. *)
Definition ex_refresh_fails_world : World :=
  {| w_connect := λ _ _, Verified;
     w_current_block := Returned 20;
     w_all_subnets := Returned (ex_subnets 2);
     w_stake_for_coldkey := Returned ex_stakes;
     w_stake_for_coldkey_after := Raised (GatewayError "down");
     w_balance := Returned 100%Q;
     w_add_stake := Returned tt;
     w_unstake := Returned tt;
     w_wait_for_block := Returned tt;
     w_post := None;
     w_time := 0%Q |}.

(** The store of the examples with the multiplier [m] for subnet [n]. *)
Definition ex_store_with (n : Z) (m : Q) : St :=
  set_config (set_preferences (<[pretty n := m]> (preferences ex_config))) ex_store.

(** The store of the examples after a first [/history] at block 20 and two
    block cycles, at blocks 30 and 31, that each staked 1 on subnet 2.  The
    cycle at block 30 also sent the digest and emptied the batch buffer. *)
Definition ex_store_staked_twice : St :=
  let st1 :=
    state_of (handle_telegram_command ex_int ex_float (ex_world 20 2 1000)
                (ex_message "/history") ex_store) in
  let st2 := state_of (process_block (ex_world 30 2 1000) ex_sub st1) in
  state_of (process_block (ex_world 31 2 1000) ex_sub st2).

(** * Part II: properties *)

(** ** Comparisons *)

Lemma Qltb_lt (x y : Q) : Qltb x y = true ↔ (x < y)%Q.
Proof.
  unfold Qltb. rewrite negb_true_iff, <- not_true_iff_false, Qle_bool_iff.
  split; [apply Qnot_le_lt | apply Qlt_not_le].
Qed.

Lemma Qltb_ge (x y : Q) : Qltb x y = false ↔ (y <= x)%Q.
Proof.
  unfold Qltb. rewrite negb_false_iff. apply Qle_bool_iff.
Qed.

Lemma Qle_bool_gt (x y : Q) : Qle_bool x y = false ↔ (y < x)%Q.
Proof.
  rewrite <- not_true_iff_false, Qle_bool_iff.
  split; [apply Qnot_le_lt | apply Qlt_not_le].
Qed.

(** ** Rounding to binary64 *)

Lemma pow2_pos e : (0 < pow2 e)%Q.
Proof. by apply Qpower_0_lt. Qed.

Lemma pow2_plus a b : (pow2 (a + b) == pow2 a * pow2 b)%Q.
Proof. by apply Qpower_plus. Qed.

Lemma pow2_le a b : a ≤ b → (pow2 a <= pow2 b)%Q.
Proof. intros Hab. by apply Qpower_le_compat_l. Qed.

Lemma pow2_lt a b : a < b → (pow2 a < pow2 b)%Q.
Proof. intros Hab. by apply Qpower_lt_compat_l. Qed.

Lemma pow2_lt_inv a b : (pow2 a < pow2 b)%Q → a < b.
Proof. intros Hab. by eapply Qpower_lt_compat_l_inv. Qed.

Lemma pow2_inject e : 0 ≤ e → (pow2 e == inject_Z (2 ^ e))%Q.
Proof. intros He. unfold pow2. by rewrite Zpower_Qpower. Qed.

Lemma pow2_diff_inject (a b : Z) :
  b ≤ a → (pow2 a == inject_Z (2 ^ (a - b)) * pow2 b)%Q.
Proof.
  intros Hab. rewrite <- pow2_inject by lia. rewrite <- pow2_plus.
  by replace (a - b + b) with a by lia.
Qed.

Lemma Qratio_lt_upper (X T P D N A : Q) :
  (0 < P)%Q → (0 < X)%Q → (X * D == N)%Q → (P <= D)%Q → (N < A)%Q →
  (A == T * P)%Q → (X < T)%Q.
Proof.
  intros HP HX HXD HPD HNA HA. apply Qnot_le_lt. intros HTX.
  assert (T * P <= X * P)%Q by (apply Qmult_le_compat_r; lra).
  assert (X * P <= X * D)%Q by (rewrite !(Qmult_comm X); apply Qmult_le_compat_r; lra).
  lra.
Qed.

Lemma Qratio_lt_lower (X T P D N A : Q) :
  (0 < P)%Q → (0 < X)%Q → (0 < T)%Q → (X * D == N)%Q → (D < P)%Q → (A <= N)%Q →
  (A == T * P)%Q → (T < X)%Q.
Proof.
  intros HP HX HT HXD HPD HNA HA. apply Qnot_le_lt. intros HTX.
  assert (X * P <= T * P)%Q by (apply Qmult_le_compat_r; lra).
  assert (X * D < X * P)%Q by (rewrite !(Qmult_comm X); apply Qmult_lt_compat_r; lra).
  lra.
Qed.

(** [Qlog2 x] is the exponent of the binade of [x]. *)
Lemma Qlog2_spec (x : Q) :
  (0 < x)%Q → (pow2 (Qlog2 x) <= x)%Q ∧ (x < pow2 (Qlog2 x + 1))%Q.
Proof.
  intros Hx. destruct x as [n d].
  assert (0 < n) as Hn by (unfold Qlt in Hx; simpl in Hx; lia).
  unfold Qlog2. simpl Qnum. simpl Qden.
  set (a := Z.log2 n). set (b := Z.log2 (Z.pos d)).
  destruct (Z.log2_spec n Hn) as [Ha1 Ha2]. fold a in Ha1, Ha2.
  destruct (Z.log2_spec (Z.pos d) eq_refl) as [Hb1 Hb2]. fold b in Hb1, Hb2.
  assert (0 ≤ a) as Ha0 by apply Z.log2_nonneg.
  assert (0 ≤ b) as Hb0 by apply Z.log2_nonneg.
  assert (n # d == inject_Z n / inject_Z (Z.pos d))%Q as Hx' by apply Qmake_Qdiv.
  assert (0 < inject_Z (Z.pos d))%Q as Hd by (by rewrite <- (Zlt_Qlt 0)).
  assert ((n # d) * inject_Z (Z.pos d) == inject_Z n)%Q as Hxd.
  { rewrite Hx'. field. lra. }
  rewrite Zle_Qle, <- !pow2_inject in Ha1 by lia.
  rewrite Zlt_Qlt, <- !pow2_inject in Ha2 by lia.
  rewrite Zle_Qle, <- !pow2_inject in Hb1 by lia.
  rewrite Zlt_Qlt, <- !pow2_inject in Hb2 by lia.
  pose proof (pow2_pos b) as Hpb. pose proof (pow2_pos (a - b - 1)) as Hpl.
  pose proof (pow2_pos (a - b + 1)) as Hpu.
  assert (pow2 (a + 1) == pow2 (a - b + 1) * pow2 b)%Q as Hup.
  { rewrite <- pow2_plus. by replace (a - b + 1 + b) with (a + 1) by lia. }
  assert (pow2 a == pow2 (a - b - 1) * pow2 (Z.succ b))%Q as Hlo.
  { rewrite <- pow2_plus. by replace (a - b - 1 + Z.succ b) with a by lia. }
  assert (n # d < pow2 (a - b + 1))%Q as Hupper
    by exact (Qratio_lt_upper _ _ _ _ _ _ Hpb Hx Hxd Hb1 Ha2 Hup).
  assert (pow2 (a - b - 1) < n # d)%Q as Hlower
    by exact (Qratio_lt_lower _ _ _ _ _ _ (pow2_pos _) Hx Hpl Hxd Hb2 Ha1 Hlo).
  destruct (Qle_bool (pow2 (a - b)) (n # d)) eqn:Hk.
  - apply Qle_bool_iff in Hk. done.
  - apply Qle_bool_gt in Hk.
    replace (a - b - 1 + 1) with (a - b) by lia. split; [lra | done].
Qed.

Lemma Qlog2_ge (x : Q) (k : Z) : (0 < x)%Q → (pow2 k <= x)%Q → k ≤ Qlog2 x.
Proof.
  intros Hx Hk. destruct (Qlog2_spec x Hx) as [_ Hu].
  assert (k < Qlog2 x + 1); [apply pow2_lt_inv; lra | lia].
Qed.

Lemma Qlog2_lt (x : Q) (k : Z) : (0 < x)%Q → (x < pow2 k)%Q → Qlog2 x < k.
Proof.
  intros Hx Hk. destruct (Qlog2_spec x Hx) as [Hl _].
  apply pow2_lt_inv; lra.
Qed.

Lemma Qlog2_mono (x y : Q) : (0 < x)%Q → (x <= y)%Q → Qlog2 x ≤ Qlog2 y.
Proof.
  intros Hx Hxy. destruct (Qlog2_spec x Hx) as [Hl _].
  apply Qlog2_ge; lra.
Qed.

Lemma Qlog2_proper (x y : Q) : (0 < x)%Q → (x == y)%Q → Qlog2 x = Qlog2 y.
Proof.
  intros Hx Hxy. assert (0 < y)%Q as Hy by lra.
  destruct (Qlog2_spec x Hx) as [Hxl Hxu]. destruct (Qlog2_spec y Hy) as [Hyl Hyu].
  assert (Qlog2 x ≤ Qlog2 y) by (apply Qlog2_ge; lra).
  assert (Qlog2 y ≤ Qlog2 x) by (apply Qlog2_ge; lra).
  lia.
Qed.

Lemma round_half_even_cases (y : Q) :
  round_half_even y = Qfloor y ∨ round_half_even y = Qfloor y + 1.
Proof.
  unfold round_half_even.
  destruct (y - inject_Z (Qfloor y) ?= 1 # 2)%Q; [destruct (Z.even _) | ..]; auto.
Qed.

Lemma round_half_even_near (y : Q) :
  (y - (1 # 2) <= inject_Z (round_half_even y))%Q ∧
  (inject_Z (round_half_even y) <= y + (1 # 2))%Q.
Proof.
  pose proof (Qfloor_le y) as Hlo. pose proof (Qlt_floor y) as Hhi.
  rewrite inject_Z_plus in Hhi. change (inject_Z 1) with 1%Q in Hhi.
  unfold round_half_even.
  destruct (y - inject_Z (Qfloor y) ?= 1 # 2)%Q eqn:Hc.
  - apply Qeq_alt in Hc.
    destruct (Z.even _); rewrite ?inject_Z_plus; change (inject_Z 1) with 1%Q; lra.
  - apply Qlt_alt in Hc. lra.
  - apply Qgt_alt in Hc. rewrite inject_Z_plus. change (inject_Z 1) with 1%Q. lra.
Qed.

Lemma round_half_even_ge (y : Q) (k : Z) :
  (inject_Z k <= y)%Q → k ≤ round_half_even y.
Proof.
  intros Hk. apply Qfloor_resp_le in Hk. rewrite Qfloor_Z in Hk.
  destruct (round_half_even_cases y); lia.
Qed.

Lemma round_half_even_le (y : Q) (k : Z) :
  (y <= inject_Z k)%Q → round_half_even y ≤ k.
Proof.
  intros Hk. pose proof (Qfloor_resp_le _ _ Hk) as Hf. rewrite Qfloor_Z in Hf.
  pose proof (Qfloor_le y) as Hlo.
  unfold round_half_even.
  destruct (y - inject_Z (Qfloor y) ?= 1 # 2)%Q eqn:Hc; [destruct (Z.even _) | ..];
    try lia.
  - apply Qeq_alt in Hc. apply Z.le_succ_l. rewrite Zlt_Qlt. lra.
  - apply Qgt_alt in Hc. apply Z.le_succ_l. rewrite Zlt_Qlt. lra.
Qed.

Lemma round_half_even_Z (k : Z) : round_half_even (inject_Z k) = k.
Proof.
  apply Z.le_antisymm; [apply round_half_even_le | apply round_half_even_ge]; lra.
Qed.

Lemma round_half_even_within (z : Q) (N : Z) :
  (inject_Z N - (1 # 2) < z)%Q → (z < inject_Z N + (1 # 2))%Q →
  round_half_even z = N.
Proof.
  intros Hlo Hhi. destruct (round_half_even_near z) as [Hrl Hrh].
  assert (inject_Z (N - 1) == inject_Z N - 1)%Q as Hpred
    by (unfold Qeq; simpl; lia).
  assert (N - 1 < round_half_even z) by (rewrite Zlt_Qlt; lra).
  assert (round_half_even z < N + 1).
  { rewrite Zlt_Qlt, inject_Z_plus. change (inject_Z 1) with 1%Q. lra. }
  lia.
Qed.

Lemma round_half_even_proper (x y : Q) :
  (x == y)%Q → round_half_even x = round_half_even y.
Proof.
  intros Hxy. unfold round_half_even.
  rewrite <- (Qfloor_comp x y Hxy).
  assert (x - inject_Z (Qfloor x) == y - inject_Z (Qfloor x))%Q as Hd by lra.
  by rewrite (Qcompare_comp _ _ Hd (1 # 2)%Q (1 # 2)%Q (Qeq_refl _)).
Qed.

Lemma Qabs_pos_eq (x : Q) : (0 < x)%Q → Qabs x = x.
Proof.
  destruct x as [n d]. unfold Qlt. simpl. intros Hn.
  unfold Qabs. by rewrite Z.abs_eq by lia.
Qed.

Lemma Qabs_nonzero (x : Q) : ¬ (x == 0)%Q → (0 < Qabs x)%Q.
Proof.
  destruct x as [n d]. unfold Qeq, Qlt, Qabs. simpl. lia.
Qed.

Lemma ulp_exponent_pos (x : Q) :
  (0 < x)%Q → ulp_exponent x = Z.max (Qlog2 x - 52) (-1074).
Proof. intros Hx. unfold ulp_exponent. by rewrite Qabs_pos_eq. Qed.

Lemma ulp_exponent_mono (x y : Q) :
  (0 < x)%Q → (x <= y)%Q → ulp_exponent x ≤ ulp_exponent y.
Proof.
  intros Hx Hxy. rewrite !ulp_exponent_pos by lra.
  pose proof (Qlog2_mono x y Hx Hxy). lia.
Qed.

Lemma round64_zero (x : Q) : (x == 0)%Q → round64 x = 0%Q.
Proof.
  intros Hx. unfold round64. apply Qeq_bool_iff in Hx. by rewrite Hx.
Qed.

Lemma round64_unfold (x : Q) :
  ¬ (x == 0)%Q →
  (round64 x ==
   inject_Z (round_half_even (x / pow2 (ulp_exponent x))) * pow2 (ulp_exponent x))%Q.
Proof.
  intros Hx. unfold round64.
  destruct (Qeq_bool x 0) eqn:H0; [by apply Qeq_bool_iff in H0 |].
  apply Qred_correct.
Qed.

Lemma round64_canonical (x q : Q) : (round64 x == q)%Q → round64 x = Qred q.
Proof.
  intros Hq. rewrite <- (Qred_complete _ _ Hq). unfold round64.
  destruct (Qeq_bool x 0); [done |].
  symmetry. apply Qred_complete, Qred_correct.
Qed.

(** [round64] depends on the value of its argument only. *)
Lemma round64_proper (x y : Q) : (x == y)%Q → round64 x = round64 y.
Proof.
  intros Hxy. unfold round64.
  assert (Qeq_bool x 0 = Qeq_bool y 0) as -> by (by rewrite Hxy).
  destruct (Qeq_bool y 0) eqn:H0; [done |].
  assert (¬ (x == 0)%Q) as Hx.
  { intros Hx. rewrite Hxy in Hx. apply Qeq_bool_iff in Hx. congruence. }
  assert (ulp_exponent x = ulp_exponent y) as <-.
  { unfold ulp_exponent. rewrite (Qlog2_proper (Qabs x) (Qabs y)); [done | |].
    - by apply Qabs_nonzero.
    - by apply Qabs_wd. }
  apply Qred_complete. generalize (ulp_exponent x). intros e.
  rewrite (round_half_even_proper (x / pow2 e) (y / pow2 e));
    [reflexivity | by rewrite Hxy].
Qed.

Lemma scaled_eq (x : Q) (e : Z) : (x == x / pow2 e * pow2 e)%Q.
Proof. pose proof (pow2_pos e). field. lra. Qed.

(** The result is within half a unit in the last place of the argument. *)
Lemma round64_near (x : Q) :
  (x - pow2 (ulp_exponent x) * (1 # 2) <= round64 x)%Q ∧
  (round64 x <= x + pow2 (ulp_exponent x) * (1 # 2))%Q.
Proof.
  pose proof (pow2_pos (ulp_exponent x)) as He.
  destruct (Qeq_dec x 0) as [H0 | H0].
  - rewrite (round64_zero x H0). lra.
  - rewrite (round64_unfold x H0).
    set (e := ulp_exponent x) in *.
    destruct (round_half_even_near (x / pow2 e)) as [Hlo Hhi].
    pose proof (scaled_eq x e) as Hx.
    set (y := (x / pow2 e)%Q) in *. set (r := inject_Z (round_half_even y)) in *.
    split; nra.
Qed.

Lemma round64_nonneg (x : Q) : (0 <= x)%Q → (0 <= round64 x)%Q.
Proof.
  intros Hx. destruct (Qeq_dec x 0) as [H0 | H0].
  - rewrite (round64_zero x H0). lra.
  - rewrite (round64_unfold x H0).
    pose proof (pow2_pos (ulp_exponent x)) as He.
    apply Qmult_le_0_compat; [| lra].
    rewrite <- (Zle_Qle 0). apply round_half_even_ge.
    apply Qle_shift_div_l; [done |]. change (inject_Z 0) with 0%Q. lra.
Qed.

Lemma round64_nonpos (x : Q) : (x <= 0)%Q → (round64 x <= 0)%Q.
Proof.
  intros Hx. destruct (Qeq_dec x 0) as [H0 | H0].
  - rewrite (round64_zero x H0). lra.
  - rewrite (round64_unfold x H0).
    pose proof (pow2_pos (ulp_exponent x)) as He.
    assert (inject_Z (round_half_even (x / pow2 (ulp_exponent x))) <= 0)%Q as Hr.
    { rewrite <- (Zle_Qle _ 0). apply round_half_even_le.
      apply Qle_shift_div_r; [done |]. change (inject_Z 0) with 0%Q. lra. }
    nra.
Qed.

Lemma u64_half : (pow2 (-52) * (1 # 2) == u64)%Q.
Proof. by vm_compute. Qed.

Lemma u64_value : (u64 == 1 # 9007199254740992)%Q.
Proof. by vm_compute. Qed.

(** On normal numbers the error is relative: at most [u64] times the
    argument. *)
Lemma round64_relative (x : Q) :
  (pow2 (-1022) <= x)%Q →
  (x - u64 * x <= round64 x)%Q ∧ (round64 x <= x + u64 * x)%Q.
Proof.
  intros Hx. pose proof (pow2_pos (-1022)) as Hmin.
  assert (0 < x)%Q as Hpos by lra.
  pose proof (Qlog2_ge x (-1022) Hpos Hx) as Hlog.
  destruct (Qlog2_spec x Hpos) as [Hl _].
  destruct (round64_near x) as [Hlo Hhi].
  rewrite ulp_exponent_pos, Z.max_l in Hlo, Hhi by (done || lia).
  assert (pow2 (Qlog2 x - 52) * (1 # 2) == pow2 (Qlog2 x) * u64)%Q as Rw.
  { rewrite <- u64_half.
    replace (Qlog2 x - 52) with (Qlog2 x + -52) by lia.
    rewrite (pow2_plus (Qlog2 x)). ring. }
  rewrite Rw in Hlo, Hhi.
  assert (0 < u64)%Q as Hu by apply pow2_pos.
  split; nra.
Qed.

(** A positive double is an integer number of its units in the last place. *)
Lemma is_double_grid (d : Q) :
  (0 < d)%Q → is_double d →
  ∃ N : Z, (d == inject_Z N * pow2 (ulp_exponent d))%Q.
Proof.
  intros Hd Hdbl. exists (round_half_even (d / pow2 (ulp_exponent d))).
  rewrite <- round64_unfold by lra. by symmetry.
Qed.

(** Rounding does not pass a double: upwards ... *)
Lemma round64_le_double (y d : Q) :
  (0 < y)%Q → (y <= d)%Q → is_double d → (round64 y <= d)%Q.
Proof.
  intros Hy Hyd Hdbl.
  destruct (is_double_grid d) as [N HN]; [lra | done |].
  pose proof (ulp_exponent_mono y d Hy Hyd) as He.
  set (ey := ulp_exponent y) in *. set (ed := ulp_exponent d) in *.
  pose proof (pow2_pos ey) as Hey.
  rewrite (pow2_diff_inject ed ey He), Qmult_assoc, <- inject_Z_mult in HN.
  rewrite round64_unfold by lra. fold ey.
  rewrite HN. apply Qmult_le_compat_r; [| lra].
  rewrite <- Zle_Qle. apply round_half_even_le.
  apply Qle_shift_div_r; [done |]. lra.
Qed.

(** ... and downwards. *)
Lemma double_le_round64 (d y : Q) :
  (0 < d)%Q → (d <= y)%Q → is_double d → (d <= round64 y)%Q.
Proof.
  intros Hd Hdy Hdbl.
  destruct (is_double_grid d) as [N HN]; [lra | done |].
  assert (0 < y)%Q as Hy by lra.
  pose proof (ulp_exponent_mono d y Hd Hdy) as He.
  pose proof (pow2_pos (ulp_exponent y)) as Hey.
  rewrite round64_unfold by lra.
  destruct (decide (ulp_exponent d = ulp_exponent y)) as [Heq | Hne].
  - rewrite Heq in HN. rewrite HN. apply Qmult_le_compat_r; [| lra].
    rewrite <- Zle_Qle. apply round_half_even_ge.
    apply Qle_shift_div_l; [done |]. lra.
  - rewrite !ulp_exponent_pos in He, Hne by lra.
    assert (ulp_exponent y = Qlog2 y - 52) as Hey' by (rewrite ulp_exponent_pos by lra; lia).
    assert (Qlog2 d + 1 ≤ Qlog2 y) as Hlog by lia.
    destruct (Qlog2_spec d Hd) as [_ Hdu]. destruct (Qlog2_spec y Hy) as [Hyl _].
    pose proof (pow2_le _ _ Hlog) as Hle.
    assert (pow2 (Qlog2 y) == inject_Z (2 ^ 52) * pow2 (ulp_exponent y))%Q as Hgrid.
    { rewrite (pow2_diff_inject (Qlog2 y) (ulp_exponent y)) by lia.
      by replace (Qlog2 y - ulp_exponent y) with 52 by lia. }
    apply Qle_trans with (pow2 (Qlog2 y)); [lra |].
    rewrite Hgrid. apply Qmult_le_compat_r; [| lra].
    rewrite <- Zle_Qle. apply round_half_even_ge.
    apply Qle_shift_div_l; [done |]. lra.
Qed.

Lemma tenth_q_round : round64 (1 # 10) = tenth_q.
Proof. by vm_compute. Qed.

Lemma tenth_q_double : is_double tenth_q.
Proof. by vm_compute. Qed.

Lemma tenth_q_bounds : (1 # 10 < tenth_q)%Q ∧ (tenth_q < 1000001 # 10000000)%Q.
Proof. by vm_compute. Qed.

Lemma tenth_q_normal : (pow2 (-1022) <= tenth_q)%Q.
Proof. by vm_compute. Qed.

(** [round64] against the primitive floats, on quotients and sums that are
    not doubles: normal and subnormal ones, and ties. *)
Example round64_agrees_with_binary64 :
  Q_of_float (1 / 3)%float = Some (round64 (1 # 3)) ∧
  Q_of_float (-5 / 7)%float = Some (round64 (- (5 # 7))) ∧
  Q_of_float (0x1p-1073 / 3)%float = Some (round64 (pow2 (-1073) / 3)) ∧
  Q_of_float (0x1p-1074 / 3)%float = Some (round64 (pow2 (-1074) / 3)) ∧
  Q_of_float (0x1p+53 + 1)%float = Some (round64 (pow2 53 + 1)) ∧
  Q_of_float (0x1.0000000000001p+53 + 1)%float = Some (round64 (pow2 53 + 3)) ∧
  Q_of_float (0x1p-1022 / 0x1p+53 * 3)%float
    = Some (round64 (round64 (pow2 (-1075)) * 3)).
Proof. vm_compute. by split_and!. Qed.

(** ** The allocation engine *)

Section Selection.

Context (exclude_list : list Z) (preferences : gmap string Q).

Local Abbreviation cand := (candidate exclude_list preferences).
Local Abbreviation inv := (select_inv exclude_list preferences).
Local Abbreviation step := (select_step exclude_list preferences).

(** A candidate has one effective score. *)
Lemma candidate_score_unique s e1 e2 : cand s e1 → cand s e2 → e1 = e2.
Proof.
  intros (_ & _ & p1 & Hp1 & _ & ->) (_ & _ & p2 & Hp2 & _ & ->).
  congruence.
Qed.

(** The running best score is never negative. *)
Lemma select_inv_nonneg seen acc : inv seen acc → (0 <= acc.2)%Q.
Proof.
  unfold select_inv. destruct acc as [[s|] sc]; simpl.
  - intros (i & _ & _ & Hpos & _). lra.
  - intros [-> _]. lra.
Qed.

(** A subnet the loop skips is not a candidate, so the invariant extends
    over it unchanged. *)
Lemma select_inv_skip seen acc s :
  (∀ e, ¬ cand s e) → inv seen acc → inv (seen ++ [s]) acc.
Proof.
  intros Hskip. unfold select_inv.
  destruct acc as [[b|] sc]; simpl.
  - intros (i & Hi & Hc & Hpos & Hmax).
    exists i. split_and!; [by apply lookup_app_l_Some | done | done |].
    intros j s' e' Hj Hc'.
    apply lookup_snoc_Some in Hj as [[_ Hj] | [_ ->]];
      [by eapply Hmax | by destruct (Hskip e')].
  - intros [-> Hmax]. split; [done |].
    intros j s' e' Hj Hc'.
    apply lookup_snoc_Some in Hj as [[_ Hj] | [_ ->]];
      [by eapply Hmax | by destruct (Hskip e')].
Qed.

Lemma select_step_inv seen acc s : inv seen acc → inv (seen ++ [s]) (step acc s).
Proof.
  intros Hinv. unfold select_step.
  destruct (bool_decide (netuid s = 0)) eqn:Hzero; simpl.
  { apply bool_decide_eq_true in Hzero.
    apply select_inv_skip; [|done]. intros e (Hne & _). done. }
  destruct (bool_decide (netuid s ∈ exclude_list)) eqn:Hexcl; simpl.
  { apply bool_decide_eq_true in Hexcl.
    apply select_inv_skip; [|done]. intros e (_ & Hne & _). done. }
  apply bool_decide_eq_false in Hzero, Hexcl.
  destruct (price s) as [p|] eqn:Hprice; last first.
  { apply select_inv_skip; [|done]. intros e (_ & _ & p & Hp & _). congruence. }
  destruct (Qle_bool p 0) eqn:Hp.
  { apply Qle_bool_iff in Hp.
    apply select_inv_skip; [|done].
    intros e (_ & _ & p' & Hp' & Hpos & _).
    assert (p' = p) as -> by congruence. lra. }
  apply Qle_bool_gt in Hp.
  assert (cand s (effective_score preferences s p)) as Hcand.
  { split_and!; [done | done | by exists p]. }
  fold (effective_score preferences s p).
  pose proof (select_inv_nonneg _ _ Hinv) as Hnonneg.
  destruct (Qltb acc.2 (effective_score preferences s p)) eqn:Hlt.
  - (* the new subnet becomes the best *)
    apply Qltb_lt in Hlt. unfold select_inv; simpl.
    exists (length seen). split_and!.
    + by apply list_lookup_middle.
    + done.
    + lra.
    + intros j s' e' Hj Hc'.
      apply lookup_snoc_Some in Hj as [[Hlen Hj] | [-> ->]].
      * assert (e' <= acc.2)%Q as Hle.
        { revert Hinv. unfold select_inv.
          destruct acc as [[b|] sc]; simpl.
          - intros (i & _ & _ & _ & Hmax). by eapply Hmax.
          - intros [-> Hmax]. by eapply Hmax. }
        split; [lra | intros _; lra].
      * rewrite (candidate_score_unique _ _ _ Hc' Hcand).
        split; [lra | lia].
  - (* the best is kept *)
    apply Qltb_ge in Hlt. revert Hinv Hlt Hnonneg. unfold select_inv.
    destruct acc as [[b|] sc]; simpl.
    + intros (i & Hi & Hc & Hpos & Hmax) Hlt _.
      exists i. split_and!; [by apply lookup_app_l_Some | done | done |].
      intros j s' e' Hj Hc'.
      apply lookup_snoc_Some in Hj as [[_ Hj] | [-> ->]]; [by eapply Hmax |].
      rewrite (candidate_score_unique _ _ _ Hc' Hcand).
      split; [done |]. apply lookup_lt_Some in Hi. lia.
    + intros [-> Hmax] Hlt _. split; [done |].
      intros j s' e' Hj Hc'.
      apply lookup_snoc_Some in Hj as [[_ Hj] | [-> ->]]; [by eapply Hmax |].
      by rewrite (candidate_score_unique _ _ _ Hc' Hcand).
Qed.

Lemma select_fold_inv rest : ∀ seen acc,
  inv seen acc → inv (seen ++ rest) (fold_left step rest acc).
Proof.
  induction rest as [|s rest IH]; intros seen acc Hinv; simpl.
  - by rewrite app_nil_r.
  - rewrite (assoc_L (++) seen [s] rest : seen ++ s :: rest = (seen ++ [s]) ++ rest).
    apply IH. by apply select_step_inv.
Qed.

Lemma select_best_subnet_inv subnets :
  inv subnets (select_best_subnet subnets exclude_list preferences).
Proof.
  apply (select_fold_inv subnets [] (None, 0%Q)).
  split; [done |]. intros j s' e' Hj. by rewrite lookup_nil in Hj.
Qed.

(** A subnet that is selected has a positive score. *)
Lemma select_best_subnet_positive subnets s sc :
  select_best_subnet subnets exclude_list preferences = (Some s, sc) →
  Qltb 0 sc = true.
Proof.
  intros Heq. pose proof (select_best_subnet_inv subnets) as Hinv.
  rewrite Heq in Hinv. destruct Hinv as (i & _ & _ & Hpos & _).
  by apply Qltb_lt.
Qed.

(** The subnet at position [i] that is a candidate with a positive score,
    no candidate scoring more and every earlier candidate scoring less, is
    the one selected. *)
Lemma select_best_subnet_first_max (subnets : list Subnet) (i : nat) s sc :
  subnets !! i = Some s →
  cand s sc →
  (0 < sc)%Q →
  (∀ (j : nat) s' e', subnets !! j = Some s' →
     cand s' e' →
     (e' <= sc)%Q ∧ ((j < i)%nat → (e' < sc)%Q)) →
  select_best_subnet subnets exclude_list preferences = (Some s, sc).
Proof.
  intros Hi Hc Hpos Hmax.
  pose proof (select_best_subnet_inv subnets) as Hinv.
  destruct (select_best_subnet subnets exclude_list preferences)
    as [[s0|] sc0] eqn:Heq; unfold select_inv in Hinv; simpl in Hinv.
  - destruct Hinv as (i0 & Hi0 & Hc0 & Hpos0 & Hmax0).
    destruct (Hmax _ _ _ Hi0 Hc0) as [Hle Hlt].
    destruct (Hmax0 _ _ _ Hi Hc) as [Hle0 Hlt0].
    assert (i0 = i) as ->.
    { destruct (lt_eq_lt_dec i0 i) as [[Hlt' | ->] | Hlt']; [| done |].
      - specialize (Hlt Hlt'). lra.
      - specialize (Hlt0 Hlt'). lra. }
    assert (s0 = s) as -> by congruence.
    by rewrite (candidate_score_unique _ _ _ Hc0 Hc).
  - destruct Hinv as [_ Hnone]. specialize (Hnone _ _ _ Hi Hc). lra.
Qed.

(** When some candidate has a positive score, a subnet is selected. *)
Lemma select_best_subnet_some (subnets : list Subnet) s' e' :
  s' ∈ subnets → cand s' e' → (0 < e')%Q →
  ∃ s sc, select_best_subnet subnets exclude_list preferences = (Some s, sc).
Proof.
  intros [j Hj]%list_elem_of_lookup Hc Hpos.
  pose proof (select_best_subnet_inv subnets) as Hinv.
  destruct (select_best_subnet subnets exclude_list preferences)
    as [[s|] sc] eqn:Heq; [by eauto |].
  unfold select_inv in Hinv. simpl in Hinv.
  destruct Hinv as [_ Hnone]. specialize (Hnone _ _ _ Hj Hc). lra.
Qed.

End Selection.

(** C1.  [select_best_subnet] returns a subnet only if that subnet is in the
    input, has an id other than 0, is not excluded, has a price above 0, and
    comes paired with its own effective score, which is above 0 and at
    least that of every other candidate; candidates earlier in the input
    have a strictly smaller score.  Conversely the candidate with a positive
    score that no candidate exceeds and no earlier candidate reaches is the
    one returned, so the first of several equal ones is kept; and a subnet
    is returned whenever some candidate has a positive score.  When no
    candidate has a positive effective score the result is [(None, 0)]. *)
Theorem select_best_subnet_spec (subnets : list Subnet) (exclude_list : list Z)
    (preferences : gmap string Q) :
  (∀ s sc, select_best_subnet subnets exclude_list preferences = (Some s, sc) →
     ∃ i : nat, subnets !! i = Some s ∧
       candidate exclude_list preferences s sc ∧ (0 < sc)%Q ∧
       ∀ (j : nat) s' e', subnets !! j = Some s' →
         candidate exclude_list preferences s' e' →
         (e' <= sc)%Q ∧ ((j < i)%nat → (e' < sc)%Q)) ∧
  ((∀ s' e', s' ∈ subnets → candidate exclude_list preferences s' e' →
      ¬ (0 < e')%Q) →
   select_best_subnet subnets exclude_list preferences = (None, 0%Q)) ∧
  (∀ (i : nat) s sc, subnets !! i = Some s →
     candidate exclude_list preferences s sc → (0 < sc)%Q →
     (∀ (j : nat) s' e', subnets !! j = Some s' →
        candidate exclude_list preferences s' e' →
        (e' <= sc)%Q ∧ ((j < i)%nat → (e' < sc)%Q)) →
     select_best_subnet subnets exclude_list preferences = (Some s, sc)) ∧
  (∀ s' e', s' ∈ subnets → candidate exclude_list preferences s' e' →
     (0 < e')%Q →
     ∃ s sc, select_best_subnet subnets exclude_list preferences = (Some s, sc)).
Proof.
  pose proof (select_best_subnet_inv exclude_list preferences subnets) as Hinv.
  split_and!.
  - intros s sc Heq. by rewrite Heq in Hinv.
  - intros Hnone.
    destruct (select_best_subnet subnets exclude_list preferences)
      as [[s|] sc] eqn:Heq.
    + destruct Hinv as (i & Hi & Hc & Hpos & _).
      destruct (Hnone s sc); [by eapply list_elem_of_lookup_2 | done | done].
    + destruct Hinv as [Hsc _]. simpl in Hsc. by rewrite Hsc.
  - intros i s sc. apply select_best_subnet_first_max.
  - intros s' e'. apply select_best_subnet_some.
Qed.

(** The selection among two subnets of equal score, in both orders, among
    the example subnets, and among none: the first of the equal ones, the
    subnet 2 with its score 6 / 4 * 2, and no subnet. *)
Lemma select_best_subnet_spec_witness :
  let a := {| netuid := 1; subnet_name := "alpha"; symbol := "a";
              price := Some 2%Q; tao_in_emission := 4%Q |} in
  let b := {| netuid := 2; subnet_name := "beta"; symbol := "b";
              price := Some 2%Q; tao_in_emission := 4%Q |} in
  select_best_subnet [a; b] [] ∅ = (Some a, (4 / 2 * 1)%Q) ∧
  select_best_subnet [b; a] [] ∅ = (Some b, (4 / 2 * 1)%Q) ∧
  select_best_subnet (ex_subnets 2) [3] {[ "2" := 2%Q ]} =
    (Some {| netuid := 2; subnet_name := "beta"; symbol := "b";
             price := Some 4%Q; tao_in_emission := 6%Q |}, (6 / 4 * 2)%Q) ∧
  select_best_subnet [] [3] {[ "2" := 2%Q ]} = (None, 0%Q).
Proof.
  intros a b.
  assert (∀ excl prefs s p e,
            netuid s ≠ 0 → netuid s ∉ excl → price s = Some p → (0 < p)%Q →
            e = effective_score prefs s p → candidate excl prefs s e) as Hcand.
  { intros excl prefs s p e Hroot Hexcl Hprice Hp ->.
    split_and!; [done | done |]. by exists p. }
  split_and!.
  - destruct (select_best_subnet_spec [a; b] [] ∅) as (_ & _ & Hfirst & _).
    apply (Hfirst 0%nat a); [reflexivity | | reflexivity |].
    + apply (Hcand [] ∅ a 2%Q); [done | by apply (bool_decide_unpack _) | done | reflexivity | reflexivity].
    + intros [|[|j]] s' e'; simpl; intros [= <-] Hc; try done;
        destruct Hc as (_ & _ & p & Hprice & _ & ->);
        vm_compute in Hprice; injection Hprice as <-;
        (split; [by vm_compute | lia]).
  - destruct (select_best_subnet_spec [b; a] [] ∅) as (_ & _ & Hfirst & _).
    apply (Hfirst 0%nat b); [reflexivity | | reflexivity |].
    + apply (Hcand [] ∅ b 2%Q); [done | by apply (bool_decide_unpack _) | done | reflexivity | reflexivity].
    + intros [|[|j]] s' e'; simpl; intros [= <-] Hc; try done;
        destruct Hc as (_ & _ & p & Hprice & _ & ->);
        vm_compute in Hprice; injection Hprice as <-;
        (split; [by vm_compute | lia]).
  - destruct (select_best_subnet_spec (ex_subnets 2) [3] {[ "2" := 2%Q ]})
      as (_ & _ & Hfirst & _).
    apply (Hfirst 2%nat); [reflexivity | | reflexivity |].
    + apply (Hcand [3] _ _ 4%Q); [done | by apply (bool_decide_unpack _) | done | reflexivity | reflexivity].
    + intros [|[|[|[|j]]]] s' e'; simpl; intros [= <-] Hc; try done.
      * by destruct Hc as (Hroot & _).
      * destruct Hc as (_ & _ & p & Hprice & _ & ->).
        vm_compute in Hprice. injection Hprice as <-.
        split; [by vm_compute | intros _; by vm_compute].
      * destruct Hc as (_ & _ & p & Hprice & _ & ->).
        vm_compute in Hprice. injection Hprice as <-.
        split; [by vm_compute | lia].
      * destruct Hc as (_ & Hexcl & _). destruct Hexcl. by apply (bool_decide_unpack _).
  - destruct (select_best_subnet_spec [] [3] {[ "2" := 2%Q ]}) as (_ & Hnone & _).
    apply Hnone. intros s' e' Hin. by apply elem_of_nil in Hin.
Defined.

(** Among the example subnets, subnet 2 wins with 6 / 4 * 2 over subnet 1
    with 4 / 2; the root and the excluded subnet 3 are not considered. *)
Example select_example :
  select_best_subnet (ex_subnets 2) [3] {[ "2" := 2%Q ]} =
  (Some {| netuid := 2; subnet_name := "beta"; symbol := "b"; price := Some 4%Q;
           tao_in_emission := 6%Q |}, (6 / 4 * 2)%Q).
Proof. reflexivity. Qed.

(** Of two subnets with the same score, the one listed first is selected. *)
Example select_first_of_equals :
  let a := {| netuid := 1; subnet_name := "alpha"; symbol := "a";
              price := Some 2%Q; tao_in_emission := 4%Q |} in
  let b := {| netuid := 2; subnet_name := "beta"; symbol := "b";
              price := Some 2%Q; tao_in_emission := 4%Q |} in
  select_best_subnet [a; b] [] ∅ = (Some a, (4 / 2 * 1)%Q) ∧
  select_best_subnet [b; a] [] ∅ = (Some b, (4 / 2 * 1)%Q).
Proof. by split. Qed.

(** ** The endpoint selector *)

Section Selector.
Context (w : World).

Lemma opens_app t1 t2 : opens (t1 ++ t2) = opens t1 ++ opens t2.
Proof. apply omap_app. Qed.

Lemma closes_failed_app t1 t2 :
  closes_failed w t1 → closes_failed w t2 → closes_failed w (t1 ++ t2).
Proof.
  intros H1 H2 sub [Hin | Hin]%elem_of_app; [by apply H1 | by apply H2].
Qed.

Local Ltac solve_closes :=
  let sub := fresh "sub" in
  let Hin := fresh "Hin" in
  intros sub Hin; rewrite ?elem_of_cons, elem_of_nil in Hin;
  destruct_or!; simplify_eq; simpl; eauto.

(** One endpoint under the retry policy: either some attempt [k] of the
    three verifies, after [k - 1] failures, and the session it opened is
    returned; or all three fail and the error of the third is raised,
    wrapped by the retry policy. *)
Lemma get_and_test_subtensor_cases endpoint :
  match get_and_test_subtensor w endpoint with
  | (t, Returned sub) =>
      ∃ k, (1 ≤ k ≤ max_attempts)%nat ∧
        sub = {| h_endpoint := endpoint; h_attempt := k |} ∧
        w_connect w endpoint k = Verified ∧
        (∀ j, (1 ≤ j < k)%nat → w_connect w endpoint j ≠ Verified) ∧
        opens t = attempts_upto endpoint k ∧
        closes_failed w t
  | (t, Raised e) =>
      endpoint_fails w endpoint ∧
      opens t = attempts_upto endpoint max_attempts ∧
      closes_failed w t ∧
      ∃ e3, attempt_error (w_connect w endpoint 3) = Some e3 ∧ e = RetryError e3
  end.
Proof.
  unfold get_and_test_subtensor, endpoint_fails, max_attempts, attempt_once,
    closes_failed.
  simpl.
  assert (∀ P : nat → Prop, P 1%nat → P 2%nat → P 3%nat →
            ∀ k, (1 ≤ k ≤ 3)%nat → P k) as Hthree.
  { intros P ? ? ? k Hk.
    assert (k = 1 ∨ k = 2 ∨ k = 3)%nat as [-> | [-> | ->]] by lia; done. }
  destruct (w_connect w endpoint 1) eqn:H1;
    [destruct (w_connect w endpoint 2) eqn:H2;
       [destruct (w_connect w endpoint 3) eqn:H3 .. |] ..| ]; simpl.
  all: try (split_and!;
      [ apply Hthree; congruence | reflexivity | solve_closes
      | eexists; split; reflexivity ]).
  all: first
    [ exists 3%nat; split; [lia |]; split_and!;
      [ reflexivity | done
      | intros j Hj; assert (j = 1 ∨ j = 2)%nat as [-> | ->] by lia; congruence
      | reflexivity | solve_closes ]
    | exists 2%nat; split; [lia |]; split_and!;
      [ reflexivity | done
      | intros j Hj; assert (j = 1)%nat as -> by lia; congruence
      | reflexivity | solve_closes ]
    | exists 1%nat; split; [lia |]; split_and!;
      [ reflexivity | done
      | intros j Hj; lia
      | reflexivity | solve_closes ] ].
Qed.

(** The loop over the endpoints: it stops at the first endpoint that
    verifies, having used up all attempts on those before it; when none
    verifies, it raises with the error of the last endpoint, or with the
    error it was started with when there is no endpoint at all. *)
Lemma try_endpoints_cases endpoints : ∀ last_error,
  match try_endpoints w endpoints last_error with
  | (t, Returned sub) =>
      ∃ pre post k, endpoints = pre ++ h_endpoint sub :: post ∧
        Forall (endpoint_fails w) pre ∧
        (1 ≤ k ≤ max_attempts)%nat ∧ h_attempt sub = k ∧
        w_connect w (h_endpoint sub) k = Verified ∧
        (∀ j, (1 ≤ j < k)%nat → w_connect w (h_endpoint sub) j ≠ Verified) ∧
        opens t = (pre ≫= λ ep, attempts_upto ep max_attempts) ++
                  attempts_upto (h_endpoint sub) k ∧
        closes_failed w t
  | (t, Raised e) =>
      Forall (endpoint_fails w) endpoints ∧
      opens t = (endpoints ≫= λ ep, attempts_upto ep max_attempts) ∧
      closes_failed w t ∧
      match last endpoints with
      | Some ep =>
          ∃ e3, attempt_error (w_connect w ep 3) = Some e3 ∧
                e = ConnectFailed (RetryError e3)
      | None =>
          e = match last_error with
              | Some e' => ConnectFailed e'
              | None => ConnectFailedNone
              end
      end
  end.
Proof.
  induction endpoints as [|ep rest IH]; intros last_error; simpl.
  { split_and!; [done | done | | done]. intros sub Hin. by apply elem_of_nil in Hin. }
  pose proof (get_and_test_subtensor_cases ep) as Hep.
  destruct (get_and_test_subtensor w ep) as [t [sub | e]].
  - destruct Hep as (k & Hk & -> & Hver & Hbefore & Hopens & Hclosed).
    exists [], rest, k. simpl. split_and!; (done || lia).
  - destruct Hep as (Hfails & Hopens & Hclosed & e3 & He3 & ->).
    specialize (IH (Some (RetryError e3))).
    destruct (try_endpoints w rest (Some (RetryError e3))) as [t' [sub | e']].
    + destruct IH as (pre & post & k & -> & Hpre & Hk & Hatt & Hver & Hbefore
                      & Hopens' & Hclosed').
      exists (ep :: pre), post, k. simpl.
      split_and!; try (done || lia).
      * by constructor.
      * rewrite opens_app, Hopens, Hopens'. by rewrite (assoc_L (++)).
      * by apply closes_failed_app.
    + destruct IH as (Hrest & Hopens' & Hclosed' & Hlast).
      split_and!.
      * by constructor.
      * by rewrite opens_app, Hopens, Hopens'.
      * by apply closes_failed_app.
      * destruct rest as [|ep' rest']; [simpl in *; by eauto |].
        change (last (ep :: ep' :: rest')) with (last (ep' :: rest')).
        destruct (last (ep' :: rest')) eqn:Hl; [done |].
        by apply last_None in Hl.
Qed.

End Selector.

(** C10.  [get_working_subtensor] tries the endpoints in the order of
    [ENDPOINTS], with at most three attempts on each.  When it returns a
    session, that session was opened on the first endpoint that has a
    verifying attempt, at its first verifying attempt; every endpoint before
    it failed all its attempts; the successful attempt is the last one made,
    and the session is returned open.  When it raises, every attempt on every
    endpoint was made and failed, and the exception carries the error of the
    last attempt on the last endpoint.  It returns a session as soon as some
    endpoint has a verifying attempt. *)
Theorem get_working_subtensor_failover (w : World) :
  (∀ t sub, get_working_subtensor w = (t, Returned sub) →
     ∃ pre post k, ENDPOINTS = pre ++ h_endpoint sub :: post ∧
       Forall (endpoint_fails w) pre ∧
       (1 ≤ k ≤ max_attempts)%nat ∧ h_attempt sub = k ∧
       w_connect w (h_endpoint sub) k = Verified ∧
       (∀ j, (1 ≤ j < k)%nat → w_connect w (h_endpoint sub) j ≠ Verified) ∧
       opens t = (pre ≫= λ ep, attempts_upto ep max_attempts) ++
                 attempts_upto (h_endpoint sub) k ∧
       EClose sub ∉ t) ∧
  (∀ t e, get_working_subtensor w = (t, Raised e) →
     Forall (endpoint_fails w) ENDPOINTS ∧
     opens t = (ENDPOINTS ≫= λ ep, attempts_upto ep max_attempts) ∧
     ∃ e3, attempt_error (w_connect w "archive" 3) = Some e3 ∧
           e = ConnectFailed (RetryError e3)) ∧
  ((∃ ep k, ep ∈ ENDPOINTS ∧ (1 ≤ k ≤ max_attempts)%nat ∧
            w_connect w ep k = Verified) →
   ∃ t sub, get_working_subtensor w = (t, Returned sub)).
Proof.
  pose proof (try_endpoints_cases w ENDPOINTS None) as Hcases.
  fold (get_working_subtensor w) in Hcases.
  split_and!.
  - intros t sub Heq. rewrite Heq in Hcases.
    destruct Hcases as (pre & post & k & Hsplit & Hpre & Hk & Hatt & Hver
                        & Hbefore & Hopens & Hclosed).
    exists pre, post, k. split_and!; try (done || lia).
    intros [e He]%Hclosed. rewrite Hatt in He. congruence.
  - intros t e Heq. rewrite Heq in Hcases.
    destruct Hcases as (Hall & Hopens & _ & Hlast). by split_and!.
  - intros (ep & k & Hep & Hk & Hver).
    destruct (get_working_subtensor w) as [t [sub | e]]; [by eauto |].
    destruct Hcases as (Hall & _).
    rewrite Forall_forall in Hall. by destruct (Hall ep Hep k Hk).
Qed.

(** The failover of the example world, where only "archive" verifies. *)
Lemma get_working_subtensor_failover_witness :
  ∃ t, get_working_subtensor ex_failover_world =
       (t, Returned {| h_endpoint := "archive"; h_attempt := 1 |}) ∧
       opens t = attempts_upto "finney" 3 ++ attempts_upto "subvortex" 3
                 ++ attempts_upto "archive" 1.
Proof.
  destruct (get_working_subtensor_failover ex_failover_world)
    as (_ & _ & Hexists).
  destruct Hexists as (t & sub & Hrun).
  { exists "archive", 1%nat. unfold max_attempts.
    split_and!; [| lia | lia | reflexivity].
    by apply (bool_decide_unpack _). }
  exists t. assert (sub = {| h_endpoint := "archive"; h_attempt := 1 |}) as ->.
  { vm_compute in Hrun. congruence. }
  split; [exact Hrun |].
  vm_compute in Hrun. injection Hrun as <-. reflexivity.
Defined.

(** Two endpoints that never verify are each tried three times, their
    sessions closed; the third endpoint verifies at once and nothing is
    tried after it. *)
Example failover_to_third_endpoint :
  get_working_subtensor ex_failover_world =
  ([EOpen "finney" 1; EClose {| h_endpoint := "finney"; h_attempt := 1 |};
    EBackoff;
    EOpen "finney" 2; EClose {| h_endpoint := "finney"; h_attempt := 2 |};
    EBackoff;
    EOpen "finney" 3; EClose {| h_endpoint := "finney"; h_attempt := 3 |};
    EOpen "subvortex" 1; EClose {| h_endpoint := "subvortex"; h_attempt := 1 |};
    EBackoff;
    EOpen "subvortex" 2; EClose {| h_endpoint := "subvortex"; h_attempt := 2 |};
    EBackoff;
    EOpen "subvortex" 3; EClose {| h_endpoint := "subvortex"; h_attempt := 3 |};
    EOpen "archive" 1],
   Returned {| h_endpoint := "archive"; h_attempt := 1 |}).
Proof. reflexivity. Qed.

(** ** Reasoning about computations *)

Lemma send_telegram_message_run w text chat_id st :
  send_telegram_message w text chat_id st =
  ([send_event w (config st) text chat_id], st, Returned tt).
Proof.
  unfold send_telegram_message, send_event, bind, get, emit. simpl.
  destruct (bool_decide (telegram_token (config st) = "") || _); [done |].
  by destruct (w_post w).
Qed.

(** What [bind] does, by the outcome of its first part. *)
Lemma bind_returned {A B} (m : M A) (f : A → M B) st t st' a :
  m st = (t, st', Returned a) →
  bind m f st = (t ++ trace_of (f a st'), state_of (f a st'), result_of (f a st')).
Proof.
  intros Hm. unfold bind. rewrite Hm.
  by destruct (f a st') as [[t' st''] r].
Qed.

Lemma bind_raised {A B} (m : M A) (f : A → M B) st t st' e :
  m st = (t, st', Raised e) → bind m f st = (t, st', Raised e).
Proof. intros Hm. unfold bind. by rewrite Hm. Qed.

Section Always.

Context (R : St → list event → St → Prop) `{!Sequential R}.

Lemma always_ret {A} (a : A) : always R (ret a).
Proof. intros st. apply seq_skip. Qed.

Lemma always_raise {A} e : always R (@raise A e).
Proof. intros st. apply seq_skip. Qed.

Lemma always_get : always R get.
Proof. intros st. apply seq_skip. Qed.

Lemma always_await {A} (r : outcome A) : always R (await r).
Proof. destruct r; [apply always_ret | apply always_raise]. Qed.

Lemma always_bind {A B} (m : M A) (f : A → M B) :
  always R m → (∀ a, always R (f a)) → always R (bind m f).
Proof.
  intros Hm Hf st. specialize (Hm st).
  destruct (m st) as [[t st'] [a | e]] eqn:Heq.
  - rewrite (bind_returned _ _ _ _ _ _ Heq). simpl.
    eapply seq_then; [exact Hm | apply Hf].
  - by rewrite (bind_raised _ _ _ _ _ _ Heq).
Qed.

Lemma always_try {A} (m : M A) : always R m → always R (try_ m).
Proof.
  intros Hm st. specialize (Hm st). unfold try_.
  by destruct (m st) as [[t st'] r].
Qed.

Lemma always_emit ev : (∀ st, R st [ev] st) → always R (emit ev).
Proof. intros Hev st. apply Hev. Qed.

Lemma always_modify f : (∀ st, R st [] (f st)) → always R (modify f).
Proof. intros Hf st. apply Hf. Qed.

Lemma always_send w text chat_id :
  (∀ st c o, R st [ESendTelegram c text o] st) →
  always R (send_telegram_message w text chat_id).
Proof.
  intros Hsend st. rewrite send_telegram_message_run. apply Hsend.
Qed.

End Always.

Lemma returns_only_bind {A B} (P : B → Prop) (m : M A) (f : A → M B) :
  (∀ a, returns_only P (f a)) → returns_only P (bind m f).
Proof.
  intros Hf st b. destruct (m st) as [[t st'] [a | e]] eqn:Heq.
  - rewrite (bind_returned _ _ _ _ _ _ Heq). apply Hf.
  - by rewrite (bind_raised _ _ _ _ _ _ Heq).
Qed.

Lemma returns_only_ret {A} (P : A → Prop) a : P a → returns_only P (ret a).
Proof. intros HP st a'. simpl. congruence. Qed.

(** Peels one construct off a goal [always R m]. *)
Ltac always_step :=
  lazymatch goal with
  | |- always _ (bind _ _) => apply always_bind; [tc_solve | | intros ?]
  | |- always _ (ret _) => apply always_ret; tc_solve
  | |- always _ (raise _) => apply always_raise; tc_solve
  | |- always _ get => apply always_get; tc_solve
  | |- always _ (await _) => apply always_await; tc_solve
  | |- always _ (try_ _) => apply always_try
  | |- always _ (match ?x with _ => _ end) => destruct x
  | |- always _ _ => progress cbv zeta
  end.

(** Closes a frame condition on a single step. *)
Ltac solve_frame :=
  unfold no_commit_while_paused, no_commit, reads_only, sends_nothing;
  intros; simpl; repeat split; first [done | by left | by right].

(** ** The block cycle *)

Lemma add_stake_calls_app t1 t2 :
  add_stake_calls (t1 ++ t2) = add_stake_calls t1 ++ add_stake_calls t2.
Proof. apply omap_app. Qed.

Global Instance no_commit_sequential : Sequential no_commit.
Proof.
  split.
  - intros st. by split_and!; [| | left].
  - intros st t1 st1 t2 st2 (Hc1 & Ha1 & Hp1) (Hc2 & Ha2 & Hp2).
    split_and!.
    + by rewrite add_stake_calls_app, Hc1, Hc2.
    + congruence.
    + destruct Hp2 as [Hp2 | Hp2]; [rewrite Hp2; exact Hp1 | by right].
Qed.

Global Instance no_commit_while_paused_sequential :
  Sequential no_commit_while_paused.
Proof.
  split.
  - intros st _. split; [done | apply seq_skip].
  - intros st t1 st1 t2 st2 H1 H2 Hp.
    destruct (H1 Hp) as [Hc1 Hn1].
    destruct H2 as [Hc2 Hn2]; [by rewrite Hc1 |].
    split; [congruence | by eapply seq_then].
Qed.

(** The publisher commits nothing. *)
Lemma publish_no_commit w current_block summary :
  always no_commit (publish w current_block summary).
Proof.
  unfold publish, py_mod_is_zero.
  repeat always_step.
  - apply always_send. solve_frame.
  - apply always_modify. solve_frame.
Qed.


Lemma sent_app t1 t2 : sent (t1 ++ t2) = sent t1 ++ sent t2.
Proof. apply omap_app. Qed.

Global Instance reads_only_sequential : Sequential reads_only.
Proof.
  split.
  - intros st. by split_and!.
  - intros st t1 st1 t2 st2 (-> & Hc1 & Hs1) (-> & Hc2 & Hs2).
    split_and!; [done | |].
    + by rewrite add_stake_calls_app, Hc1, Hc2.
    + by rewrite sent_app, Hs1, Hs2.
Qed.

Global Instance sends_nothing_sequential : Sequential sends_nothing.
Proof.
  split.
  - intros st. by split_and!.
  - intros st t1 st1 t2 st2 (Hs1 & Hc1) (Hs2 & Hc2).
    split; [by rewrite sent_app, Hs1, Hs2 | congruence].
Qed.

Lemma publish_no_commit_while_paused w current_block summary :
  always no_commit_while_paused (publish w current_block summary).
Proof.
  unfold publish, py_mod_is_zero.
  repeat always_step.
  - apply always_send. solve_frame.
  - apply always_modify. solve_frame.
Qed.

Lemma allocate_no_commit_while_paused w sub stake_amount preferences
    current_block chosen_subnet best_score :
  always no_commit_while_paused
    (allocate w sub stake_amount preferences current_block chosen_subnet best_score).
Proof.
  intros st Hp. unfold allocate, bind, get. simpl. rewrite Hp. simpl.
  destruct chosen_subnet; solve_frame.
Qed.

Lemma allocate_sends_nothing w sub stake_amount preferences
    current_block chosen_subnet best_score :
  always sends_nothing
    (allocate w sub stake_amount preferences current_block chosen_subnet best_score).
Proof.
  unfold allocate, stake_on_subnet.
  repeat always_step;
    first [ apply always_emit; solve_frame
          | apply always_modify; solve_frame ].
Qed.

(** The cycle up to the display sends nothing to Telegram. *)
Lemma process_block_head_sends_nothing w sub :
  always sends_nothing (process_block_head w sub).
Proof.
  unfold process_block_head.
  repeat always_step;
    first [ apply allocate_sends_nothing | apply always_emit; solve_frame ].
Qed.

Lemma process_block_no_commit_while_paused w sub :
  always no_commit_while_paused (process_block w sub).
Proof.
  unfold process_block, process_block_head.
  repeat always_step;
    first [ apply allocate_no_commit_while_paused
          | apply publish_no_commit_while_paused
          | apply always_emit; solve_frame ].
Qed.

Lemma bind_ret_l {A B} (a : A) (f : A → M B) st : bind (ret a) f st = f a st.
Proof. unfold bind, ret. by destruct (f a st) as [[t st'] r]. Qed.

Lemma bind_get {B} (f : St → M B) st : bind get f st = f st st.
Proof. unfold bind, get. by destruct (f st st) as [[t st'] r]. Qed.

(** The trace of [bind m f] extends that of [m] by a trace that, like
    every run of [f], satisfies [R]. *)
Lemma bind_split {A B} (R : St → list event → St → Prop) `{!Sequential R}
    (m : M A) (f : A → M B) st :
  (∀ a, always R (f a)) →
  ∃ t2, trace_of (bind m f st) = trace_of (m st) ++ t2 ∧
        R (state_of (m st)) t2 (state_of (bind m f st)).
Proof.
  intros Hf. destruct (m st) as [[t st'] [a | e]] eqn:Heq.
  - rewrite (bind_returned _ _ _ _ _ _ Heq). simpl.
    exists (trace_of (f a st')). split; [done | apply Hf].
  - rewrite (bind_raised _ _ _ _ _ _ Heq). simpl.
    exists []. split; [by rewrite app_nil_r | apply seq_skip].
Qed.

(** The publisher and the wait that end a cycle commit nothing. *)
Lemma process_block_tail_no_commit w sub (x : Z * Summary * (option Subnet * Q)) :
  always no_commit
    (let '(current_block, summary, selected) := x in
     publish w current_block summary ;;;
     emit (EWaitForBlock sub) ;;;
     await (w_wait_for_block w) ;;;
     ret selected).
Proof.
  destruct x as [[current_block summary] selected].
  repeat always_step;
    first [ apply publish_no_commit | apply always_emit; solve_frame ].
Qed.

(** What the allocation step does when the bot is not paused and a subnet
    was selected. *)
Lemma allocate_commits w sub stake_amount preferences current_block chosen
    best_score st :
  paused (config st) = false →
  Qltb 0 best_score = true →
  let pref_multiplier := pref_get preferences (netuid chosen) in
  let actual_stake := (stake_amount * pref_multiplier)%Q in
  let purchase_event :=
    {| pe_block := current_block; pe_netuid := netuid chosen;
       pe_subnet_name := subnet_name chosen; pe_stake_amount := actual_stake;
       pe_score := best_score; pe_pref_multiplier := pref_multiplier |} in
  allocate w sub stake_amount preferences current_block (Some chosen) best_score st =
  match w_add_stake w with
  | Returned _ =>
      ([EAddStake sub (netuid chosen) actual_stake],
       set_accumulated_history (accumulated_history st ++ [purchase_event])
         (set_purchase_history (purchase_history st ++ [purchase_event]) st),
       Returned (ActStake actual_stake best_score pref_multiplier,
                 Some (netuid chosen)))
  | Raised e =>
      ([EAddStake sub (netuid chosen) actual_stake], st,
       Returned (ActStakeError e, Some (netuid chosen)))
  end.
Proof.
  intros Hp Hpos.
  unfold allocate, stake_on_subnet, bind, get, try_, emit, modify, await. simpl.
  rewrite Hp, Hpos. simpl.
  by destruct (w_add_stake w) as [[] | e].
Qed.

(** The rest of the cycle head after the allocation step only reads. *)
Lemma process_block_head_rest_reads_only w subnets validator exclude_list
    preferences (current_block : Z) (selected : option Subnet * Q)
    (a : StakeAction * option Z) :
  always reads_only
    (let '(stake_action, chosen_netuid) := a in
     stakes' <- await (w_stake_for_coldkey_after w) ;;
     let stake_info := get_stake_info validator stakes' in
     wallet_balance <- await (w_balance w) ;;
     let '(table, summary) :=
       build_display_table subnets stake_info exclude_list preferences
         chosen_netuid stake_action wallet_balance in
     emit (EConsole (PanelSummary summary table)) ;;;
     ret (current_block, summary, selected)).
Proof.
  destruct a as [stake_action chosen_netuid].
  repeat always_step. apply always_emit; solve_frame.
Qed.

(** The cycle head, once its three queries have answered. *)
Lemma process_block_head_queried w sub st current_block subnets stakes :
  w_current_block w = Returned current_block →
  w_all_subnets w = Returned subnets →
  w_stake_for_coldkey w = Returned stakes →
  process_block_head w sub st =
  (let '(chosen_subnet, best_score) :=
     select_best_subnet subnets (exclude_list (config st)) (preferences (config st)) in
   a <- allocate w sub (stake_amount (config st)) (preferences (config st))
          current_block chosen_subnet best_score ;;
   let '(stake_action, chosen_netuid) := a in
   stakes' <- await (w_stake_for_coldkey_after w) ;;
   let stake_info := get_stake_info (validator (config st)) stakes' in
   wallet_balance <- await (w_balance w) ;;
   let '(table, summary) :=
     build_display_table subnets stake_info (exclude_list (config st))
       (preferences (config st)) chosen_netuid stake_action wallet_balance in
   emit (EConsole (PanelSummary summary table)) ;;;
   ret (current_block, summary, (chosen_subnet, best_score))) st.
Proof.
  intros Hb Hs Hk. unfold process_block_head.
  rewrite bind_get, Hb. simpl await. rewrite bind_ret_l, Hs. simpl await.
  rewrite bind_ret_l, Hk. simpl await. by rewrite bind_ret_l.
Qed.

Lemma bind_result_inv {A B} (m : M A) (f : A → M B) st b :
  result_of (bind m f st) = Returned b →
  ∃ t st' a, m st = (t, st', Returned a) ∧ result_of (f a st') = Returned b.
Proof.
  destruct (m st) as [[t st'] [a | e]] eqn:Heq.
  - rewrite (bind_returned _ _ _ _ _ _ Heq). simpl. by eauto.
  - by rewrite (bind_raised _ _ _ _ _ _ Heq).
Qed.

Lemma returns_only_raise {A} (P : A → Prop) e : returns_only P (raise e).
Proof. by intros st a. Qed.

(** Peels one construct off a goal [returns_only P m]. *)
Ltac returns_step :=
  lazymatch goal with
  | |- returns_only _ (bind _ _) => apply returns_only_bind; intros ?
  | |- returns_only _ (ret _) => by apply returns_only_ret
  | |- returns_only _ (raise _) => apply returns_only_raise
  | |- returns_only _ (match ?x with _ => _ end) => destruct x
  | |- returns_only _ _ => progress cbv zeta
  end.

Lemma process_block_tail_returns w sub (x : Z * Summary * (option Subnet * Q)) :
  returns_only (λ selected, selected = x.2)
    (let '(current_block, summary, selected) := x in
     publish w current_block summary ;;;
     emit (EWaitForBlock sub) ;;;
     await (w_wait_for_block w) ;;;
     ret selected).
Proof. destruct x as [[current_block summary] selected]. repeat returns_step. Qed.

Lemma process_block_head_rest_returns w subnets validator exclude_list
    preferences (current_block : Z) (selected : option Subnet * Q)
    (a : StakeAction * option Z) :
  returns_only (λ x, x.2 = selected)
    (let '(stake_action, chosen_netuid) := a in
     stakes' <- await (w_stake_for_coldkey_after w) ;;
     let stake_info := get_stake_info validator stakes' in
     wallet_balance <- await (w_balance w) ;;
     let '(table, summary) :=
       build_display_table subnets stake_info exclude_list preferences
         chosen_netuid stake_action wallet_balance in
     emit (EConsole (PanelSummary summary table)) ;;;
     ret (current_block, summary, selected)).
Proof. destruct a as [stake_action chosen_netuid]. repeat returns_step. Qed.

(** The cycle head raises when one of its first three queries does. *)
Lemma process_block_head_query_fails w sub st :
  (∃ e, w_current_block w = Raised e) ∨
  (∃ e, w_all_subnets w = Raised e) ∨
  (∃ e, w_stake_for_coldkey w = Raised e) →
  ∃ e, process_block_head w sub st = ([], st, Raised e).
Proof.
  intros Hfail. unfold process_block_head. rewrite bind_get.
  destruct (w_current_block w) as [b | e] eqn:Hb; [| by eauto].
  simpl await. rewrite bind_ret_l.
  destruct (w_all_subnets w) as [subnets | e] eqn:Hs; [| by eauto].
  simpl await. rewrite bind_ret_l.
  destruct (w_stake_for_coldkey w) as [stakes | e] eqn:Hk; [| by eauto].
  destruct Hfail as [[e ?] | [[e ?] | [e ?]]]; congruence.
Qed.

(** A cycle that returns has selected what [select_best_subnet] selects
    among the subnets the gateway listed, on the exclusions and preferences
    of the store. *)
Lemma process_block_returns_selection w sub st selected :
  result_of (process_block w sub st) = Returned selected →
  ∃ subnets, w_all_subnets w = Returned subnets ∧
    selected = select_best_subnet subnets (exclude_list (config st))
                 (preferences (config st)).
Proof.
  unfold process_block.
  intros (t1 & st1 & x & Hhead & Hrest)%bind_result_inv.
  apply process_block_tail_returns in Hrest. subst selected.
  destruct (w_current_block w) as [b | e] eqn:Hb; last first.
  { destruct (process_block_head_query_fails w sub st) as [e' He']; [by eauto |].
    congruence. }
  destruct (w_all_subnets w) as [subnets | e] eqn:Hs; last first.
  { destruct (process_block_head_query_fails w sub st) as [e' He']; [by eauto |].
    congruence. }
  destruct (w_stake_for_coldkey w) as [stakes | e] eqn:Hk; last first.
  { destruct (process_block_head_query_fails w sub st) as [e' He']; [by eauto |].
    congruence. }
  exists subnets. split; [done |].
  rewrite (process_block_head_queried _ _ _ _ _ _ Hb Hs Hk) in Hhead.
  destruct (select_best_subnet subnets _ _) as [chosen best].
  assert (result_of
            ((a <- allocate w sub (stake_amount (config st))
                     (preferences (config st)) b chosen best ;;
              let '(stake_action, chosen_netuid) := a in
              stakes' <- await (w_stake_for_coldkey_after w) ;;
              let stake_info := get_stake_info (validator (config st)) stakes' in
              wallet_balance <- await (w_balance w) ;;
              let '(table, summary) :=
                build_display_table subnets stake_info (exclude_list (config st))
                  (preferences (config st)) chosen_netuid stake_action
                  wallet_balance in
              emit (EConsole (PanelSummary summary table)) ;;;
              ret (b, summary, (chosen, best))) st) = Returned x) as Hres
    by (by rewrite Hhead).
  apply bind_result_inv in Hres as (t2 & st2 & a & _ & Hres).
  by apply process_block_head_rest_returns in Hres.
Qed.

(** C2.  In a block cycle that starts paused, no [add_stake] call is issued,
    the accumulated buffer is left as it is and the batch buffer gets no new
    event (it is as before, or flushed by the publisher); the cycle, when it
    returns, has still selected what [select_best_subnet] selects.  In a
    cycle that starts unpaused and selects a subnet, exactly one [add_stake]
    call is issued, for [stake_amount * preference(chosen id)] on the chosen
    subnet; when that call succeeds one purchase event with that amount is
    appended to both buffers, and when it fails none is. *)
Theorem process_block_pause_and_commit (w : World) (sub : handle) (st : St) :
  let out := process_block w sub st in
  (paused (config st) = true →
     add_stake_calls (trace_of out) = [] ∧
     accumulated_history (state_of out) = accumulated_history st ∧
     (purchase_history (state_of out) = purchase_history st ∨
      purchase_history (state_of out) = []) ∧
     (∀ selected, result_of out = Returned selected →
        ∃ subnets, w_all_subnets w = Returned subnets ∧
          selected = select_best_subnet subnets (exclude_list (config st))
                       (preferences (config st)))) ∧
  (paused (config st) = false →
     ∀ current_block subnets stakes chosen best_score,
       w_current_block w = Returned current_block →
       w_all_subnets w = Returned subnets →
       w_stake_for_coldkey w = Returned stakes →
       select_best_subnet subnets (exclude_list (config st))
         (preferences (config st)) = (Some chosen, best_score) →
       let pref_multiplier := pref_get (preferences (config st)) (netuid chosen) in
       let actual_stake := (stake_amount (config st) * pref_multiplier)%Q in
       let purchase_event :=
         {| pe_block := current_block; pe_netuid := netuid chosen;
            pe_subnet_name := subnet_name chosen;
            pe_stake_amount := actual_stake; pe_score := best_score;
            pe_pref_multiplier := pref_multiplier |} in
       add_stake_calls (trace_of out) = [(sub, netuid chosen, actual_stake)] ∧
       match w_add_stake w with
       | Returned _ =>
           purchase_history (state_of (process_block_head w sub st)) =
             purchase_history st ++ [purchase_event] ∧
           accumulated_history (state_of out) =
             accumulated_history st ++ [purchase_event] ∧
           (purchase_history (state_of out) =
              purchase_history st ++ [purchase_event] ∨
            purchase_history (state_of out) = [])
       | Raised _ =>
           purchase_history (state_of (process_block_head w sub st)) =
             purchase_history st ∧
           accumulated_history (state_of out) = accumulated_history st ∧
           (purchase_history (state_of out) = purchase_history st ∨
            purchase_history (state_of out) = [])
       end).
Proof.
  intros out. split.
  - intros Hp.
    destruct (process_block_no_commit_while_paused w sub st Hp)
      as (_ & Hcalls & Hacc & Hbatch).
    split_and!; [done | done | done |].
    apply process_block_returns_selection.
  - intros Hp current_block subnets stakes chosen best_score Hb Hs Hk Hsel
      pref_multiplier actual_stake purchase_event.
    pose proof (select_best_subnet_positive _ _ _ _ _ Hsel) as Hpos.
    (* the head: the allocation step, then reads *)
    pose proof (process_block_head_queried _ sub st _ _ _ Hb Hs Hk) as Hhead.
    rewrite Hsel in Hhead.
    destruct (bind_split reads_only
                (allocate w sub (stake_amount (config st)) (preferences (config st))
                   current_block (Some chosen) best_score)
                (λ a, let '(stake_action, chosen_netuid) := a in
                   stakes' <- await (w_stake_for_coldkey_after w) ;;
                   let stake_info := get_stake_info (validator (config st)) stakes' in
                   wallet_balance <- await (w_balance w) ;;
                   let '(table, summary) :=
                     build_display_table subnets stake_info
                       (exclude_list (config st)) (preferences (config st))
                       chosen_netuid stake_action wallet_balance in
                   emit (EConsole (PanelSummary summary table)) ;;;
                   ret (current_block, summary, (Some chosen, best_score))) st)
      as (t2 & Ht2 & Hst2 & Hcalls2 & _).
    { intros a. apply process_block_head_rest_reads_only. }
    rewrite <- Hhead in Ht2, Hst2.
    rewrite (allocate_commits _ _ _ _ _ _ _ _ Hp Hpos) in Ht2, Hst2.
    (* the tail: the publisher and the wait *)
    destruct (bind_split no_commit (process_block_head w sub)
                (λ x, let '(current_block, summary, selected) := x in
                   publish w current_block summary ;;;
                   emit (EWaitForBlock sub) ;;;
                   await (w_wait_for_block w) ;;;
                   ret selected) st)
      as (t3 & Ht3 & Hcalls3 & Hacc3 & Hbatch3).
    { intros x. apply process_block_tail_no_commit. }
    fold (process_block w sub) in Ht3, Hacc3, Hbatch3. fold out in Ht3, Hacc3, Hbatch3.
    split.
    + rewrite Ht3, Ht2, !add_stake_calls_app, Hcalls2, Hcalls3.
      by destruct (w_add_stake w).
    + rewrite Hacc3. rewrite Hst2 in Hbatch3 |- *.
      destruct (w_add_stake w); simpl in *; by split_and!.
Qed.

(** The example cycle, paused and not. *)
Lemma process_block_pause_and_commit_witness :
  add_stake_calls (trace_of (process_block (ex_world 21 2 1000) ex_sub ex_store_paused))
    = [] ∧
  add_stake_calls (trace_of (process_block (ex_world 21 2 1000) ex_sub ex_store))
    = [(ex_sub, 2, ((1 # 2) * 2)%Q)].
Proof.
  split.
  - destruct (process_block_pause_and_commit (ex_world 21 2 1000) ex_sub
                ex_store_paused) as [Hpaused _].
    by destruct (Hpaused eq_refl) as (Hcalls & _).
  - destruct (process_block_pause_and_commit (ex_world 21 2 1000) ex_sub
                ex_store) as [_ Hrunning].
    by destruct (Hrunning eq_refl 21 (ex_subnets 2) ex_stakes _ _
                   eq_refl eq_refl eq_refl eq_refl) as (Hcalls & _).
Defined.

(** A paused cycle still selects subnet 2, and stakes and records nothing. *)
Example paused_cycle_selects_without_staking :
  let out := process_block (ex_world 20 2 1000) ex_sub ex_store_paused in
  result_of out =
    Returned (select_best_subnet (ex_subnets 2) [3] {[ "2" := 2%Q ]}) ∧
  add_stake_calls (trace_of out) = [] ∧
  sent (trace_of out) = [] ∧
  state_of out = ex_store_paused.
Proof. by split_and!. Qed.

(** The same cycle unpaused, at a block that is not a multiple of the
    interval, stakes 0.5 * 2 on subnet 2 and records it in both buffers. *)
Example unpaused_cycle_stakes_once :
  let out := process_block (ex_world 21 2 1000) ex_sub ex_store in
  let event :=
    {| pe_block := 21; pe_netuid := 2; pe_subnet_name := "beta";
       pe_stake_amount := ((1 # 2) * 2)%Q; pe_score := (6 / 4 * 2)%Q;
       pe_pref_multiplier := 2%Q |} in
  add_stake_calls (trace_of out) = [(ex_sub, 2, ((1 # 2) * 2)%Q)] ∧
  accumulated_history (state_of out) = [event] ∧
  purchase_history (state_of out) = [event] ∧
  sent (trace_of out) = [].
Proof. by split_and!. Qed.

(** What the publisher does on a store whose interval is not 0. *)
Lemma publish_run w current_block summary st :
  telegram_update_interval (config st) ≠ 0 →
  let buffer := purchase_history st in
  let due :=
    bool_decide (current_block `mod` telegram_update_interval (config st) = 0)
    && negb (bool_decide (buffer = [])) in
  publish w current_block summary st =
  if due
  then ([send_event w (config st) (MsgDigest current_block summary buffer) 0],
        set_purchase_history [] st, Returned tt)
  else ([], st, Returned tt).
Proof.
  intros Hne buffer due. unfold publish, py_mod_is_zero.
  rewrite bind_get, (bool_decide_eq_false_2 _ Hne), bind_ret_l.
  fold buffer. fold due. destruct due; [| done].
  unfold bind, modify. by rewrite send_telegram_message_run.
Qed.

(** C6.  In a block cycle that reaches the publisher with a non-zero
    interval, the digest is handed to [send_telegram_message] exactly when
    the block height is a multiple of the interval and the batch buffer is
    not empty; it carries the buffered events, and the batch buffer is empty
    afterwards whatever became of the send, which never raises.  Otherwise
    nothing is sent and the publisher leaves the store as it is.  Nothing
    else in the cycle sends anything. *)
Theorem process_block_digest (w : World) (sub : handle) (st : St)
    (t1 : list event) (st1 : St) (current_block : Z) (summary : Summary)
    (selected : option Subnet * Q) :
  process_block_head w sub st = (t1, st1, Returned (current_block, summary, selected)) →
  telegram_update_interval (config st) ≠ 0 →
  let out := process_block w sub st in
  let buffer := purchase_history st1 in
  let due :=
    bool_decide (current_block `mod` telegram_update_interval (config st) = 0)
    && negb (bool_decide (buffer = [])) in
  trace_of out =
    t1 ++ (if due
           then [send_event w (config st1) (MsgDigest current_block summary buffer) 0]
           else []) ++ [EWaitForBlock sub] ∧
  sent (trace_of out) =
    (if due then [MsgDigest current_block summary buffer] else []) ∧
  state_of out = (if due then set_purchase_history [] st1 else st1) ∧
  purchase_history (state_of out) = (if due then [] else buffer) ∧
  result_of out = match w_wait_for_block w with
                  | Returned _ => Returned selected
                  | Raised e => Raised e
                  end.
Proof.
  intros Hhead Hne out buffer due.
  destruct (process_block_head_sends_nothing w sub st) as [Hsent Hcfg].
  rewrite Hhead in Hsent, Hcfg. unfold trace_of, state_of in Hsent, Hcfg.
  simpl in Hsent, Hcfg.
  assert (out =
          (t1 ++ (if due
                  then [send_event w (config st1)
                          (MsgDigest current_block summary buffer) 0]
                  else []) ++ [EWaitForBlock sub],
           (if due then set_purchase_history [] st1 else st1),
           match w_wait_for_block w with
           | Returned _ => Returned selected
           | Raised e => Raised e
           end)) as ->.
  { unfold out, process_block. rewrite (bind_returned _ _ _ _ _ _ Hhead).
    cbv beta iota. unfold bind, emit, ret.
    rewrite publish_run by (by rewrite Hcfg). rewrite Hcfg.
    fold buffer. fold due. unfold trace_of, state_of, result_of.
    destruct due, (w_wait_for_block w) as [[] | e]; simpl;
      by rewrite ?app_nil_r. }
  unfold trace_of, state_of, result_of. simpl.
  split_and!; [done | | done | by destruct due | done].
  rewrite !sent_app, Hsent. by destruct due.
Qed.

(** The example cycle at block 20, a multiple of the interval 10: the
    purchase of this cycle is sent and the buffer flushed. *)
Lemma process_block_digest_witness :
  let out := process_block (ex_world 20 2 1000) ex_sub ex_store in
  (∃ summary event, sent (trace_of out) = [MsgDigest 20 summary [event]]) ∧
  purchase_history (state_of out) = [] ∧
  result_of out = Returned (select_best_subnet (ex_subnets 2) [3] {[ "2" := 2%Q ]}).
Proof.
  intros out.
  edestruct (process_block_digest (ex_world 20 2 1000) ex_sub ex_store)
    as (_ & Hsent & _ & Hbuffer & Hresult).
  - vm_compute. reflexivity.
  - done.
  - split_and!; [eexists _, _; exact Hsent | exact Hbuffer | exact Hresult].
Defined.

(** ** Preference multipliers: [/boost] and [/slash] *)

Lemma cmd_boost_run w n chat_id st :
  cmd_boost w n chat_id st =
  ([send_event w (config st)
      (MsgNewPreference n (boosted (pref_get (preferences (config st)) n))) chat_id],
   boost_store n st, Returned tt).
Proof.
  unfold cmd_boost. rewrite bind_get. unfold bind, modify.
  by rewrite send_telegram_message_run.
Qed.

Lemma cmd_slash_run w n chat_id st :
  cmd_slash w n chat_id st =
  ([send_event w (config st)
      (MsgNewPreference n (slashed (pref_get (preferences (config st)) n))) chat_id],
   slash_store n st, Returned tt).
Proof.
  unfold cmd_slash. rewrite bind_get. unfold bind, modify.
  by rewrite send_telegram_message_run.
Qed.

(** A command that always returns, run [k] times, returns, and its effect
    on the store is the [k]-fold effect of one run. *)
Lemma repeat_cmd_run (m : M unit) (step : St → St) :
  (∀ st, ∃ t, m st = (t, step st, Returned tt)) →
  ∀ k st, ∃ t, repeat_cmd k m st = (t, Nat.iter k step st, Returned tt).
Proof.
  intros Hm. induction k as [|k IH]; intros st.
  - by exists [].
  - destruct (Hm st) as [t Ht]. destruct (IH (step st)) as [t' Ht'].
    exists (t ++ t'). simpl repeat_cmd.
    rewrite (bind_returned _ _ _ _ _ _ Ht), Ht'. by rewrite Nat.iter_succ_r.
Qed.

Lemma pref_get_boost_store n st :
  pref_get (preferences (config (boost_store n st))) n =
  boosted (pref_get (preferences (config st)) n).
Proof. unfold boost_store, pref_get at 1. simpl. by rewrite lookup_insert_eq. Qed.

Lemma pref_get_slash_store n st :
  pref_get (preferences (config (slash_store n st))) n =
  slashed (pref_get (preferences (config st)) n).
Proof. unfold slash_store, pref_get at 1. simpl. by rewrite lookup_insert_eq. Qed.

Lemma pref_get_iter (step : St → St) (f : Q → Q) n :
  (∀ st, pref_get (preferences (config (step st))) n =
         f (pref_get (preferences (config st)) n)) →
  ∀ k st, pref_get (preferences (config (Nat.iter k step st))) n =
          Nat.iter k f (pref_get (preferences (config st)) n).
Proof.
  intros Hstep. induction k as [|k IH]; intros st; [done |].
  simpl. by rewrite Hstep, IH.
Qed.

(** The multiplier after the two runs, as iterated arithmetic. *)
Lemma multiplier_after_iter w n chat_id st boosts slashes :
  multiplier_after w n chat_id st boosts slashes =
  Nat.iter slashes slashed
    (Nat.iter boosts boosted (pref_get (preferences (config st)) n)).
Proof.
  unfold multiplier_after.
  destruct (repeat_cmd_run (cmd_boost w n chat_id) (boost_store n)
              (λ st, ex_intro _ _ (cmd_boost_run w n chat_id st)) boosts st)
    as [t Ht].
  destruct (repeat_cmd_run (cmd_slash w n chat_id) (slash_store n)
              (λ st, ex_intro _ _ (cmd_slash_run w n chat_id st)) slashes
              (Nat.iter boosts (boost_store n) st))
    as [t' Ht'].
  rewrite (bind_returned _ _ _ _ _ _ Ht), Ht'. unfold state_of. simpl.
  rewrite (pref_get_iter _ _ _ (pref_get_slash_store n)).
  by rewrite (pref_get_iter _ _ _ (pref_get_boost_store n)).
Qed.

Lemma boosted_error (x : Q) :
  (0 <= x)%Q →
  (x + tenth_q - u64 * (x + tenth_q) <= boosted x)%Q ∧
  (boosted x <= x + tenth_q + u64 * (x + tenth_q))%Q.
Proof.
  intros Hx. apply round64_relative. pose proof tenth_q_normal. lra.
Qed.

Lemma slashed_floor (x : Q) : (tenth_q <= slashed x)%Q.
Proof.
  unfold slashed. destruct (Qltb _ _) eqn:Hlt; [lra |].
  by apply Qltb_ge in Hlt.
Qed.

Lemma slashed_below (x : Q) : (x <= 2 * tenth_q)%Q → slashed x = tenth_q.
Proof.
  intros Hx. unfold slashed. destruct (Qltb _ _) eqn:Hlt; [done |].
  apply Qltb_ge in Hlt. pose proof tenth_q_bounds as [Hc _].
  assert (round64 (x - tenth_q) <= tenth_q)%Q as Hle.
  { destruct (Qlt_le_dec 0 (x - tenth_q)) as [Hpos | Hneg].
    - apply round64_le_double; [done | lra | apply tenth_q_double].
    - pose proof (round64_nonpos _ Hneg). lra. }
  rewrite (round64_canonical _ tenth_q); [done | lra].
Qed.

Lemma slashed_iter_floor (k : nat) : Nat.iter k slashed tenth_q = tenth_q.
Proof.
  induction k as [|k IH]; [done |]. simpl. rewrite IH.
  apply slashed_below. pose proof tenth_q_bounds. lra.
Qed.

Lemma slashed_above (x : Q) :
  (2 * tenth_q <= x)%Q →
  (tenth_q <= slashed x)%Q ∧
  (x - tenth_q - u64 * (x - tenth_q) <= slashed x)%Q ∧
  (slashed x <= x - tenth_q + u64 * (x - tenth_q))%Q.
Proof.
  intros Hx. pose proof tenth_q_bounds as [Hc _]. pose proof tenth_q_normal.
  destruct (round64_relative (x - tenth_q)) as [Hlo Hhi]; [lra |].
  assert (0 < u64)%Q as Hu by apply pow2_pos.
  assert (0 <= u64 * (x - tenth_q))%Q by (apply Qmult_le_0_compat; lra).
  split; [apply slashed_floor |].
  unfold slashed. destruct (Qltb _ _) eqn:Hlt; [| done].
  apply Qltb_lt in Hlt. split; lra.
Qed.

Lemma Qn_succ (k : nat) : (Qn (S k) == Qn k + 1)%Q.
Proof.
  unfold Qn. rewrite Nat2Z.inj_succ, <- Z.add_1_r, inject_Z_plus. reflexivity.
Qed.

Lemma Qn_nonneg (k : nat) : (0 <= Qn k)%Q.
Proof. unfold Qn. rewrite <- (Zle_Qle 0). lia. Qed.

Lemma Qn_add (j k : nat) : (Qn (j + k) == Qn j + Qn k)%Q.
Proof. unfold Qn. by rewrite Nat2Z.inj_add, inject_Z_plus. Qed.

Lemma drift_succ (M : Q) (k : nat) : (drift M (S k) == drift M k + 2 * u64 * M)%Q.
Proof. unfold drift. rewrite Qn_succ. ring. Qed.

Lemma drift_nonneg (M : Q) (k : nat) : (0 <= M)%Q → (0 <= drift M k)%Q.
Proof.
  intros HM. unfold drift. pose proof (Qn_nonneg k). pose proof (pow2_pos (-53)).
  fold u64 in *. repeat apply Qmult_le_0_compat; lra.
Qed.

Lemma drift_le (M : Q) (k : nat) :
  (0 <= M)%Q → (2 * Qn k * u64 <= 1)%Q → (drift M k <= M)%Q.
Proof.
  intros HM Hk. unfold drift.
  assert (2 * Qn k * u64 * M <= 1 * M)%Q; [by apply Qmult_le_compat_r | lra].
Qed.

Lemma count_succ (k : nat) :
  (2 * Qn (S k) * u64 <= 1)%Q → (2 * Qn k * u64 <= 1)%Q.
Proof.
  rewrite Qn_succ. pose proof (pow2_pos (-53)). fold u64 in *. nra.
Qed.

(** One rounded step adds at most [2 * u64 * M] to the distance from the
    ideal value, while the values stay below [2 * M]. *)
Lemma rounding_step (M y : Q) :
  (0 <= y)%Q → (y <= 2 * M)%Q → (u64 * y <= 2 * u64 * M)%Q.
Proof.
  intros Hy HyM. pose proof (pow2_pos (-53)). fold u64 in *. nra.
Qed.

(** [k] boosts from [p]: the value stays within [drift] of [p + k * 0.1]. *)
Lemma boosted_iter_track (M p : Q) (k : nat) :
  (0 <= p)%Q → (p + Qn k * tenth_q <= M)%Q → (2 * Qn k * u64 <= 1)%Q →
  (0 <= Nat.iter k boosted p)%Q ∧
  (p + Qn k * tenth_q - drift M k <= Nat.iter k boosted p)%Q ∧
  (Nat.iter k boosted p <= p + Qn k * tenth_q + drift M k)%Q.
Proof.
  intros Hp. pose proof tenth_q_bounds as [Hc _].
  induction k as [|k IH]; intros HM Hk.
  - unfold drift. change (Qn 0) with 0%Q. simpl Nat.iter. split_and!; lra.
  - pose proof (Qn_nonneg k) as Hk0. rewrite Qn_succ in HM.
    destruct IH as (IH0 & IHlo & IHhi); [nra | by apply count_succ |].
    simpl Nat.iter. set (x := Nat.iter k boosted p) in *.
    destruct (boosted_error x IH0) as [Hlo Hhi].
    assert (0 <= M)%Q as HM0 by nra.
    pose proof (drift_le M k HM0 (count_succ k Hk)) as Hd.
    pose proof (rounding_step M (x + tenth_q)) as Hstep.
    rewrite drift_succ, Qn_succ.
    split; [apply round64_nonneg; lra |].
    split; nra.
Qed.

Lemma floor_at_cases (t : Q) :
  ((t < tenth_q)%Q ∧ floor_at t = tenth_q) ∨ ((tenth_q <= t)%Q ∧ floor_at t = t).
Proof.
  unfold floor_at. destruct (Qltb t tenth_q) eqn:Hlt.
  - left. by apply Qltb_lt in Hlt.
  - right. by apply Qltb_ge in Hlt.
Qed.

(** [j] slashes after [n0] earlier steps: the value stays within [drift] of
    the ideal value, which is the exact difference kept at the floor. *)
Lemma slashed_iter_track (M x0 I0 : Q) (n0 j : nat) :
  (tenth_q <= x0)%Q → (tenth_q <= I0)%Q → (I0 <= M)%Q →
  (I0 - drift M n0 <= x0)%Q → (x0 <= I0 + drift M n0)%Q →
  (2 * Qn (n0 + j) * u64 <= 1)%Q →
  (tenth_q <= Nat.iter j slashed x0)%Q ∧
  (floor_at (I0 - Qn j * tenth_q) - drift M (n0 + j) <= Nat.iter j slashed x0)%Q ∧
  (Nat.iter j slashed x0 <= floor_at (I0 - Qn j * tenth_q) + drift M (n0 + j))%Q.
Proof.
  intros Hx0 HI0 HM Hlo0 Hhi0. pose proof tenth_q_bounds as [Hc _].
  assert (0 <= M)%Q as HM0 by lra.
  induction j as [|j IH]; intros Hk.
  - rewrite Nat.add_0_r. change (Qn 0) with 0%Q. simpl Nat.iter.
    destruct (floor_at_cases (I0 - 0 * tenth_q)) as [[Hlt ->] | [Hge ->]]; split_and!; lra.
  - rewrite Nat.add_succ_r in *.
    destruct IH as (IHc & IHlo & IHhi); [by apply count_succ |].
    pose proof (drift_le M (n0 + j) HM0 (count_succ _ Hk)) as Hd.
    pose proof (drift_nonneg M (n0 + j) HM0) as Hd0.
    simpl Nat.iter. set (x := Nat.iter j slashed x0) in *.
    rewrite drift_succ. set (E := drift M (n0 + j)) in *.
    pose proof (Qn_nonneg j) as Hj0.
    assert (0 <= 2 * u64 * M)%Q as HW.
    { pose proof (pow2_pos (-53)). fold u64 in *. nra. }
    set (W := (2 * u64 * M)%Q) in *.
    split; [apply slashed_floor |].
    assert (I0 - Qn (S j) * tenth_q == I0 - Qn j * tenth_q - tenth_q)%Q as Ht
      by (rewrite Qn_succ; ring).
    assert (I0 - Qn j * tenth_q <= M)%Q as HtM by nra.
    set (t := (I0 - Qn j * tenth_q)%Q) in *.
    set (t' := (I0 - Qn (S j) * tenth_q)%Q) in *.
    destruct (Qlt_le_dec x (2 * tenth_q)) as [Hsmall | Hbig].
    + rewrite (slashed_below x) by lra.
      destruct (floor_at_cases t) as [[Hlt Ht1] | [Hge Ht1]]; rewrite Ht1 in *;
        destruct (floor_at_cases t') as [[Hlt' ->] | [Hge' ->]]; split; lra.
    + destruct (slashed_above x Hbig) as (Hsc & Hslo & Hshi).
      assert (x <= 2 * M + tenth_q)%Q as HxM.
      { destruct (floor_at_cases t) as [[Hlt Ht1] | [Hge Ht1]]; rewrite Ht1 in *; lra. }
      pose proof (rounding_step M (x - tenth_q)) as Hstep.
      assert (u64 * (x - tenth_q) <= W)%Q as Herr by (apply Hstep; lra).
      destruct (floor_at_cases t) as [[Hlt Ht1] | [Hge Ht1]]; rewrite Ht1 in *;
        destruct (floor_at_cases t') as [[Hlt' ->] | [Hge' ->]]; split; lra.
Qed.

(** At or above 2^50 the unit in the last place is 1/4 or more: adding 0.1
    rounds back to the double one started from. *)
Lemma boosted_stall (x : Q) : is_double x → (pow2 50 <= x)%Q → boosted x = Qred x.
Proof.
  intros Hdbl Hx. pose proof (pow2_pos 50) as H50.
  assert (0 < x)%Q as Hpos by lra.
  destruct (is_double_grid x Hpos Hdbl) as [N HN].
  pose proof (Qlog2_ge x 50 Hpos Hx) as HL.
  destruct (Qlog2_spec x Hpos) as [Hl Hu].
  assert (ulp_exponent x = Qlog2 x - 52) as He by (rewrite ulp_exponent_pos by done; lia).
  rewrite He in HN. set (L := Qlog2 x) in *.
  pose proof (pow2_pos (L - 52)) as HP.
  assert (pow2 (L + 1) == inject_Z (2 ^ 53) * pow2 (L - 52))%Q as Hup.
  { rewrite (pow2_diff_inject (L + 1) (L - 52)) by lia.
    by replace (L + 1 - (L - 52)) with 53 by lia. }
  assert (N + 1 ≤ 2 ^ 53) as HN53.
  { apply Z.le_succ_l. rewrite Zlt_Qlt.
    apply (Qmult_lt_r _ _ (pow2 (L - 52))); [done | lra]. }
  assert (pow2 (-2) <= pow2 (L - 52))%Q as Hulp by (apply pow2_le; lia).
  assert (pow2 (-2) == 1 # 4)%Q as H4 by (by vm_compute).
  pose proof tenth_q_bounds as [Hc1 Hc2].
  assert (inject_Z (N + 1) * pow2 (L - 52) <= pow2 (L + 1))%Q as Hnext.
  { rewrite Hup. apply Qmult_le_compat_r; [by rewrite <- Zle_Qle | lra]. }
  rewrite inject_Z_plus in Hnext. change (inject_Z 1) with 1%Q in Hnext.
  assert (Qlog2 (x + tenth_q) = L) as HLy.
  { apply Z.le_antisymm.
    - assert (Qlog2 (x + tenth_q) < L + 1); [apply Qlog2_lt; lra | lia].
    - apply Qlog2_ge; lra. }
  unfold boosted. apply round64_canonical.
  rewrite round64_unfold by lra.
  rewrite ulp_exponent_pos, HLy, Z.max_l by (lra || lia).
  rewrite (round_half_even_within _ N); [by symmetry | |].
  - apply Qlt_shift_div_l; [done |]. nra.
  - apply Qlt_shift_div_r; [done |]. nra.
Qed.

Lemma boosted_iter_stall (x : Q) (k : nat) :
  is_double x → (pow2 50 <= x)%Q → (Nat.iter k boosted x == x)%Q.
Proof.
  intros Hdbl Hx. destruct k as [|k]; [reflexivity |].
  assert (Nat.iter (S k) boosted x = Qred x) as ->; [| apply Qred_correct].
  induction k as [|k IH]; [by apply boosted_stall |].
  change (boosted (Nat.iter (S k) boosted x) = Qred x). rewrite IH.
  unfold boosted at 1. rewrite (round64_proper _ (x + tenth_q)).
  - by apply boosted_stall.
  - by rewrite Qred_correct.
Qed.

Lemma pow2_49 : (pow2 49 == 562949953421312)%Q.
Proof. by vm_compute. Qed.

(** Up to 2^49 a boost adds 0.03 at least. *)
Lemma boosted_grows (x : Q) :
  (0 <= x)%Q → (x <= pow2 49)%Q → (x + (3 # 100) <= boosted x)%Q.
Proof.
  intros Hx Hhi. destruct (boosted_error x Hx) as [Hlo _].
  rewrite pow2_49 in Hhi. rewrite u64_value in Hlo.
  pose proof tenth_q_bounds as [Hc1 Hc2]. lra.
Qed.

Lemma boosted_floor (x : Q) : (1 # 10 <= x)%Q → (1 # 10 <= boosted x)%Q.
Proof.
  intros Hx. destruct (boosted_error x) as [Hlo _]; [lra |].
  rewrite u64_value in Hlo. pose proof tenth_q_bounds as [Hc1 Hc2]. lra.
Qed.

Lemma boosted_iter_floor (x : Q) (k : nat) :
  (1 # 10 <= x)%Q → (1 # 10 <= Nat.iter k boosted x)%Q.
Proof.
  intros Hx. induction k as [|k IH]; [done |]. by apply boosted_floor.
Qed.

Lemma boosted_reaches (bound : Q) (n : nat) :
  (bound <= pow2 49)%Q →
  ∀ x, (0 <= x)%Q → (bound < x + Qn n * (3 # 100))%Q →
  ∃ k : nat, (bound < Nat.iter k boosted x)%Q.
Proof.
  intros Hb. induction n as [|n IH]; intros x Hx Hn.
  - exists 0%nat. change (Qn 0) with 0%Q in Hn. simpl. lra.
  - destruct (Qlt_le_dec bound x) as [Hlt | Hge]; [by exists 0%nat |].
    pose proof (boosted_grows x Hx) as Hg. rewrite Qn_succ in Hn.
    destruct (IH (boosted x)) as [k Hk]; [lra | lra |].
    exists (S k). by rewrite Nat.iter_succ_r.
Qed.

Lemma boosted_passes (p bound : Q) :
  (0 <= p)%Q → (bound <= pow2 49)%Q → ∃ k : nat, (bound < Nat.iter k boosted p)%Q.
Proof.
  intros Hp Hb.
  set (m := Z.max 0 (Qfloor (bound - p) + 1)).
  apply (boosted_reaches bound (Z.to_nat (34 * m))); [done | done |].
  assert (Qn (Z.to_nat (34 * m)) == 34 * inject_Z m)%Q as ->.
  { unfold Qn. rewrite Z2Nat.id by lia. by rewrite inject_Z_mult. }
  pose proof (Qlt_floor (bound - p)) as Hfloor.
  assert (inject_Z (Qfloor (bound - p) + 1) <= inject_Z m)%Q as Hm.
  { rewrite <- Zle_Qle. lia. }
  assert (0 <= inject_Z m)%Q by (rewrite <- (Zle_Qle 0); lia).
  lra.
Qed.
Lemma boosted_above_tenth (x : Q) : (0 <= x)%Q → (tenth_q <= boosted x)%Q.
Proof.
  intros Hx. pose proof tenth_q_bounds as [Hc _].
  apply double_le_round64; [lra | lra | apply tenth_q_double].
Qed.

Lemma boosted_iter_above_tenth (x : Q) (k : nat) :
  (tenth_q <= x)%Q → (tenth_q <= Nat.iter k boosted x)%Q.
Proof.
  intros Hx. pose proof tenth_q_bounds as [Hc _].
  induction k as [|k IH]; [done |]. simpl. apply boosted_above_tenth. lra.
Qed.

(** A double above 0 is not lowered by a boost. *)
Lemma boosted_not_below (x : Q) : (0 < x)%Q → is_double x → (x <= boosted x)%Q.
Proof.
  intros Hx Hdbl. pose proof tenth_q_bounds as [Hc _].
  apply double_le_round64; [done | lra | done].
Qed.

(** Counts of steps for which the bound on the drift holds. *)
Lemma count_within (k : nat) :
  Z.of_nat k ≤ 2 ^ 52 → (2 * Qn k * u64 <= 1)%Q.
Proof.
  intros Hk. rewrite u64_value. unfold Qn. rewrite Zle_Qle in Hk.
  change (inject_Z (2 ^ 52)) with (4503599627370496 # 1)%Q in Hk. lra.
Qed.

(** C3, as the code has it: on doubles.  [/boost n] stores the double
    nearest to the current multiplier of [n] (1.0 when none is stored) plus
    0.1, and [/slash n] stores the double nearest to the current multiplier
    minus 0.1, or 0.1 when that is below 0.1; here 0.1 is the double
    [tenth_q].  After any number of boosts followed by at least one slash,
    or by none when the multiplier started at 0.1 or above, the multiplier
    is at least 0.1, as a number and as that double.  Boosts add up to within [2 * boosts * u64] of their
    exact sum, relative to it, and pass every bound up to 2^49; a multiplier
    that is at or above 2^50 is left as it is by any number of boosts.  From
    a multiplier of at least 0.1, [k] boosts followed by [k] slashes give
    the starting value back to within [4 * k * u64] times the largest value
    on the way.  Once the multiplier is at most 0.2, one more slash stores
    0.1, and so does every slash after it. *)
Theorem boost_slash_multiplier (w : World) (n chat_id : Z) (st : St) :
  let p := pref_get (preferences (config st)) n in
  let after := multiplier_after w n chat_id st in
  preferences (config (state_of (cmd_boost w n chat_id st))) !! pretty n =
    Some (round64 (p + tenth_q)) ∧
  preferences (config (state_of (cmd_slash w n chat_id st))) !! pretty n =
    Some (if Qltb (round64 (p - tenth_q)) tenth_q then tenth_q
          else round64 (p - tenth_q)) ∧
  (∀ boosts slashes, (1 ≤ slashes)%nat ∨ (1 # 10 <= p)%Q →
     (1 # 10 <= after boosts slashes)%Q) ∧
  (∀ boosts slashes, (1 ≤ slashes)%nat ∨ (tenth_q <= p)%Q →
     (tenth_q <= after boosts slashes)%Q) ∧
  ((0 <= p)%Q → ∀ boosts, Z.of_nat boosts ≤ 2 ^ 52 →
     (Qabs (after boosts 0%nat - (p + Qn boosts * tenth_q))
      <= 2 * Qn boosts * u64 * (p + Qn boosts * tenth_q))%Q) ∧
  ((0 <= p)%Q → ∀ bound : Q, (bound <= pow2 49)%Q →
     ∃ boosts, (bound < after boosts 0%nat)%Q) ∧
  (is_double p → (pow2 50 <= p)%Q → ∀ boosts, (after boosts 0%nat == p)%Q) ∧
  ((tenth_q <= p)%Q → ∀ k, Z.of_nat k ≤ 2 ^ 51 →
     (Qabs (after k k - p) <= 4 * Qn k * u64 * (p + Qn k * tenth_q))%Q) ∧
  (∀ boosts slashes more, (after boosts slashes <= 2 * tenth_q)%Q →
     after boosts (slashes + 1 + more)%nat = tenth_q).
Proof.
  intros p after. pose proof tenth_q_bounds as [Hc _].
  split_and!.
  - rewrite cmd_boost_run. unfold state_of, boost_store. simpl.
    by rewrite lookup_insert_eq.
  - rewrite cmd_slash_run. unfold state_of, slash_store. simpl.
    by rewrite lookup_insert_eq.
  - intros boosts slashes Hor. unfold after.
    rewrite multiplier_after_iter. fold p.
    destruct slashes as [|slashes].
    + destruct Hor as [? | Hp]; [lia |]. simpl. by apply boosted_iter_floor.
    + simpl. pose proof (slashed_floor
        (Nat.iter slashes slashed (Nat.iter boosts boosted p))). lra.
  - intros boosts slashes Hor. unfold after.
    rewrite multiplier_after_iter. fold p.
    destruct slashes as [|slashes]; [| apply slashed_floor].
    destruct Hor as [? | Hp]; [lia |]. simpl. by apply boosted_iter_above_tenth.
  - intros Hp boosts Hk. unfold after. rewrite multiplier_after_iter. fold p.
    simpl Nat.iter at 1.
    destruct (boosted_iter_track (p + Qn boosts * tenth_q) p boosts)
      as (_ & Hlo & Hhi); [done | lra | by apply count_within |].
    unfold drift in Hlo, Hhi. apply Qabs_Qle_condition. split; lra.
  - intros Hp bound Hbound. destruct (boosted_passes p bound Hp Hbound) as [k Hk].
    exists k. unfold after. by rewrite multiplier_after_iter.
  - intros Hdbl Hp boosts. unfold after. rewrite multiplier_after_iter. fold p.
    simpl Nat.iter at 1. by apply boosted_iter_stall.
  - intros Hp k Hk. unfold after. rewrite multiplier_after_iter. fold p.
    pose proof (Qn_nonneg k) as Hk0.
    assert (2 * Qn (k + k) * u64 <= 1)%Q as Hcount.
    { apply count_within. lia. }
    assert (2 * Qn k * u64 <= 1)%Q as Hcount' by (apply count_within; lia).
    set (M := (p + Qn k * tenth_q)%Q).
    assert (M == p + Qn k * tenth_q)%Q as HM by reflexivity.
    assert (p <= M)%Q as HpM by nra.
    destruct (boosted_iter_track M p k) as (_ & Hlo & Hhi);
      [lra | apply Qle_refl | exact Hcount' |].
    destruct (slashed_iter_track M (Nat.iter k boosted p) M k k)
      as (_ & Hlo' & Hhi');
      [by apply boosted_iter_above_tenth | lra | apply Qle_refl | lra | lra
      | exact Hcount |].
    assert (drift M (k + k) == 4 * Qn k * u64 * M)%Q as Hdrift.
    { unfold drift. rewrite Qn_add. ring. }
    assert (M - Qn k * tenth_q == p)%Q as Hback by (unfold M; ring).
    clearbody M.
    apply Qabs_Qle_condition.
    destruct (floor_at_cases (M - Qn k * tenth_q)) as [[Hlt Heq] | [Hge Heq]];
      rewrite Heq in Hlo', Hhi'; split; lra.
  - intros boosts slashes more Hle. unfold after in *.
    rewrite multiplier_after_iter in *. fold p in Hle |- *.
    replace (slashes + 1 + more)%nat with (more + S slashes)%nat by lia.
    rewrite Nat.iter_add. simpl Nat.iter at 2.
    rewrite (slashed_below _ Hle). apply slashed_iter_floor.
Qed.

(** From the default multiplier 1.0 of subnet 5: ten boosts and ten slashes
    end within 10^-14 of 1.0, and twelve slashes end at the floor.  From
    0.25 and from the next double the sum with 0.1 lies halfway between two
    doubles: the boost stores the one whose last bit is 0, which is the
    lower one from 0.25 and the upper one from the next double. *)
Lemma boost_slash_multiplier_witness :
  (Qabs (multiplier_after (ex_world 20 2 1000) 5 7 ex_store 10 10 - 1)
   <= 1 # 100000000000000)%Q ∧
  multiplier_after (ex_world 20 2 1000) 5 7 ex_store 0 12 = tenth_q ∧
  preferences (config (state_of
    (cmd_boost (ex_world 20 2 1000) 5 7 (ex_store_with 5 (1 # 4))))) !! "5"
    = Some (3152519739159347 # 9007199254740992)%Q ∧
  preferences (config (state_of
    (cmd_boost (ex_world 20 2 1000) 5 7
       (ex_store_with 5 (4503599627370497 # 18014398509481984))))) !! "5"
    = Some (788129934789837 # 2251799813685248)%Q.
Proof.
  destruct (boost_slash_multiplier (ex_world 20 2 1000) 5 7 ex_store)
    as (_ & _ & _ & _ & _ & _ & _ & Hround & Hfloor).
  destruct (boost_slash_multiplier (ex_world 20 2 1000) 5 7
              (ex_store_with 5 (1 # 4))) as (Hlower & _).
  destruct (boost_slash_multiplier (ex_world 20 2 1000) 5 7
              (ex_store_with 5 (4503599627370497 # 18014398509481984)))
    as (Hupper & _).
  split_and!.
  - eapply Qle_trans; [apply (Hround ltac:(by vm_compute) 10%nat); lia |].
    by vm_compute.
  - apply (Hfloor 0%nat 9%nat 2%nat). by vm_compute.
  - etrans; [exact Hlower | by vm_compute].
  - etrans; [exact Hupper | by vm_compute].
Defined.

(** A multiplier of 2^50 is at least 0.1, and no number of boosts takes it
    past 2^50: the sum with 0.1 rounds back to 2^50 each time. *)
Lemma boosts_stall_at_two_to_fifty :
  let st := ex_store_with 5 (pow2 50) in
  (1 # 10 <= pref_get (preferences (config st)) 5)%Q ∧
  ∀ boosts,
    ¬ (pow2 50 < multiplier_after (ex_world 20 2 1000) 5 7 st boosts 0)%Q.
Proof.
  intros st. split; [by vm_compute |].
  intros boosts. rewrite multiplier_after_iter. simpl Nat.iter at 1.
  change (pref_get (preferences (config st)) 5) with (pow2 50).
  rewrite boosted_iter_stall;
    [apply Qlt_irrefl | by vm_compute | apply Qle_refl].
Qed.

(** The runs of the multiplier on the default 1.0 of subnet 5 and on a
    stored 0.1: ten boosts of 1.0 give 2.000000000000001, and ten slashes
    then give 1.0 again; from 0.1 the round trip ends at
    0.10000000000000003, not at 0.1; twelve or twenty slashes of 1.0 end at
    the floor. *)
Example boost_then_slash_ten_times :
  multiplier_after (ex_world 20 2 1000) 5 7 ex_store 10 0 =
    (2251799813685249 # 1125899906842624)%Q ∧
  multiplier_after (ex_world 20 2 1000) 5 7 ex_store 10 10 = 1%Q ∧
  multiplier_after (ex_world 20 2 1000) 5 7 (ex_store_with 5 tenth_q) 10 10 =
    (1801439850948199 # 18014398509481984)%Q ∧
  multiplier_after (ex_world 20 2 1000) 5 7 ex_store 0 12 = tenth_q ∧
  multiplier_after (ex_world 20 2 1000) 5 7 ex_store 0 20 = tenth_q.
Proof. vm_compute. by split_and!. Qed.

(** On primitive floats too, whatever the current value, [/slash] never
    stores a value below the floor. *)
Lemma slashed_float_floor (x : float) :
  PrimFloat.ltb (slashed_float x) tenth = false.
Proof.
  unfold slashed_float.
  by destruct (PrimFloat.ltb (PrimFloat.sub x tenth) tenth) eqn:Hlt.
Qed.

(** [boosted] and [slashed] against the primitive floats: the same runs, a
    boost at 2^50 and at 2^49, a slash at 0.25, and boosts at 0.25 and at
    the next double, where the exact sum lies halfway between two doubles,
    give the same doubles. *)
Example boosted_slashed_agree_with_binary64 :
  Q_of_float tenth = Some tenth_q ∧
  Q_of_float (Nat.iter 10 boosted_float 1%float) = Some (Nat.iter 10 boosted 1%Q) ∧
  Q_of_float (Nat.iter 10 slashed_float (Nat.iter 10 boosted_float 1%float)) =
    Some (Nat.iter 10 slashed (Nat.iter 10 boosted 1%Q)) ∧
  Q_of_float (Nat.iter 10 slashed_float (Nat.iter 10 boosted_float tenth)) =
    Some (Nat.iter 10 slashed (Nat.iter 10 boosted tenth_q)) ∧
  Q_of_float (Nat.iter 12 slashed_float 1%float) = Some (Nat.iter 12 slashed 1%Q) ∧
  Q_of_float (boosted_float 0x1p+50%float) = Some (boosted (pow2 50)) ∧
  Q_of_float (boosted_float 0x1p+49%float) = Some (boosted (pow2 49)) ∧
  Q_of_float (slashed_float 0x1p-2%float) = Some (slashed (1 # 4)) ∧
  Q_of_float (boosted_float 0x1p-2%float) = Some (boosted (1 # 4)) ∧
  Q_of_float (boosted_float 0x1.0000000000001p-2%float) =
    Some (boosted ((1 # 4) + pow2 (-54))).
Proof. vm_compute. by split_and!. Qed.

Section Dispatch.

Context (py_int : string → option Z) (py_float : string → option Q).

Local Abbreviation handle := (handle_telegram_command py_int py_float).

(** A message whose tokens are [/boost] and a numeral is handled by
    [cmd_boost], and likewise for [/slash]. *)
Lemma handle_boost w message first arg rest n :
  split (msg_text message) = first :: arg :: rest →
  lower first = "/boost" → py_int arg = Some n →
  handle w message = cmd_boost w n (msg_chat_id message).
Proof.
  intros Hsplit Hlower Hint. unfold handle_telegram_command.
  rewrite Hsplit, Hlower. simpl. by rewrite Hint.
Qed.

Lemma handle_slash w message first arg rest n :
  split (msg_text message) = first :: arg :: rest →
  lower first = "/slash" → py_int arg = Some n →
  handle w message = cmd_slash w n (msg_chat_id message).
Proof.
  intros Hsplit Hlower Hint. unfold handle_telegram_command.
  rewrite Hsplit, Hlower. simpl. by rewrite Hint.
Qed.

End Dispatch.

(** ** The history tracker: [/history] *)

Section History.

Context (w : World) (tc : list event) (sub : handle) (current_block : Z)
  (subnets : list Subnet) (stake_info : list StakeInfo) (wallet_balance : Q)
  (subnet_info : dict (Q * string)).

(** The gateway is reached and answers every query of [/history], and every
    listed price converts. *)
Hypothesis Hacquire : get_working_subtensor w = (tc, Returned sub).
Hypothesis Hblock : w_current_block w = Returned current_block.
Hypothesis Hsubnets : w_all_subnets w = Returned subnets.
Hypothesis Hstakes : w_stake_for_coldkey w = Returned stake_info.
Hypothesis Hbalance : w_balance w = Returned wallet_balance.
Hypothesis Hinfo : build_subnet_info subnets [] = Returned subnet_info.

Lemma cmd_history_run chat_id st :
  cmd_history w chat_id st =
  match last_history_snapshot st with
  | None =>
      (tc ++ [send_event w (config st) MsgHistoryCreated chat_id; EClose sub],
       set_last_history_snapshot
         (Some (snapshot_of w current_block wallet_balance subnet_info stake_info))
         st,
       Returned tt)
  | Some last =>
      (tc ++ [send_event w (config st)
                (history_summary w current_block wallet_balance subnet_info
                   stake_info (accumulated_history st) last) chat_id;
              EClose sub],
       set_accumulated_history []
         (set_last_history_snapshot
            (Some (snapshot_of w current_block wallet_balance subnet_info
                     stake_info)) st),
       Returned tt)
  end.
Proof.
  unfold cmd_history, acquire, close, bind, try_, lift_trace.
  rewrite Hacquire. simpl. rewrite Hblock. simpl. rewrite Hsubnets. simpl.
  rewrite Hstakes. simpl. rewrite Hbalance. simpl. rewrite Hinfo. simpl.
  destruct (last_history_snapshot st) as [last |]; simpl;
    rewrite send_telegram_message_run; simpl;
    by rewrite ?app_nil_r.
Qed.

End History.

(** Connecting sends nothing to Telegram. *)
Lemma retry_from_sends_nothing w endpoint more : ∀ attempt,
  sent (retry_from (attempt_once w endpoint) attempt more).1 = [].
Proof.
  induction more as [|more IH]; intros attempt; simpl;
    unfold attempt_once at 1;
    destruct (w_connect w endpoint attempt); simpl; try done.
  all: specialize (IH (S attempt));
    destruct (retry_from (attempt_once w endpoint) (S attempt) more) as [t' r];
    simpl in *; by rewrite ?IH.
Qed.

Lemma try_endpoints_sends_nothing w endpoints : ∀ last_error,
  sent (try_endpoints w endpoints last_error).1 = [].
Proof.
  induction endpoints as [|ep rest IH]; intros last_error; simpl; [done |].
  pose proof (retry_from_sends_nothing w ep (max_attempts - 1) 1) as Hep.
  fold (get_and_test_subtensor w ep) in Hep.
  destruct (get_and_test_subtensor w ep) as [t [sub | e]]; [done |].
  specialize (IH (Some e)).
  destruct (try_endpoints w rest (Some e)) as [t' r]. simpl in *.
  by rewrite sent_app, Hep, IH.
Qed.

Lemma get_working_subtensor_sends_nothing w :
  sent (get_working_subtensor w).1 = [].
Proof. apply try_endpoints_sends_nothing. Qed.

Section HistoryCommand.

Context (py_int : string → option Z) (py_float : string → option Q).

Local Abbreviation handle := (handle_telegram_command py_int py_float).

(** A message whose verb is [/history] is handled by [cmd_history]. *)
Lemma handle_history w message :
  verb_of (msg_text message) = Some "/history" →
  handle w message = cmd_history w (msg_chat_id message).
Proof.
  unfold verb_of, handle_telegram_command.
  destruct (split (msg_text message)) as [|first rest]; [done |].
  simpl. intros [= ->]. done.
Qed.

(** What one answered [/history] does. *)
Lemma handle_history_run w message st tc sub current_block stake_info
    wallet_balance subnet_info :
  verb_of (msg_text message) = Some "/history" →
  answers_history w tc sub current_block stake_info wallet_balance subnet_info →
  let snapshot :=
    snapshot_of w current_block wallet_balance subnet_info stake_info in
  handle w message st =
  match last_history_snapshot st with
  | None =>
      (tc ++ [send_event w (config st) MsgHistoryCreated (msg_chat_id message);
              EClose sub],
       set_last_history_snapshot (Some snapshot) st, Returned tt)
  | Some last =>
      (tc ++ [send_event w (config st)
                (history_summary w current_block wallet_balance subnet_info
                   stake_info (accumulated_history st) last)
                (msg_chat_id message);
              EClose sub],
       set_accumulated_history []
         (set_last_history_snapshot (Some snapshot) st), Returned tt)
  end ∧
  sent tc = [].
Proof.
  intros Hverb (subnets & Hacq & Hb & Hs & Hk & Hbal & Hinfo) snapshot.
  rewrite (handle_history _ _ Hverb).
  split; [by eapply cmd_history_run |].
  pose proof (get_working_subtensor_sends_nothing w) as Hsent.
  by rewrite Hacq in Hsent.
Qed.

End HistoryCommand.

(** [sum] adds from the left; the total is that of adding from the right. *)
Lemma Qsum_foldr (xs : list Q) : (Qsum xs == foldr Qplus 0 xs)%Q.
Proof.
  unfold Qsum.
  assert (∀ acc, fold_left Qplus xs acc == acc + foldr Qplus 0 xs)%Q as Hacc.
  { induction xs as [|x xs IH]; intros acc; simpl; [ring |].
    rewrite IH. ring. }
  rewrite Hacc. ring.
Qed.

(** C7.  A [/history] that the gateway answers and that finds no snapshot
    stores the current state as the snapshot, sends only the notice that no
    previous history is available, and changes nothing else in the store.
    One that finds a snapshot sends one summary, with the elapsed time, the
    elapsed blocks, the sum of the stake amounts in the accumulated buffer
    and the profit and loss; it then replaces the snapshot and empties the
    accumulated buffer, leaving the batch buffer and the configuration as
    they were, so that a further answered [/history] right after it reports
    0 as the amount staked.  The amount in the summary is the total of the
    stake amounts of the events in the accumulated buffer. *)
Theorem history_bootstrap_and_report (py_int : string → option Z)
    (py_float : string → option Q) (w w' : World) (message : Message) (st : St)
    (tc tc' : list event) (sub sub' : handle) (current_block current_block' : Z)
    (stake_info stake_info' : list StakeInfo) (wallet_balance wallet_balance' : Q)
    (subnet_info subnet_info' : dict (Q * string)) :
  verb_of (msg_text message) = Some "/history" →
  answers_history w tc sub current_block stake_info wallet_balance subnet_info →
  answers_history w' tc' sub' current_block' stake_info' wallet_balance'
    subnet_info' →
  let handle := handle_telegram_command py_int py_float in
  let out := handle w message st in
  let snapshot :=
    snapshot_of w current_block wallet_balance subnet_info stake_info in
  (last_history_snapshot st = None →
     sent (trace_of out) = [MsgHistoryCreated] ∧
     closed (trace_of out) = closed tc ++ [sub] ∧
     state_of out = set_last_history_snapshot (Some snapshot) st ∧
     accumulated_history (state_of out) = accumulated_history st ∧
     purchase_history (state_of out) = purchase_history st ∧
     result_of out = Returned tt) ∧
  (∀ last, last_history_snapshot st = Some last →
     sent (trace_of out) =
       [MsgHistory
          (w_time w - snap_time last)%Q
          (current_block - snap_block last)
          (Qsum (pe_stake_amount <$> accumulated_history st))
          (Qsum (dict_values (build_current_stakes stake_info))
           - Qsum (dict_values (snap_stakes last)))%Q
          ((wallet_balance
            + total_stake_value subnet_info (build_current_stakes stake_info))
           - (snap_wallet_balance last + snap_stake_value last))%Q
          (increases subnet_info (snap_stakes last)
             (build_current_stakes stake_info))] ∧
     last_history_snapshot (state_of out) = Some snapshot ∧
     accumulated_history (state_of out) = [] ∧
     purchase_history (state_of out) = purchase_history st ∧
     config (state_of out) = config st ∧
     result_of out = Returned tt ∧
     reported_amount_staked <$> sent (trace_of (handle w' message (state_of out)))
       = [Some 0%Q] ∧
     ∃ amount,
       reported_amount_staked <$> sent (trace_of out) = [Some amount] ∧
       (amount == foldr Qplus 0 (pe_stake_amount <$> accumulated_history st))%Q).
Proof.
  intros Hverb Hw Hw' handle out snapshot.
  destruct (handle_history_run py_int py_float w message st _ _ _ _ _ _ Hverb Hw)
    as [Hrun Hsent].
  fold handle in Hrun. fold out in Hrun. fold snapshot in Hrun.
  split.
  - intros Hnone. rewrite Hnone in Hrun. rewrite Hrun.
    unfold trace_of, state_of, result_of. simpl.
    split_and!; try done.
    + by rewrite sent_app, Hsent.
    + unfold closed. by rewrite omap_app.
  - intros last Hlast. rewrite Hlast in Hrun. rewrite Hrun.
    unfold trace_of, state_of, result_of. simpl.
    split_and!; try done.
    + by rewrite sent_app, Hsent.
    + destruct (handle_history_run py_int py_float w' message
                  (set_accumulated_history []
                     (set_last_history_snapshot (Some snapshot) st))
                  _ _ _ _ _ _ Hverb Hw') as [Hrun' Hsent'].
      fold handle in Hrun'. simpl in Hrun'. rewrite Hrun'. simpl.
      by rewrite sent_app, Hsent'.
    + exists (Qsum (pe_stake_amount <$> accumulated_history st)).
      split; [by rewrite sent_app, Hsent | apply Qsum_foldr].
Qed.

(** A [/history] after a first one and two block cycles that staked 1 each
    (the stake amount 1/2 times the multiplier 2 of subnet 2), the first of
    which also flushed the batch buffer: the accumulated buffer holds the
    events of blocks 30 and 31 and the batch buffer the one of block 31.
    The summary reports 60 seconds, 15 blocks, an amount staked of 2 and a
    profit of 10; the accumulated buffer is emptied and the batch buffer
    keeps its event; a third [/history] right after reports 0 staked. *)
Lemma history_bootstrap_and_report_witness :
  let out :=
    handle_telegram_command ex_int ex_float (ex_world 35 3 1060)
      (ex_message "/history") ex_store_staked_twice in
  pe_block <$> accumulated_history ex_store_staked_twice = [30; 31] ∧
  pe_stake_amount <$> accumulated_history ex_store_staked_twice
    = [((1 # 2) * 2)%Q; ((1 # 2) * 2)%Q] ∧
  (∃ amount, sent (trace_of out) = [MsgHistory 60 15 amount 0 10 []] ∧
     (amount == 2)%Q) ∧
  accumulated_history (state_of out) = [] ∧
  pe_block <$> purchase_history (state_of out) = [31] ∧
  reported_amount_staked <$>
    sent (trace_of (handle_telegram_command ex_int ex_float (ex_world 36 3 1070)
                      (ex_message "/history") (state_of out)))
    = [Some 0%Q].
Proof.
  intros out.
  destruct (history_bootstrap_and_report ex_int ex_float
              (ex_world 35 3 1060) (ex_world 36 3 1070)
              (ex_message "/history") ex_store_staked_twice
              [EOpen "finney" 1] [EOpen "finney" 1] ex_sub ex_sub 35 36
              ex_stakes ex_stakes 100 100 (ex_subnet_info 3) (ex_subnet_info 3))
    as [_ Hreport].
  - reflexivity.
  - exists (ex_subnets 3). by split_and!.
  - exists (ex_subnets 3). by split_and!.
  - destruct (Hreport (snapshot_of (ex_world 20 2 1000) 20 100
                         (ex_subnet_info 2) ex_stakes))
      as (Hsent & _ & Hacc & Hbatch & _ & _ & Hnext & _); [reflexivity |].
    split_and!.
    + reflexivity.
    + reflexivity.
    + eexists. split; [exact Hsent | by vm_compute].
    + exact Hacc.
    + fold out in Hbatch. by rewrite Hbatch.
    + exact Hnext.
Defined.

(** C8, as the code has it.  The profit and loss of a [/history] summary is
    (current wallet balance + current stake value) minus (wallet balance
    + stake value stored in the prior snapshot).  The current stake value is
    the sum, over the subnet ids of the current positions, of amount times
    the price listed in this invocation (0 when the subnet is not listed or
    is the root).  The stake value of the prior snapshot was computed the
    same way when that snapshot was taken, from the positions and the prices
    of that earlier invocation: for two answered invocations in a row, the
    second reports the difference of the two portfolio values, each at the
    prices of its own time. *)
Theorem history_pnl (py_int : string → option Z) (py_float : string → option Q)
    (w w' : World) (message : Message) (st : St)
    (tc tc' : list event) (sub sub' : handle) (current_block current_block' : Z)
    (stake_info stake_info' : list StakeInfo) (wallet_balance wallet_balance' : Q)
    (subnet_info subnet_info' : dict (Q * string)) :
  verb_of (msg_text message) = Some "/history" →
  answers_history w tc sub current_block stake_info wallet_balance subnet_info →
  answers_history w' tc' sub' current_block' stake_info' wallet_balance'
    subnet_info' →
  let handle := handle_telegram_command py_int py_float in
  let out := handle w message st in
  let value := total_stake_value subnet_info (build_current_stakes stake_info) in
  let value' := total_stake_value subnet_info' (build_current_stakes stake_info') in
  (∀ last, last_history_snapshot st = Some last →
     reported_pnl <$> sent (trace_of out) =
       [Some ((wallet_balance + value)
              - (snap_wallet_balance last + snap_stake_value last))%Q]) ∧
  (∃ snapshot, last_history_snapshot (state_of out) = Some snapshot ∧
     snap_wallet_balance snapshot = wallet_balance ∧
     snap_stake_value snapshot = value) ∧
  reported_pnl <$> sent (trace_of (handle w' message (state_of out))) =
    [Some ((wallet_balance' + value') - (wallet_balance + value))%Q].
Proof.
  intros Hverb Hw Hw' handle out value value'.
  destruct (handle_history_run py_int py_float w message st _ _ _ _ _ _ Hverb Hw)
    as [Hrun Hsent].
  fold handle in Hrun. fold out in Hrun.
  assert (last_history_snapshot (state_of out) =
          Some (snapshot_of w current_block wallet_balance subnet_info stake_info))
    as Hsnap.
  { rewrite Hrun. by destruct (last_history_snapshot st). }
  split_and!.
  - intros last Hlast. rewrite Hlast in Hrun. rewrite Hrun.
    unfold trace_of. simpl. by rewrite sent_app, Hsent.
  - by eexists.
  - destruct (handle_history_run py_int py_float w' message (state_of out)
                _ _ _ _ _ _ Hverb Hw') as [Hrun' Hsent'].
    fold handle in Hrun'. rewrite Hsnap in Hrun'. rewrite Hrun'.
    unfold trace_of. simpl. by rewrite sent_app, Hsent'.
Qed.

(** The example position of 10 on subnet 1, at price 2 and then 3. *)
Lemma history_pnl_witness :
  let st1 :=
    state_of (handle_telegram_command ex_int ex_float (ex_world 20 2 1000)
                (ex_message "/history") ex_store) in
  reported_pnl <$>
    sent (trace_of (handle_telegram_command ex_int ex_float (ex_world 25 3 1060)
                      (ex_message "/history") st1)) = [Some 10%Q].
Proof.
  intros st1.
  destruct (history_pnl ex_int ex_float
              (ex_world 20 2 1000) (ex_world 25 3 1060)
              (ex_message "/history") ex_store
              [EOpen "finney" 1] [EOpen "finney" 1] ex_sub ex_sub 20 25
              ex_stakes ex_stakes 100 100 (ex_subnet_info 2) (ex_subnet_info 3))
    as (_ & _ & Hpnl).
  - reflexivity.
  - exists (ex_subnets 2). by split_and!.
  - exists (ex_subnets 3). by split_and!.
  - exact Hpnl.
Defined.

(** C8, as the specification words it, fails.  A position of 10 on subnet 1
    is held throughout and the wallet balance stays at 100; the price of
    subnet 1 is 2 at the first [/history] and 3 at the second.  The second
    reports a profit of 10 = (100 + 10 * 3) - (100 + 10 * 2), where valuing
    the prior positions at the current price as well would give 0. *)
Lemma history_pnl_not_at_current_prices :
  let st1 :=
    state_of (handle_telegram_command ex_int ex_float (ex_world 20 2 1000)
                (ex_message "/history") ex_store) in
  let out :=
    handle_telegram_command ex_int ex_float (ex_world 25 3 1060)
      (ex_message "/history") st1 in
  ∃ last pnl,
    last_history_snapshot st1 = Some last ∧
    reported_pnl <$> sent (trace_of out) = [Some pnl] ∧
    (pnl == 10)%Q ∧
    (pnl_at_current_prices 100 (ex_subnet_info 3)
       (build_current_stakes ex_stakes) last == 0)%Q ∧
    ¬ (pnl == pnl_at_current_prices 100 (ex_subnet_info 3)
                (build_current_stakes ex_stakes) last)%Q.
Proof.
  eexists _, _. split_and!; [reflexivity | reflexivity | done | done |].
  vm_compute. discriminate.
Qed.

(** ** [/balance] *)

(** The loop of [/balance] raises as soon as a position has a positive
    amount, and otherwise adds no line. *)
Lemma balance_lines_positive stake_info todo msg_lines :
  Exists (λ stake, (0 < float_or_zero (si_stake stake))%Q) todo →
  balance_lines stake_info todo msg_lines = Raised AttributeError.
Proof.
  intros Hex. induction todo as [|stake rest IH]; [by inversion Hex |].
  simpl. destruct (Qltb 0 _) eqn:Hpos; [done |].
  apply Qltb_ge in Hpos.
  inversion Hex as [? ? Hhead | ? ? Htail]; subst; [lra | by apply IH].
Qed.

Lemma balance_lines_none_positive stake_info todo msg_lines :
  Forall (λ stake, (float_or_zero (si_stake stake) <= 0)%Q) todo →
  balance_lines stake_info todo msg_lines = Returned msg_lines.
Proof.
  induction 1 as [|stake rest Hhead _ IH]; [done |].
  simpl. by rewrite (proj2 (Qltb_ge _ _) Hhead).
Qed.

Section Balance.

Context (w : World) (tc : list event) (sub : handle) (current_block : Z)
  (stake_info : list StakeInfo) (wallet_balance : Q).

(** The gateway is reached and answers every query of [/balance]. *)
Hypothesis Hacquire : get_working_subtensor w = (tc, Returned sub).
Hypothesis Hblock : w_current_block w = Returned current_block.
Hypothesis Hstakes : w_stake_for_coldkey w = Returned stake_info.
Hypothesis Hbalance : w_balance w = Returned wallet_balance.

(** With a position of positive amount in the answer, [/balance] raises
    [AttributeError] after the queries: nothing is sent and the session is
    not closed. *)
Lemma cmd_balance_positive_stake chat_id st :
  Exists (λ stake, (0 < float_or_zero (si_stake stake))%Q) stake_info →
  cmd_balance w chat_id st = (tc, st, Raised AttributeError).
Proof.
  intros Hex. unfold cmd_balance, acquire, close, bind, try_, lift_trace.
  rewrite Hacquire. simpl. rewrite Hblock. simpl. rewrite Hstakes. simpl.
  rewrite Hbalance. simpl.
  destruct stake_info as [|stake rest] eqn:Hlist; [by inversion Hex |].
  rewrite (balance_lines_positive _ _ _ Hex). simpl.
  by rewrite ?app_nil_r.
Qed.

(** Without one, it sends the summary and closes the session. *)
Lemma cmd_balance_no_positive_stake chat_id st :
  Forall (λ stake, (float_or_zero (si_stake stake) <= 0)%Q) stake_info →
  cmd_balance w chat_id st =
  (tc ++ [send_event w (config st)
            (MsgBalance wallet_balance current_block
               (if stake_info is [] then None else Some [])) chat_id;
          EClose sub],
   st, Returned tt).
Proof.
  intros Hall. unfold cmd_balance, acquire, close, bind, try_, lift_trace.
  rewrite Hacquire. simpl. rewrite Hblock. simpl. rewrite Hstakes. simpl.
  rewrite Hbalance. cbn -[balance_lines send_telegram_message].
  destruct stake_info as [|stake rest] eqn:Hlist; cbn -[balance_lines send_telegram_message].
  - rewrite send_telegram_message_run. simpl. by rewrite ?app_nil_r.
  - rewrite (balance_lines_none_positive _ _ _ Hall).
    cbn -[send_telegram_message]. rewrite send_telegram_message_run. simpl.
    by rewrite ?app_nil_r.
Qed.

End Balance.

(** C9, on the failing input.  The gateway is reached at the first attempt
    and answers [/balance] with one position of amount 10: the handler
    raises [AttributeError], having sent nothing and closed nothing, so the
    session it acquired stays open. *)
Theorem balance_positive_stake_leaks :
  let out :=
    handle_telegram_command ex_int ex_float (ex_world 20 2 1000)
      (ex_message "/balance") ex_store in
  get_working_subtensor (ex_world 20 2 1000) = ([EOpen "finney" 1], Returned ex_sub) ∧
  w_stake_for_coldkey (ex_world 20 2 1000) = Returned ex_stakes ∧
  result_of out = Raised AttributeError ∧
  trace_of out = [EOpen "finney" 1] ∧
  sent (trace_of out) = [] ∧
  closed (trace_of out) = [].
Proof. by split_and!. Qed.

(** ** Rejected commands *)

Section Rejects.

Context (py_int : string → option Z) (py_float : string → option Q).

Local Abbreviation handle := (handle_telegram_command py_int py_float).

(** A text without tokens gets the reply "Invalid command.". *)
Lemma handle_no_token w message st :
  split (msg_text message) = [] →
  handle w message st = replied w st MsgInvalidCommand (msg_chat_id message).
Proof.
  intros Hparts. unfold handle_telegram_command. rewrite Hparts.
  apply send_telegram_message_run.
Qed.

(** A verb that is not recognized falls through every test of the handler:
    nothing is sent and nothing changes. *)
Lemma handle_unknown_verb w message st first rest :
  split (msg_text message) = first :: rest →
  lower first ∉ recognized_commands →
  handle w message st = ([], st, Returned tt).
Proof.
  intros Hparts Hunknown. unfold handle_telegram_command. rewrite Hparts.
  cbv zeta.
  assert (∀ verb, verb ∈ recognized_commands → lower first ≠ verb) as Hne.
  { intros verb Hverb Heq. apply Hunknown. by rewrite Heq. }
  rewrite !bool_decide_eq_false_2; [done | ..].
  - apply Hne. by apply (bool_decide_unpack _).
  - intros Hin. apply Hunknown. unfold recognized_commands.
    rewrite !elem_of_app. by auto.
  - apply Hne. by apply (bool_decide_unpack _).
  - apply Hne. by apply (bool_decide_unpack _).
  - apply Hne. by apply (bool_decide_unpack _).
  - apply Hne. by apply (bool_decide_unpack _).
Qed.

(** A command that takes a netuid, without one or with one that is not a
    number, gets a usage reply. *)
Lemma handle_netuid_missing w message st first :
  split (msg_text message) = [first] →
  lower first ∈ netuid_commands →
  handle w message st = replied w st MsgUsageNetuid (msg_chat_id message).
Proof.
  intros Hparts Hverb. unfold handle_telegram_command. rewrite Hparts.
  cbv zeta. unfold netuid_commands in Hverb.
  rewrite !elem_of_cons, elem_of_nil in Hverb.
  destruct_or!; try done; rewrite Hverb; apply send_telegram_message_run.
Qed.

Lemma handle_netuid_not_numeric w message st first arg rest :
  split (msg_text message) = first :: arg :: rest →
  lower first ∈ netuid_commands →
  py_int arg = None →
  handle w message st = replied w st MsgUsageNumericNetuid (msg_chat_id message).
Proof.
  intros Hparts Hverb Hint. unfold handle_telegram_command. rewrite Hparts.
  cbv zeta. unfold netuid_commands in Hverb.
  rewrite !elem_of_cons, elem_of_nil in Hverb.
  destruct_or!; try done; rewrite Hverb; simpl; rewrite Hint;
    apply send_telegram_message_run.
Qed.

(** [/unstake] and [/stake] without an amount, or with one that is not a
    number, get a usage reply. *)
Lemma handle_amount_missing w message st first arg n :
  split (msg_text message) = [first; arg] →
  py_int arg = Some n →
  (lower first = "/unstake" →
   handle w message st = replied w st MsgUsageUnstake (msg_chat_id message)) ∧
  (lower first = "/stake" →
   handle w message st = replied w st MsgUsageStake (msg_chat_id message)).
Proof.
  intros Hparts Hint.
  split; intros Hverb; unfold handle_telegram_command; rewrite Hparts;
    cbv zeta; rewrite Hverb; simpl; rewrite Hint;
    apply send_telegram_message_run.
Qed.

Lemma handle_amount_not_numeric w message st first arg amount rest n :
  split (msg_text message) = first :: arg :: amount :: rest →
  py_int arg = Some n →
  py_float amount = None →
  (lower first = "/unstake" →
   handle w message st =
   replied w st MsgUsageUnstakeNumber (msg_chat_id message)) ∧
  (lower first = "/stake" →
   handle w message st = replied w st MsgUsageStakeNumber (msg_chat_id message)).
Proof.
  intros Hparts Hint Hfloat.
  split; intros Hverb; unfold handle_telegram_command; rewrite Hparts;
    cbv zeta; rewrite Hverb; simpl; rewrite Hint;
    unfold netuid_command, cmd_unstake, cmd_stake; simpl; rewrite Hfloat;
    apply send_telegram_message_run.
Qed.

(** [/amount] with a value that is not a number gets a usage reply. *)
Lemma handle_set_amount_not_numeric w message st first arg rest :
  split (msg_text message) = first :: arg :: rest →
  lower first = "/amount" →
  py_float arg = None →
  handle w message st = replied w st MsgUsageAmount (msg_chat_id message).
Proof.
  intros Hparts Hverb Hfloat. unfold handle_telegram_command. rewrite Hparts.
  cbv zeta. rewrite Hverb. simpl. unfold cmd_amount. simpl. rewrite Hfloat.
  apply send_telegram_message_run.
Qed.

(** [/amount] without a value raises [IndexError]: [parts[1]] is read
    inside a [try] that only catches [ValueError]. *)
Lemma handle_set_amount_missing w message st first :
  split (msg_text message) = [first] →
  lower first = "/amount" →
  handle w message st = ([], st, Raised IndexError).
Proof.
  intros Hparts Hverb. unfold handle_telegram_command. rewrite Hparts.
  cbv zeta. by rewrite Hverb.
Qed.

End Rejects.

(** C4, as the code has it.  A text without any token gets the reply
    "Invalid command.".  A first token that is not a recognized verb gets no
    reply at all.  A command that takes a netuid gets a usage reply when the
    netuid is missing or is not a number; [/unstake] and [/stake] get one
    when the amount is missing or is not a number; [/amount] gets one when
    its value is not a number.  In each of these cases the handler returns
    with the store as it was and no call other than the reply. *)
Theorem handle_rejects (py_int : string → option Z) (py_float : string → option Q)
    (w : World) (message : Message) (st : St) :
  let parts := split (msg_text message) in
  let chat_id := msg_chat_id message in
  let out := handle_telegram_command py_int py_float w message st in
  (parts = [] → out = replied w st MsgInvalidCommand chat_id) ∧
  (∀ first rest, parts = first :: rest →
     lower first ∉ recognized_commands → out = ([], st, Returned tt)) ∧
  (∀ first, parts = [first] → lower first ∈ netuid_commands →
     out = replied w st MsgUsageNetuid chat_id) ∧
  (∀ first arg rest, parts = first :: arg :: rest →
     lower first ∈ netuid_commands → py_int arg = None →
     out = replied w st MsgUsageNumericNetuid chat_id) ∧
  (∀ first arg n, parts = [first; arg] → py_int arg = Some n →
     (lower first = "/unstake" → out = replied w st MsgUsageUnstake chat_id) ∧
     (lower first = "/stake" → out = replied w st MsgUsageStake chat_id)) ∧
  (∀ first arg amount rest n, parts = first :: arg :: amount :: rest →
     py_int arg = Some n → py_float amount = None →
     (lower first = "/unstake" →
      out = replied w st MsgUsageUnstakeNumber chat_id) ∧
     (lower first = "/stake" →
      out = replied w st MsgUsageStakeNumber chat_id)) ∧
  (∀ first arg rest, parts = first :: arg :: rest →
     lower first = "/amount" → py_float arg = None →
     out = replied w st MsgUsageAmount chat_id).
Proof.
  intros parts chat_id out. split_and!.
  - apply handle_no_token.
  - intros first rest. apply handle_unknown_verb.
  - intros first. apply handle_netuid_missing.
  - intros first arg rest. apply handle_netuid_not_numeric.
  - intros first arg n. apply handle_amount_missing.
  - intros first arg amount rest n. apply handle_amount_not_numeric.
  - intros first arg rest. apply handle_set_amount_not_numeric.
Qed.

(** An unknown verb and a netuid that is not a number. *)
Lemma handle_rejects_witness :
  handle_telegram_command ex_int ex_float (ex_world 20 2 1000)
    (ex_message "/foo") ex_store = ([], ex_store, Returned tt) ∧
  handle_telegram_command ex_int ex_float (ex_world 20 2 1000)
    (ex_message "/boost five") ex_store =
  replied (ex_world 20 2 1000) ex_store MsgUsageNumericNetuid 7.
Proof.
  split.
  - destruct (handle_rejects ex_int ex_float (ex_world 20 2 1000)
                (ex_message "/foo") ex_store) as (_ & Hunknown & _).
    apply (Hunknown "/foo" []); [reflexivity |].
    by apply (bool_decide_unpack _).
  - destruct (handle_rejects ex_int ex_float (ex_world 20 2 1000)
                (ex_message "/boost five") ex_store)
      as (_ & _ & _ & Hnumeric & _).
    apply (Hnumeric "/boost" "five" []); [reflexivity | | reflexivity].
    by apply (bool_decide_unpack _).
Defined.

(** The replies to a blank text and to commands that lack an argument or
    carry one that is not a number. *)
Example usage_replies :
  let run text :=
    handle_telegram_command ex_int ex_float (ex_world 20 2 1000)
      (ex_message text) ex_store in
  let reply text := ([ESendTelegram 7 text Posted], ex_store, Returned tt) in
  run "   " = reply MsgInvalidCommand ∧
  run "/boost" = reply MsgUsageNetuid ∧
  run "/Slash five" = reply MsgUsageNumericNetuid ∧
  run "/stake 1" = reply MsgUsageStake ∧
  run "/unstake 1 much" = reply MsgUsageUnstakeNumber ∧
  run "/amount much" = reply MsgUsageAmount.
Proof. by split_and!. Qed.

(** C4, as the specification words it, fails on two inputs.  The text
    [/foo], whose verb is not recognized, gets no reply, where the claim
    promises "invalid command"; and the text [/amount], which lacks its
    value, gets no usage reply: the handler raises [IndexError]. *)
Lemma unknown_verb_and_bare_amount_get_no_reply :
  let run text :=
    handle_telegram_command ex_int ex_float (ex_world 20 2 1000)
      (ex_message text) ex_store in
  verb_of "/foo" = Some "/foo" ∧ ("/foo" ∉ recognized_commands) ∧
  run "/foo" = ([], ex_store, Returned tt) ∧
  (MsgInvalidCommand ∉ sent (trace_of (run "/foo"))) ∧
  verb_of "/amount" = Some "/amount" ∧ ("/amount" ∈ recognized_commands) ∧
  run "/amount" = ([], ex_store, Raised IndexError) ∧
  (MsgUsageAmount ∉ sent (trace_of (run "/amount"))).
Proof.
  intros run. split_and!; try reflexivity.
  - by apply (bool_decide_unpack _).
  - apply not_elem_of_nil.
  - by apply (bool_decide_unpack _).
  - apply not_elem_of_nil.
Qed.

(** ** The control-poll cycle *)

Section Polling.

Context (py_int : string → option Z) (py_float : string → option Q).

Local Abbreviation handle := (handle_telegram_command py_int py_float).
Local Abbreviation updates_loop := (handle_updates py_int py_float).
Local Abbreviation loop := (poll_loop py_int py_float).

(** A failing poll is logged and followed by the wait and the next poll,
    from the same cursor and store. *)
Lemma poll_loop_fetch_fails e rest offset st :
  loop (PollFails e :: rest) offset st =
  (EGetUpdates offset :: EConsole (PanelPollError e) :: ESleep poll_interval
     :: trace_of (loop rest offset st),
   state_of (loop rest offset st), result_of (loop rest offset st)).
Proof.
  simpl. unfold bind, emit. simpl.
  by destruct (poll_loop py_int py_float rest offset st) as [[t st'] [a | e']].
Qed.

(** An exception of the handler leaves the loop over the updates. *)
Lemma handle_updates_handler_raises update w message more offset st t st' e :
  upd_message update = Some message →
  handle w message st = (t, st', Raised e) →
  updates_loop ((update, w) :: more) offset st = (t, st', Raised e).
Proof.
  intros Hmsg Hraise. simpl. rewrite Hmsg. unfold bind. by rewrite Hraise.
Qed.

(** An exception that leaves the loop over the updates leaves the poll
    loop: nothing is logged, there is no wait and no further poll. *)
Lemma poll_loop_updates_raise updates rest offset st t st' e :
  updates_loop updates offset st = (t, st', Raised e) →
  loop (PollReturns updates :: rest) offset st =
  (EGetUpdates offset :: t, st', Raised e).
Proof.
  intros Hraise. simpl. unfold bind at 1. unfold emit.
  unfold bind at 1. by rewrite Hraise.
Qed.

(** When every handler returns, the loop waits and polls again from the
    new cursor. *)
Lemma poll_loop_updates_return updates rest offset st t st' offset' :
  updates_loop updates offset st = (t, st', Returned offset') →
  loop (PollReturns updates :: rest) offset st =
  (EGetUpdates offset :: t ++ ESleep poll_interval
     :: trace_of (loop rest offset' st'),
   state_of (loop rest offset' st'), result_of (loop rest offset' st')).
Proof.
  intros Hret. simpl. unfold bind at 1. unfold emit.
  unfold bind at 1. rewrite Hret. unfold bind.
  by destruct (poll_loop py_int py_float rest offset' st') as [[t2 st2] [a | e']].
Qed.

(** With a token configured, [poll_telegram_updates] is the poll loop from
    cursor 0; without one it returns at once. *)
Lemma poll_telegram_updates_run script st :
  poll_telegram_updates py_int py_float script st =
  if bool_decide (telegram_token (config st) = "")
  then ([], st, Returned None)
  else (trace_of (loop script 0 st), state_of (loop script 0 st),
        match result_of (loop script 0 st) with
        | Returned offset => Returned (Some offset)
        | Raised e => Raised e
        end).
Proof.
  unfold poll_telegram_updates. rewrite bind_get.
  destruct (bool_decide _); [done |]. unfold bind.
  destruct (poll_loop py_int py_float script 0 st) as [[t st'] [offset | e]];
    simpl; by rewrite ?app_nil_r.
Qed.

End Polling.

(** C5, as the code has it.  An error of the poll itself (the request or
    the decoding of its answer) is caught, printed, and followed by the
    normal wait and the next poll.  An error raised while a message is
    handled is not caught by the poll cycle: it ends the loop over the
    updates and the poll loop at once, without a log entry, a wait or a
    further poll; when every message of a poll is handled without error the
    cycle waits and polls again. *)
Theorem poll_loop_error_containment (py_int : string → option Z)
    (py_float : string → option Q) (rest : list PollStep) (offset : Z) (st : St) :
  let loop := poll_loop py_int py_float in
  (∀ e,
     loop (PollFails e :: rest) offset st =
     (EGetUpdates offset :: EConsole (PanelPollError e) :: ESleep poll_interval
        :: trace_of (loop rest offset st),
      state_of (loop rest offset st), result_of (loop rest offset st))) ∧
  (∀ update w message more t st' e,
     upd_message update = Some message →
     handle_telegram_command py_int py_float w message st = (t, st', Raised e) →
     loop (PollReturns ((update, w) :: more) :: rest) offset st =
     (EGetUpdates offset :: t, st', Raised e)) ∧
  (∀ updates t st' e,
     handle_updates py_int py_float updates offset st = (t, st', Raised e) →
     loop (PollReturns updates :: rest) offset st =
     (EGetUpdates offset :: t, st', Raised e)) ∧
  (∀ updates t st' offset',
     handle_updates py_int py_float updates offset st = (t, st', Returned offset') →
     loop (PollReturns updates :: rest) offset st =
     (EGetUpdates offset :: t ++ ESleep poll_interval
        :: trace_of (loop rest offset' st'),
      state_of (loop rest offset' st'), result_of (loop rest offset' st'))).
Proof.
  intros loop. split_and!.
  - intros e. apply poll_loop_fetch_fails.
  - intros update w message more t st' e Hmsg Hraise.
    apply poll_loop_updates_raise.
    by eapply handle_updates_handler_raises.
  - intros updates t st' e. apply poll_loop_updates_raise.
  - intros updates t st' offset'. apply poll_loop_updates_return.
Qed.

(** A poll whose message makes the handler raise. *)
Lemma poll_loop_error_containment_witness :
  result_of
    (poll_loop ex_int ex_float
       [ PollReturns [ ({| update_id := 1;
                           upd_message := Some (ex_message "/amount") |},
                        ex_world 20 2 1000) ];
         PollReturns [] ] 0 ex_store) = Raised IndexError.
Proof.
  destruct (poll_loop_error_containment ex_int ex_float [PollReturns []] 0 ex_store)
    as (_ & Hhandler & _).
  by rewrite (Hhandler {| update_id := 1;
                          upd_message := Some (ex_message "/amount") |}
                (ex_world 20 2 1000) (ex_message "/amount") [] [] ex_store
                IndexError eq_refl eq_refl).
Defined.

(** A poll that fails is logged and followed by the next one, which here
    delivers [/pause]. *)
Example failed_poll_is_followed_by_the_next :
  let script :=
    [ PollFails (HTTPError "timeout");
      PollReturns [ ({| update_id := 4;
                        upd_message := Some (ex_message "/pause") |},
                     ex_world 20 2 1000) ] ] in
  let out := poll_telegram_updates ex_int ex_float script ex_store in
  trace_of out =
    [EGetUpdates 0; EConsole (PanelPollError (HTTPError "timeout")); ESleep 3;
     EGetUpdates 0; ESendTelegram 7 MsgPaused Posted; ESleep 3] ∧
  state_of out = ex_store_paused ∧
  result_of out = Returned (Some 5).
Proof. by split_and!. Qed.

(** C5, as the specification words it, fails.  The first poll yields the
    message [/amount], whose handling raises [IndexError]; a second poll is
    scripted but never made: the poll cycle ends with that exception, with
    nothing logged and no wait. *)
Lemma handler_error_ends_polling :
  let script :=
    [ PollReturns [ ({| update_id := 1;
                        upd_message := Some (ex_message "/amount") |},
                     ex_world 20 2 1000) ];
      PollReturns [] ] in
  let out := poll_telegram_updates ex_int ex_float script ex_store in
  result_of out = Raised IndexError ∧
  trace_of out = [EGetUpdates 0] ∧
  state_of out = ex_store.
Proof. by split_and!. Qed.

(** * Part III: further properties of the code *)

(** ** Stake positions and the display table *)

Lemma last_such_snoc {A} (test : A → bool) (l : list A) (x : A) :
  last_such test (l ++ [x]) = if test x then Some x else last_such test l.
Proof.
  unfold last_such. rewrite List.filter_app. simpl.
  destruct (test x); [apply last_snoc | by rewrite app_nil_r].
Qed.

(** The loop of [get_stake_info], from any map. *)
Lemma get_stake_info_fold (validator : string) (stakes : list StakeInfo)
    (d : gmap Z StakeInfo) (n : Z) :
  fold_left (λ d stake,
      if bool_decide (si_hotkey_ss58 stake = validator)
      then <[si_netuid stake := stake]> d else d) stakes d !! n =
  match last_such (position_of validator n) stakes with
  | Some stake => Some stake
  | None => d !! n
  end.
Proof.
  induction stakes as [|stake stakes IH] using rev_ind; [done |].
  rewrite fold_left_app, last_such_snoc. simpl. unfold position_of at 1.
  destruct (bool_decide (si_hotkey_ss58 stake = validator)) eqn:Hhot.
  - destruct (bool_decide (si_netuid stake = n)) eqn:Hnet; simpl.
    + apply bool_decide_eq_true in Hnet. subst n. by rewrite lookup_insert_eq.
    + apply bool_decide_eq_false in Hnet. by rewrite lookup_insert_ne.
  - by rewrite andb_false_r.
Qed.

(** X1.  [get_stake_info] maps a subnet id to the last position listed for
    it under the validator's hotkey, and has no entry for a subnet without
    such a position: positions under other hotkeys are ignored and earlier
    positions of the same subnet are replaced. *)
Theorem get_stake_info_lookup (validator : string) (stakes : list StakeInfo) (n : Z) :
  get_stake_info validator stakes !! n = last_such (position_of validator n) stakes.
Proof.
  unfold get_stake_info. rewrite get_stake_info_fold.
  by destruct (last_such _ _).
Qed.

(** One turn of the loop of [build_display_table]. *)
Lemma display_step_shown stake_info exclude_list preferences chosen_netuid
    stake_action rows total_stake total_stake_value total_price (s : Subnet) :
  shown s = true →
  display_step stake_info exclude_list preferences chosen_netuid stake_action
    (rows, (total_stake, total_stake_value, total_price)) s =
  let r := row_of stake_info exclude_list preferences chosen_netuid stake_action s in
  (rows ++ [r],
   ((total_stake + row_stake r)%Q,
    (total_stake_value + row_stake r * row_price r)%Q,
    (total_price + row_price r)%Q)).
Proof.
  unfold shown, display_step. intros [Hroot Hprice]%andb_true_iff.
  apply negb_true_iff in Hroot, Hprice. by rewrite Hroot, Hprice.
Qed.

Lemma display_step_hidden stake_info exclude_list preferences chosen_netuid
    stake_action (acc : list Row * (Q * Q * Q)) (s : Subnet) :
  shown s = false →
  display_step stake_info exclude_list preferences chosen_netuid stake_action acc s
  = acc.
Proof.
  unfold shown, display_step. destruct acc as [rows [[a b] c]].
  destruct (bool_decide (netuid s = 0)); [done |]. simpl.
  intros Hprice%negb_false_iff. by rewrite Hprice.
Qed.

(** The loop of [build_display_table], from any rows and totals. *)
Lemma display_fold stake_info exclude_list preferences chosen_netuid stake_action
    (subnets : list Subnet) : ∀ rows total_stake total_stake_value total_price,
  fold_left
    (display_step stake_info exclude_list preferences chosen_netuid stake_action)
    subnets (rows, (total_stake, total_stake_value, total_price)) =
  let new :=
    row_of stake_info exclude_list preferences chosen_netuid stake_action
      <$> List.filter shown subnets in
  (rows ++ new,
   (fold_left Qplus (row_stake <$> new) total_stake,
    fold_left Qplus ((λ r, row_stake r * row_price r)%Q <$> new) total_stake_value,
    fold_left Qplus (row_price <$> new) total_price)).
Proof.
  induction subnets as [|s subnets IH]; intros rows a b c.
  { simpl. by rewrite app_nil_r. }
  cbn [fold_left List.filter]. destruct (shown s) eqn:Hshown.
  - rewrite display_step_shown by done. cbv zeta. rewrite IH.
    cbn [fmap list_fmap fold_left]. by rewrite <- (assoc_L (++)).
  - rewrite display_step_hidden by done. apply IH.
Qed.

(** X2.  The table of [build_display_table] has one row for each listed
    subnet that is not the root and whose price converts and is above 0, in
    the order of the listing, with that subnet's name, price, emission,
    score, multiplier (1.0 by default) and the validator's stake on it (0
    without a position).  A row of an excluded subnet reads "Excluded" even
    when that subnet is the chosen one; otherwise the row of the chosen
    subnet carries the stake action and every other row is blank. *)
Theorem build_display_table_rows (subnets : list Subnet)
    (stake_info : gmap Z StakeInfo) (exclude_list : list Z)
    (preferences : gmap string Q) (chosen_netuid : option Z)
    (stake_action : StakeAction) (wallet_balance : Q) :
  let rows :=
    (build_display_table subnets stake_info exclude_list preferences
       chosen_netuid stake_action wallet_balance).1 in
  rows = row_of stake_info exclude_list preferences chosen_netuid stake_action
           <$> List.filter shown subnets ∧
  row_netuid <$> rows = netuid <$> List.filter shown subnets ∧
  Forall (λ r, row_netuid r ≠ 0 ∧ (0 < row_price r)%Q) rows ∧
  Forall (λ r,
      (row_netuid r ∈ exclude_list → row_action r = RowExcluded) ∧
      (row_netuid r ∉ exclude_list → chosen_netuid = Some (row_netuid r) →
       row_action r = RowChosen stake_action) ∧
      (row_netuid r ∉ exclude_list → chosen_netuid ≠ Some (row_netuid r) →
       row_action r = RowBlank)) rows.
Proof.
  intros rows.
  assert (rows = row_of stake_info exclude_list preferences chosen_netuid
                   stake_action <$> List.filter shown subnets) as Hrows.
  { unfold rows, build_display_table. by rewrite display_fold. }
  split_and!; [done | ..].
  - rewrite Hrows, <- list_fmap_compose. by apply list_fmap_ext.
  - rewrite Hrows, Forall_fmap, Forall_forall.
    intros s [_ Hshown]%list_elem_of_In%List.filter_In. simpl.
    unfold shown in Hshown. apply andb_true_iff in Hshown as [Hroot Hprice].
    apply negb_true_iff, bool_decide_eq_false in Hroot.
    apply negb_true_iff, Qle_bool_gt in Hprice. done.
  - rewrite Hrows, Forall_fmap, Forall_forall. intros s _. simpl.
    repeat case_bool_decide; by split_and!.
Qed.

(** X3.  The totals in the summary of [build_display_table] are the sums
    over the rows of the table: of the prices, of the stakes, and of stake
    times price; the wallet balance is passed through.  A subnet without a
    row (the root, or one without a positive price) adds to none of them. *)
Theorem build_display_table_totals (subnets : list Subnet)
    (stake_info : gmap Z StakeInfo) (exclude_list : list Z)
    (preferences : gmap string Q) (chosen_netuid : option Z)
    (stake_action : StakeAction) (wallet_balance : Q) :
  let out :=
    build_display_table subnets stake_info exclude_list preferences
      chosen_netuid stake_action wallet_balance in
  sum_total_price out.2 = Qsum (row_price <$> out.1) ∧
  sum_total_stake out.2 = Qsum (row_stake <$> out.1) ∧
  sum_total_stake_value out.2 =
    Qsum ((λ r, row_stake r * row_price r)%Q <$> out.1) ∧
  sum_wallet_balance out.2 = wallet_balance.
Proof.
  intros out. unfold out, build_display_table. by rewrite display_fold.
Qed.

(** ** More on the selection *)

Section SelectionFurther.

Context (exclude_list : list Z) (preferences : gmap string Q).

(** A subnet that is not eligible leaves the running best as it is. *)
Lemma select_step_ineligible acc s :
  eligible exclude_list s = false →
  select_step exclude_list preferences acc s = acc.
Proof.
  unfold eligible, select_step.
  destruct (bool_decide (netuid s = 0)); [done |].
  destruct (bool_decide (netuid s ∈ exclude_list)); [done |]. simpl.
  destruct (price s) as [p|]; [| done].
  intros Hp%negb_false_iff. by rewrite Hp.
Qed.

Lemma select_fold_eligible (subnets : list Subnet) : ∀ acc,
  fold_left (select_step exclude_list preferences) subnets acc =
  fold_left (select_step exclude_list preferences)
    (List.filter (eligible exclude_list) subnets) acc.
Proof.
  induction subnets as [|s subnets IH]; intros acc; [done |].
  cbn [fold_left List.filter]. destruct (eligible exclude_list s) eqn:Hel.
  - cbn [fold_left]. apply IH.
  - rewrite select_step_ineligible by done. apply IH.
Qed.

End SelectionFurther.

(** X4.  [select_best_subnet] returns the subnet [s] with the score [sc]
    exactly when [s] is, in the order of the listing, the first candidate
    whose effective score is above 0 and is reached by no other candidate;
    it returns no subnet exactly when no listed candidate has an effective
    score above 0.  So a subnet is selected whenever one can be. *)
Theorem select_best_subnet_characterised (subnets : list Subnet)
    (exclude_list : list Z) (preferences : gmap string Q) :
  (∀ s sc,
     select_best_subnet subnets exclude_list preferences = (Some s, sc) ↔
     ∃ i : nat, subnets !! i = Some s ∧
       candidate exclude_list preferences s sc ∧ (0 < sc)%Q ∧
       ∀ (j : nat) s' e', subnets !! j = Some s' →
         candidate exclude_list preferences s' e' →
         (e' <= sc)%Q ∧ ((j < i)%nat → (e' < sc)%Q)) ∧
  ((select_best_subnet subnets exclude_list preferences).1 = None ↔
   ∀ s' e', s' ∈ subnets → candidate exclude_list preferences s' e' →
     (e' <= 0)%Q).
Proof.
  pose proof (select_best_subnet_inv exclude_list preferences subnets) as Hinv.
  split.
  - intros s sc. split.
    + intros Heq. by rewrite Heq in Hinv.
    + intros (i & Hi & Hc & Hpos & Hmax).
      by eapply select_best_subnet_first_max.
  - unfold select_inv in Hinv.
    destruct (select_best_subnet subnets exclude_list preferences)
      as [[s|] sc]; simpl in *.
    + destruct Hinv as (i & Hi & Hc & Hpos & _). split; [done |].
      intros Hnone. specialize (Hnone s sc (list_elem_of_lookup_2 _ _ _ Hi) Hc).
      lra.
    + destruct Hinv as [_ Hnone]. split; [| done].
      intros _ s' e' [j Hj]%list_elem_of_lookup. by eapply Hnone.
Qed.

(** X5.  The root subnet, the excluded subnets and the subnets whose price
    does not convert or is not above 0 have no influence on the selection:
    [select_best_subnet] gives the same subnet and score on the listing with
    those entries removed, whatever their emission. *)
Theorem select_best_subnet_ignores_ineligible (subnets : list Subnet)
    (exclude_list : list Z) (preferences : gmap string Q) :
  select_best_subnet subnets exclude_list preferences =
  select_best_subnet (List.filter (eligible exclude_list) subnets)
    exclude_list preferences.
Proof. apply select_fold_eligible. Qed.

(** ** More on the block cycle *)

Global Instance cycle_frame_sequential : Sequential cycle_frame.
Proof.
  split.
  - intros st. by split_and!.
  - intros st t1 st1 t2 st2 (Ht1 & Hc1 & Hs1) (Ht2 & Hc2 & Hs2).
    split_and!; [by apply Forall_app | congruence | congruence].
Qed.

Lemma allocate_cycle_frame w sub stake_amount preferences current_block
    chosen_subnet best_score :
  always cycle_frame
    (allocate w sub stake_amount preferences current_block chosen_subnet best_score).
Proof.
  unfold allocate, stake_on_subnet.
  repeat always_step;
    first [ apply always_emit; intros; by split_and!; [repeat constructor | |]
          | apply always_modify; intros; by split_and! ].
Qed.

Lemma publish_cycle_frame w current_block summary :
  always cycle_frame (publish w current_block summary).
Proof.
  unfold publish, py_mod_is_zero.
  repeat always_step.
  - apply always_send. intros. by split_and!; [repeat constructor | |].
  - apply always_modify. intros. by split_and!.
Qed.

(** The allocation step of a paused cycle. *)
Lemma allocate_paused w sub stake_amount preferences current_block chosen_subnet
    best_score st :
  paused (config st) = true →
  allocate w sub stake_amount preferences current_block chosen_subnet best_score st
  = ([], st, Returned (ActPaused, None)).
Proof.
  intros Hp. unfold allocate. rewrite bind_get, Hp. by destruct chosen_subnet.
Qed.

(** The allocation step of an unpaused cycle that selected nothing. *)
Lemma allocate_unselected w sub stake_amount preferences current_block
    best_score st :
  paused (config st) = false →
  allocate w sub stake_amount preferences current_block None best_score st
  = ([], st, Returned (ActNone, None)).
Proof. intros Hp. unfold allocate. by rewrite bind_get, Hp. Qed.

(** The allocation step never raises. *)
Lemma allocate_returns w sub stake_amount preferences current_block chosen_subnet
    best_score st :
  ∃ a, result_of (allocate w sub stake_amount preferences current_block
                    chosen_subnet best_score st) = Returned a.
Proof.
  destruct (paused (config st)) eqn:Hp.
  { rewrite allocate_paused by done. by eauto. }
  destruct chosen_subnet as [chosen|]; last first.
  { rewrite allocate_unselected by done. by eauto. }
  destruct (Qltb 0 best_score) eqn:Hpos.
  - rewrite allocate_commits by done. destruct (w_add_stake w); by eauto.
  - unfold allocate. rewrite bind_get, Hp, Hpos. by eauto.
Qed.

(** The cycle head, by the answers of the gateway. *)
Lemma process_block_head_eval w sub st :
  process_block_head w sub st =
  match w_current_block w with
  | Raised e => ([], st, Raised e)
  | Returned current_block =>
  match w_all_subnets w with
  | Raised e => ([], st, Raised e)
  | Returned subnets =>
  match w_stake_for_coldkey w with
  | Raised e => ([], st, Raised e)
  | Returned _ =>
      let selected :=
        select_best_subnet subnets (exclude_list (config st))
          (preferences (config st)) in
      let out :=
        allocate w sub (stake_amount (config st)) (preferences (config st))
          current_block selected.1 selected.2 st in
      match result_of out with
      | Raised e => (trace_of out, state_of out, Raised e)
      | Returned a =>
      match w_stake_for_coldkey_after w with
      | Raised e => (trace_of out, state_of out, Raised e)
      | Returned stakes' =>
      match w_balance w with
      | Raised e => (trace_of out, state_of out, Raised e)
      | Returned wallet_balance =>
          let shown :=
            build_display_table subnets
              (get_stake_info (validator (config st)) stakes')
              (exclude_list (config st)) (preferences (config st))
              a.2 a.1 wallet_balance in
          (trace_of out ++ [EConsole (PanelSummary shown.2 shown.1)],
           state_of out, Returned (current_block, shown.2, selected))
      end end end
  end end end.
Proof.
  unfold process_block_head. rewrite bind_get.
  destruct (w_current_block w) as [current_block | e]; [| done].
  simpl await. rewrite bind_ret_l.
  destruct (w_all_subnets w) as [subnets | e]; [| done].
  simpl await. rewrite bind_ret_l.
  destruct (w_stake_for_coldkey w) as [stakes | e]; [| done].
  simpl await. rewrite bind_ret_l.
  destruct (select_best_subnet _ _ _) as [chosen_subnet best_score].
  cbv zeta. simpl fst. simpl snd.
  destruct (allocate _ _ _ _ _ _ _ st) as [[ta sta] [[stake_action chosen_netuid] | e]]
    eqn:Halloc.
  - rewrite (bind_returned _ _ _ _ _ _ Halloc).
    unfold trace_of, state_of, result_of. simpl.
    destruct (w_stake_for_coldkey_after w) as [stakes' | e];
      [| simpl; by rewrite app_nil_r].
    simpl await. rewrite bind_ret_l.
    destruct (w_balance w) as [wallet_balance | e];
      [| simpl; by rewrite app_nil_r].
    simpl await. rewrite bind_ret_l.
    by destruct (build_display_table _ _ _ _ _ _ _) as [table summary].
  - by rewrite (bind_raised _ _ _ _ _ _ Halloc).
Qed.

Lemma panels_app t1 t2 : panels (t1 ++ t2) = panels t1 ++ panels t2.
Proof. apply omap_app. Qed.

Global Instance prints_nothing_sequential : Sequential prints_nothing.
Proof.
  split.
  - done.
  - intros st t1 st1 t2 st2 H1 H2. unfold prints_nothing in *.
    by rewrite panels_app, H1, H2.
Qed.

(** After the display, a cycle prints nothing more. *)
Lemma process_block_tail_prints_nothing w sub
    (x : Z * Summary * (option Subnet * Q)) :
  always prints_nothing
    (let '(current_block, summary, selected) := x in
     publish w current_block summary ;;;
     emit (EWaitForBlock sub) ;;;
     await (w_wait_for_block w) ;;;
     ret selected).
Proof.
  destruct x as [[current_block summary] selected].
  unfold publish, py_mod_is_zero.
  repeat always_step;
    first [ by apply always_send | by apply always_modify | by apply always_emit ].
Qed.

Lemma process_block_panels w sub st :
  panels (trace_of (process_block w sub st)) =
  panels (trace_of (process_block_head w sub st)).
Proof.
  unfold process_block.
  destruct (bind_split prints_nothing (process_block_head w sub) _ st
              (process_block_tail_prints_nothing w sub)) as (t2 & -> & Ht2).
  unfold prints_nothing in Ht2. by rewrite panels_app, Ht2, app_nil_r.
Qed.

Lemma process_block_cycle_frame w sub : always cycle_frame (process_block w sub).
Proof.
  unfold process_block, process_block_head.
  repeat always_step;
    first [ apply allocate_cycle_frame
          | apply publish_cycle_frame
          | apply always_emit; intros; by split_and!; [repeat constructor | |] ].
Qed.

(** With an interval of 0 the publisher raises before it acts. *)
Lemma publish_zero_interval w current_block summary st :
  telegram_update_interval (config st) = 0 →
  publish w current_block summary st = ([], st, Raised ZeroDivisionError).
Proof.
  intros Hz. unfold publish, py_mod_is_zero. rewrite bind_get, Hz. done.
Qed.

(** The publisher returns when the interval is not 0. *)
Lemma publish_returns w current_block summary st :
  telegram_update_interval (config st) ≠ 0 →
  ∃ t st', publish w current_block summary st = (t, st', Returned tt).
Proof.
  intros Hnz. rewrite publish_run by done. cbv zeta.
  destruct (_ && _); by eauto.
Qed.

(** The result of a cycle whose head returned, with an interval other
    than 0. *)
Lemma process_block_result w sub st t1 st1 x :
  process_block_head w sub st = (t1, st1, Returned x) →
  telegram_update_interval (config st1) ≠ 0 →
  result_of (process_block w sub st) =
  match w_wait_for_block w with
  | Returned _ => Returned x.2
  | Raised e => Raised e
  end.
Proof.
  intros Hhead Hnz. unfold process_block.
  rewrite (bind_returned _ _ _ _ _ _ Hhead).
  destruct x as [[current_block summary] selected].
  destruct (publish_returns w current_block summary st1 Hnz) as (tp & stp & Hpub).
  unfold result_of at 1. simpl. rewrite (bind_returned _ _ _ _ _ _ Hpub).
  unfold bind, emit, await, result_of. simpl.
  by destruct (w_wait_for_block w) as [[] | e].
Qed.

(** X6.  A block cycle, whether it returns or raises, only stakes, sends,
    prints and waits for a block: it opens and closes no session, unstakes
    nothing and polls nothing; and it leaves the configuration (pause flag,
    multipliers, exclusions, stake amount) and the history snapshot as they
    are. *)
Theorem process_block_frame (w : World) (sub : handle) (st : St) :
  let out := process_block w sub st in
  (∀ ev, ev ∈ trace_of out →
     match ev with
     | EAddStake _ _ _ | ESendTelegram _ _ _ | EConsole _ | EWaitForBlock _ => True
     | _ => False
     end) ∧
  opens (trace_of out) = [] ∧ closed (trace_of out) = [] ∧
  config (state_of out) = config st ∧
  last_history_snapshot (state_of out) = last_history_snapshot st.
Proof.
  intros out. destruct (process_block_cycle_frame w sub st) as (Hev & Hc & Hs).
  fold out in Hev, Hc, Hs. rewrite Forall_forall in Hev.
  assert (∀ {A} (f : event → option A),
            (∀ ev, cycle_event ev = true → f ev = None) →
            omap f (trace_of out) = []) as Hnone.
  { intros A f Hf. induction (trace_of out) as [|ev t IH]; [done |].
    simpl. rewrite Hf by (apply Hev; left).
    apply IH. intros ev' Hin. apply Hev. by right. }
  split_and!; [| | | done | done].
  - intros ev Hin. specialize (Hev ev Hin). by destruct ev.
  - apply Hnone. by intros [].
  - apply Hnone. by intros [].
Qed.

(** X7.  A block cycle raises only what one of its five gateway queries or
    the wait for the next block raised, or [ZeroDivisionError] when the
    update interval is 0; an error of the [add_stake] call or of the
    Telegram POST never leaves the cycle.  When the gateway answers those
    six calls and the interval is not 0, the cycle returns; with an interval
    of 0 no cycle returns. *)
Theorem process_block_raises (w : World) (sub : handle) (st : St) :
  let out := process_block w sub st in
  (∀ e, result_of out = Raised e →
     w_current_block w = Raised e ∨ w_all_subnets w = Raised e ∨
     w_stake_for_coldkey w = Raised e ∨
     w_stake_for_coldkey_after w = Raised e ∨ w_balance w = Raised e ∨
     (e = ZeroDivisionError ∧ telegram_update_interval (config st) = 0) ∨
     w_wait_for_block w = Raised e) ∧
  (cycle_answered w = true → telegram_update_interval (config st) ≠ 0 →
   ∃ selected, result_of out = Returned selected) ∧
  (telegram_update_interval (config st) = 0 →
   ∀ selected, result_of out ≠ Returned selected).
Proof.
  intros out. unfold out, cycle_answered.
  pose proof (process_block_head_eval w sub st) as Hhead.
  destruct (w_current_block w) as [current_block | e1].
  2:{ unfold process_block. rewrite (bind_raised _ _ _ _ _ _ Hhead). simpl.
      split_and!; [| done | done]. intros e [= <-]. by left. }
  destruct (w_all_subnets w) as [subnets | e1].
  2:{ unfold process_block. rewrite (bind_raised _ _ _ _ _ _ Hhead). simpl.
      split_and!; [| done | done]. intros e [= <-]. by right; left. }
  destruct (w_stake_for_coldkey w) as [stakes | e1].
  2:{ unfold process_block. rewrite (bind_raised _ _ _ _ _ _ Hhead). simpl.
      split_and!; [| done | done]. intros e [= <-]. by right; right; left. }
  cbv zeta in Hhead.
  destruct (allocate_returns w sub (stake_amount (config st))
              (preferences (config st)) current_block
              (select_best_subnet subnets (exclude_list (config st))
                 (preferences (config st))).1
              (select_best_subnet subnets (exclude_list (config st))
                 (preferences (config st))).2 st) as [a Ha].
  destruct (allocate_cycle_frame w sub (stake_amount (config st))
              (preferences (config st)) current_block
              (select_best_subnet subnets (exclude_list (config st))
                 (preferences (config st))).1
              (select_best_subnet subnets (exclude_list (config st))
                 (preferences (config st))).2 st) as (_ & Hcfg & _).
  rewrite Ha in Hhead.
  destruct (w_stake_for_coldkey_after w) as [stakes' | e1].
  2:{ unfold process_block. rewrite (bind_raised _ _ _ _ _ _ Hhead). simpl.
      split_and!; [| done | done].
      intros e [= <-]. by right; right; right; left. }
  destruct (w_balance w) as [wallet_balance | e1].
  2:{ unfold process_block. rewrite (bind_raised _ _ _ _ _ _ Hhead). simpl.
      split_and!; [| done | done].
      intros e [= <-]. by right; right; right; right; left. }
  destruct (decide (telegram_update_interval (config st) = 0)) as [Hz | Hnz].
  - unfold process_block. rewrite (bind_returned _ _ _ _ _ _ Hhead).
    unfold result_of. simpl.
    rewrite (bind_raised _ _ _ _ _ _
               (publish_zero_interval w _ _ _ (eq_trans (f_equal _ Hcfg) Hz))).
    simpl. split_and!; [| done | done].
    intros e [= <-]. by right; right; right; right; right; left.
  - assert (telegram_update_interval
              (config (state_of
                 (allocate w sub (stake_amount (config st))
                    (preferences (config st)) current_block
                    (select_best_subnet subnets (exclude_list (config st))
                       (preferences (config st))).1
                    (select_best_subnet subnets (exclude_list (config st))
                       (preferences (config st))).2 st))) ≠ 0) as Hnz'
      by (by rewrite Hcfg).
    rewrite (process_block_result _ _ _ _ _ _ Hhead Hnz').
    destruct (w_wait_for_block w) as [[] | e1]; simpl.
    + split_and!; [done | by eauto | done].
    + split_and!; [| done | done]. intros e [= <-]. by repeat right.
Qed.

(** X8.  When an unpaused cycle has staked on the selected subnet and the
    refresh that follows (the validator's positions, then the wallet
    balance) raises, the cycle raises that error after the one [add_stake]
    call: the purchase is recorded in both buffers, but no table is printed
    and no digest is sent in that cycle. *)
Theorem process_block_refresh_fails_after_stake (w : World) (sub : handle)
    (st : St) (current_block : Z) (subnets : list Subnet)
    (stakes : list StakeInfo) (chosen : Subnet) (best_score : Q) (e : exn) :
  paused (config st) = false →
  w_current_block w = Returned current_block →
  w_all_subnets w = Returned subnets →
  w_stake_for_coldkey w = Returned stakes →
  select_best_subnet subnets (exclude_list (config st)) (preferences (config st))
    = (Some chosen, best_score) →
  w_add_stake w = Returned tt →
  w_stake_for_coldkey_after w = Raised e ∨
  (is_returned (w_stake_for_coldkey_after w) = true ∧ w_balance w = Raised e) →
  let pref_multiplier := pref_get (preferences (config st)) (netuid chosen) in
  let actual_stake := (stake_amount (config st) * pref_multiplier)%Q in
  let purchase_event :=
    {| pe_block := current_block; pe_netuid := netuid chosen;
       pe_subnet_name := subnet_name chosen;
       pe_stake_amount := actual_stake; pe_score := best_score;
       pe_pref_multiplier := pref_multiplier |} in
  process_block w sub st =
  ([EAddStake sub (netuid chosen) actual_stake],
   set_accumulated_history (accumulated_history st ++ [purchase_event])
     (set_purchase_history (purchase_history st ++ [purchase_event]) st),
   Raised e).
Proof.
  intros Hp Hb Hs Hk Hsel Hadd Hrefresh pref_multiplier actual_stake purchase_event.
  pose proof (select_best_subnet_positive _ _ _ _ _ Hsel) as Hpos.
  pose proof (process_block_head_eval w sub st) as Hhead.
  rewrite Hb, Hs, Hk, Hsel in Hhead. cbv zeta in Hhead. simpl fst in Hhead.
  simpl snd in Hhead.
  rewrite (allocate_commits _ _ _ _ _ _ _ _ Hp Hpos), Hadd in Hhead.
  unfold trace_of, state_of, result_of in Hhead. simpl in Hhead.
  unfold process_block. apply bind_raised. rewrite Hhead.
  destruct Hrefresh as [-> | [Hret ->]]; [done |].
  by destruct (w_stake_for_coldkey_after w).
Qed.

(** A gateway that fails the refresh after a successful stake. *)
Lemma process_block_refresh_fails_after_stake_witness :
  let out := process_block ex_refresh_fails_world ex_sub ex_store in
  add_stake_calls (trace_of out) = [(ex_sub, 2, ((1 # 2) * 2)%Q)] ∧
  pe_netuid <$> purchase_history (state_of out) = [2] ∧
  panels (trace_of out) = [] ∧
  result_of out = Raised (GatewayError "down").
Proof.
  intros out. unfold out.
  rewrite (process_block_refresh_fails_after_stake ex_refresh_fails_world
             ex_sub ex_store 20 (ex_subnets 2) ex_stakes
             {| netuid := 2; subnet_name := "beta"; symbol := "b";
                price := Some 4%Q; tao_in_emission := 6%Q |}
             (6 / 4 * 2)%Q (GatewayError "down"));
    [by split_and! | reflexivity | reflexivity | reflexivity | reflexivity
     | reflexivity | reflexivity | by left].
Defined.

Lemma elem_of_panels (t : list event) (p : panel) : p ∈ panels t ↔ EConsole p ∈ t.
Proof.
  unfold panels. rewrite list_elem_of_omap. split.
  - intros (ev & Hin & Hev). destruct ev; by simplify_eq.
  - intros Hin. by exists (EConsole p).
Qed.

Lemma allocate_prints_nothing w sub stake_amount preferences current_block
    chosen_subnet best_score :
  always prints_nothing
    (allocate w sub stake_amount preferences current_block chosen_subnet best_score).
Proof.
  unfold allocate, stake_on_subnet.
  repeat always_step; first [ by apply always_emit | by apply always_modify ].
Qed.

(** The one panel a cycle prints is the table built from the listing of
    the cycle, the refreshed positions and balance, and the outcome of the
    allocation step. *)
Lemma process_block_printed w sub st summary rows :
  EConsole (PanelSummary summary rows) ∈ trace_of (process_block w sub st) →
  ∃ current_block subnets stakes' wallet_balance a,
    w_current_block w = Returned current_block ∧
    w_all_subnets w = Returned subnets ∧
    w_stake_for_coldkey_after w = Returned stakes' ∧
    w_balance w = Returned wallet_balance ∧
    (let selected :=
       select_best_subnet subnets (exclude_list (config st))
         (preferences (config st)) in
     result_of (allocate w sub (stake_amount (config st))
                  (preferences (config st)) current_block
                  selected.1 selected.2 st) = Returned a) ∧
    (rows, summary) =
      build_display_table subnets
        (get_stake_info (validator (config st)) stakes')
        (exclude_list (config st)) (preferences (config st))
        a.2 a.1 wallet_balance.
Proof.
  rewrite <- elem_of_panels, process_block_panels, process_block_head_eval.
  destruct (w_current_block w) as [current_block | e];
    [| by intros ?%elem_of_nil].
  destruct (w_all_subnets w) as [subnets | e]; [| by intros ?%elem_of_nil].
  destruct (w_stake_for_coldkey w) as [stakes | e]; [| by intros ?%elem_of_nil].
  cbv zeta.
  pose proof (allocate_prints_nothing w sub (stake_amount (config st))
                (preferences (config st)) current_block
                (select_best_subnet subnets (exclude_list (config st))
                   (preferences (config st))).1
                (select_best_subnet subnets (exclude_list (config st))
                   (preferences (config st))).2 st) as Hquiet.
  unfold prints_nothing in Hquiet.
  destruct (result_of (allocate _ _ _ _ _ _ _ st)) as [a | e] eqn:Ha.
  2:{ unfold trace_of at 1. simpl. rewrite Hquiet. by intros ?%elem_of_nil. }
  destruct (w_stake_for_coldkey_after w) as [stakes' | e].
  2:{ unfold trace_of at 1. simpl. rewrite Hquiet. by intros ?%elem_of_nil. }
  destruct (w_balance w) as [wallet_balance | e].
  2:{ unfold trace_of at 1. simpl. rewrite Hquiet. by intros ?%elem_of_nil. }
  unfold trace_of at 1. simpl. rewrite panels_app, Hquiet. simpl.
  intros [= -> ->]%list_elem_of_singleton.
  exists current_block, subnets, stakes', wallet_balance, a.
  split_and!; [done | done | done | done | done |].
  by destruct (build_display_table _ _ _ _ _ _ _).
Qed.

(** The rows of the table. *)
Lemma build_display_table_fst subnets stake_info exclude_list preferences
    chosen_netuid stake_action wallet_balance :
  (build_display_table subnets stake_info exclude_list preferences
     chosen_netuid stake_action wallet_balance).1 =
  row_of stake_info exclude_list preferences chosen_netuid stake_action
    <$> List.filter shown subnets.
Proof. unfold build_display_table. by rewrite display_fold. Qed.

(** X9.  The table a paused cycle prints marks no row with an action: each
    row reads "Excluded" or is blank.  The text "Paused" that the cycle sets
    as its stake action is shown on no row, since the table only shows the
    action on the row of the chosen subnet and a paused cycle has none. *)
Theorem paused_cycle_shows_no_action (w : World) (sub : handle) (st : St)
    (summary : Summary) (rows : list Row) :
  paused (config st) = true →
  EConsole (PanelSummary summary rows) ∈ trace_of (process_block w sub st) →
  Forall (λ r, row_action r = RowExcluded ∨ row_action r = RowBlank) rows.
Proof.
  intros Hp (current_block & subnets & stakes' & wallet_balance & a & _ & _ & _
             & _ & Ha & Htable)%process_block_printed.
  cbv zeta in Ha. rewrite allocate_paused in Ha by done.
  injection Ha as <-. apply (f_equal fst) in Htable. simpl in Htable.
  rewrite build_display_table_fst in Htable. subst rows.
  rewrite Forall_fmap. apply Forall_forall. intros s _. simpl.
  case_bool_decide; [by left | by right].
Qed.

(** The paused example cycle prints its table, and no row has an action. *)
Lemma paused_cycle_shows_no_action_witness :
  ∃ summary rows,
    trace_of (process_block (ex_world 20 2 0) ex_sub ex_store_paused) =
      [EConsole (PanelSummary summary rows); EWaitForBlock ex_sub] ∧
    length rows = 3%nat ∧
    Forall (λ r, row_action r = RowExcluded ∨ row_action r = RowBlank) rows.
Proof.
  eexists _, _. split; [reflexivity |]. split; [reflexivity |].
  eapply (paused_cycle_shows_no_action (ex_world 20 2 0) ex_sub ex_store_paused);
    [reflexivity | apply list_elem_of_here].
Defined.

(** X10.  In an unpaused cycle that selects a subnet and prints its table,
    the selected subnet has a row, and the rows with the selected id, and
    only they, carry the stake action: the stake with its amount, score and
    multiplier when the [add_stake] call succeeded, the stake error when it
    raised.  Every other row reads "Excluded" or is blank. *)
Theorem unpaused_cycle_shows_action (w : World) (sub : handle) (st : St)
    (subnets : list Subnet) (chosen : Subnet) (best_score : Q)
    (summary : Summary) (rows : list Row) :
  paused (config st) = false →
  w_all_subnets w = Returned subnets →
  select_best_subnet subnets (exclude_list (config st)) (preferences (config st))
    = (Some chosen, best_score) →
  EConsole (PanelSummary summary rows) ∈ trace_of (process_block w sub st) →
  let pref_multiplier := pref_get (preferences (config st)) (netuid chosen) in
  let actual_stake := (stake_amount (config st) * pref_multiplier)%Q in
  let stake_action :=
    match w_add_stake w with
    | Returned _ => ActStake actual_stake best_score pref_multiplier
    | Raised e => ActStakeError e
    end in
  (∃ r, r ∈ rows ∧ row_netuid r = netuid chosen ∧ row_name r = subnet_name chosen) ∧
  Forall (λ r,
      if bool_decide (row_netuid r = netuid chosen)
      then row_action r = RowChosen stake_action
      else row_action r = RowExcluded ∨ row_action r = RowBlank) rows.
Proof.
  intros Hp Hs Hsel
    (current_block & subnets' & stakes' & wallet_balance & a & _ & Hs' & _
     & _ & Ha & Htable)%process_block_printed.
  assert (subnets' = subnets) as -> by congruence. clear Hs'.
  pose proof (select_best_subnet_positive _ _ _ _ _ Hsel) as Hpos.
  pose proof (select_best_subnet_inv (exclude_list (config st))
                (preferences (config st)) subnets) as Hinv.
  rewrite Hsel in Hinv. destruct Hinv as (i & Hi & Hcand & _).
  destruct Hcand as (Hroot & Hexcl & p & Hprice & Hp0 & _).
  rewrite Hsel in Ha. cbv zeta in Ha. simpl fst in Ha. simpl snd in Ha.
  rewrite allocate_commits in Ha by done.
  intros pref_multiplier actual_stake stake_action.
  assert (a = (stake_action, Some (netuid chosen))) as ->.
  { unfold stake_action, actual_stake, pref_multiplier.
    destruct (w_add_stake w); by injection Ha. }
  apply (f_equal fst) in Htable. simpl in Htable.
  rewrite build_display_table_fst in Htable. subst rows. split.
  - exists (row_of (get_stake_info (validator (config st)) stakes')
              (exclude_list (config st)) (preferences (config st))
              (Some (netuid chosen)) stake_action chosen).
    split_and!; [| done | done].
    apply list_elem_of_fmap_2, list_elem_of_In, List.filter_In. split.
    + by eapply list_elem_of_In, list_elem_of_lookup_2.
    + unfold shown. rewrite Hprice. simpl.
      rewrite (bool_decide_eq_false_2 _ Hroot). simpl.
      apply negb_true_iff, Qle_bool_gt, Hp0.
  - rewrite Forall_fmap. apply Forall_forall. intros s _. simpl.
    destruct (decide (netuid s = netuid chosen)) as [Heq | Hne].
    + rewrite (bool_decide_eq_true_2 _ Heq), Heq.
      rewrite (bool_decide_eq_false_2 _ Hexcl).
      by rewrite bool_decide_eq_true_2.
    + rewrite (bool_decide_eq_false_2 _ Hne).
      case_bool_decide; [by left |].
      rewrite bool_decide_eq_false_2; [by right | congruence].
Qed.

(** The unpaused example cycle stakes on subnet 2 and shows it on that
    row. *)
Lemma unpaused_cycle_shows_action_witness :
  ∃ summary rows,
    trace_of (process_block (ex_world 21 2 0) ex_sub ex_store) =
      [EAddStake ex_sub 2 ((1 # 2) * 2)%Q;
       EConsole (PanelSummary summary rows); EWaitForBlock ex_sub] ∧
    Forall (λ r,
        if bool_decide (row_netuid r = 2)
        then row_action r = RowChosen (ActStake ((1 # 2) * 2) (6 / 4 * 2) 2)%Q
        else row_action r = RowExcluded ∨ row_action r = RowBlank) rows.
Proof.
  eexists _, _. split; [reflexivity |].
  eapply (unpaused_cycle_shows_action (ex_world 21 2 0) ex_sub ex_store
            (ex_subnets 2)
            {| netuid := 2; subnet_name := "beta"; symbol := "b";
               price := Some 4%Q; tao_in_emission := 6%Q |} (6 / 4 * 2)%Q);
    [reflexivity | reflexivity | reflexivity |].
  apply list_elem_of_further, list_elem_of_here.
Defined.

(** ** The block loop *)

Lemma block_loop_cycle_frame ws sub : always cycle_frame (block_loop ws sub).
Proof.
  induction ws as [|w ws IH]; simpl.
  - apply always_ret. tc_solve.
  - repeat always_step; [apply process_block_cycle_frame | apply IH].
Qed.

Lemma block_loop_returns ws sub st :
  ∃ r, result_of (block_loop ws sub st) = Returned r.
Proof.
  revert st. induction ws as [|w ws IH]; intros st; simpl; [by eauto |].
  unfold bind, try_.
  destruct (process_block w sub st) as [[t st'] [selected | e]]; simpl.
  - destruct (IH st') as [r Hr].
    destruct (block_loop ws sub st') as [[t' st''] r']. by eauto.
  - by eauto.
Qed.

(** Once a cycle has raised, the cycles scripted after it are not run. *)
Lemma block_loop_break ws more sub st e :
  result_of (block_loop ws sub st) = Returned (Some e) →
  block_loop (ws ++ more) sub st = block_loop ws sub st.
Proof.
  revert st. induction ws as [|w ws IH]; intros st; simpl; [done |].
  unfold bind, try_.
  destruct (process_block w sub st) as [[t st'] [selected | e']]; simpl; [| done].
  intros Hres. rewrite IH; [done |].
  by destruct (block_loop ws sub st') as [[t' st''] r'].
Qed.

Lemma cycle_events_quiet (t : list event) :
  Forall (λ ev, cycle_event ev = true) t → opens t = [] ∧ closed t = [].
Proof.
  induction 1 as [|ev t Hev _ [IH1 IH2]]; [done |].
  unfold opens, closed in *. by destruct ev.
Qed.

(** [main_loop] once it holds a session. *)
Lemma main_loop_run w0 ws st tc sub :
  get_working_subtensor w0 = (tc, Returned sub) →
  main_loop w0 ws st =
  let out := block_loop ws sub (set_purchase_history [] st) in
  match result_of out with
  | Returned (Some e) =>
      (tc ++ trace_of out ++ [EClose sub], state_of out, Returned (Some e))
  | Returned None => (tc ++ trace_of out, state_of out, Returned None)
  | Raised e => (tc ++ trace_of out, state_of out, Raised e)
  end.
Proof.
  intros Hc. unfold main_loop, bind, lift_trace, modify, close, emit.
  rewrite Hc. simpl.
  destruct (block_loop ws sub (set_purchase_history [] st))
    as [[body st'] [[e|] | e]]; simpl; by rewrite ?app_nil_r.
Qed.

(** X11.  [main_loop] raises the error of [get_working_subtensor] when no
    endpoint can be reached, without running a cycle or touching the store.
    Once it holds a session it never raises: it opens no other session, and
    when a cycle raises it closes that one session, as its last act.  The
    configuration is left as it was. *)
Theorem main_loop_session (w0 : World) (ws : list World) (st : St) :
  let out := main_loop w0 ws st in
  match get_working_subtensor w0 with
  | (tc, Raised e) => out = (tc, st, Raised e)
  | (tc, Returned sub) =>
      ∃ body, opens body = [] ∧ closed body = [] ∧
        config (state_of out) = config st ∧
        match result_of out with
        | Returned (Some e) => trace_of out = tc ++ body ++ [EClose sub]
        | Returned None => trace_of out = tc ++ body
        | Raised _ => False
        end
  end.
Proof.
  intros out. unfold out.
  destruct (get_working_subtensor w0) as [tc [sub | e]] eqn:Hc; last first.
  { unfold main_loop, bind, lift_trace. by rewrite Hc. }
  rewrite (main_loop_run _ _ _ _ _ Hc). cbv zeta.
  destruct (block_loop_cycle_frame ws sub (set_purchase_history [] st))
    as (Hev & Hcfg & _).
  destruct (block_loop_returns ws sub (set_purchase_history [] st)) as [r Hr].
  apply cycle_events_quiet in Hev as [Hopens Hclosed].
  exists (trace_of (block_loop ws sub (set_purchase_history [] st))).
  rewrite Hr. by destruct r.
Qed.

(** X12.  The first cycle that raises ends [main_loop]: the loop does not
    reconnect or retry, and what the gateway would have answered to later
    cycles makes no difference to the run. *)
Theorem main_loop_stops_at_first_error (w0 : World) (ws more : list World)
    (st : St) (e : exn) :
  result_of (main_loop w0 ws st) = Returned (Some e) →
  main_loop w0 (ws ++ more) st = main_loop w0 ws st.
Proof.
  destruct (get_working_subtensor w0) as [tc [sub | e0]] eqn:Hc; last first.
  { unfold main_loop, bind, lift_trace. by rewrite Hc. }
  rewrite !(main_loop_run _ _ _ _ _ Hc). cbv zeta.
  destruct (result_of (block_loop ws sub (set_purchase_history [] st)))
    as [[e1|] | e1] eqn:Hr; unfold result_of at 1; simpl;
    [| by intros [=] | by intros [=]].
  intros _. by rewrite (block_loop_break _ _ _ _ _ Hr), Hr.
Qed.

(** The second cycle fails its refresh: the loop ends there, the session is
    closed, and a third cycle, though scripted, is not run. *)
Lemma main_loop_stops_at_first_error_witness :
  let ws := [ex_world 21 2 0; ex_refresh_fails_world] in
  main_loop (ex_world 20 2 0) (ws ++ [ex_world 22 2 0]) ex_store =
    main_loop (ex_world 20 2 0) ws ex_store ∧
  result_of (main_loop (ex_world 20 2 0) ws ex_store) =
    Returned (Some (GatewayError "down")) ∧
  last (trace_of (main_loop (ex_world 20 2 0) ws ex_store)) = Some (EClose ex_sub).
Proof.
  intros ws. split; [| by split].
  by apply (main_loop_stops_at_first_error (ex_world 20 2 0) ws
              [ex_world 22 2 0] ex_store (GatewayError "down")).
Defined.

(** ** More on the command interpreter *)

Lemma retry_from_connect_events w endpoint more : ∀ attempt,
  Forall (λ ev, connect_event ev = true)
    (retry_from (attempt_once w endpoint) attempt more).1.
Proof.
  induction more as [|more IH]; intros attempt; simpl;
    unfold attempt_once at 1;
    destruct (w_connect w endpoint attempt); simpl;
    try (by repeat constructor).
  all: specialize (IH (S attempt));
    destruct (retry_from (attempt_once w endpoint) (S attempt) more) as [t' r];
    simpl in *; by repeat constructor.
Qed.

Lemma try_endpoints_connect_events w endpoints : ∀ last_error,
  Forall (λ ev, connect_event ev = true) (try_endpoints w endpoints last_error).1.
Proof.
  induction endpoints as [|ep rest IH]; intros last_error; simpl; [done |].
  pose proof (retry_from_connect_events w ep (max_attempts - 1) 1) as Hep.
  fold (get_and_test_subtensor w ep) in Hep.
  destruct (get_and_test_subtensor w ep) as [t [sub | e]]; [done |].
  specialize (IH (Some e)).
  destruct (try_endpoints w rest (Some e)) as [t' r]. simpl in *.
  by apply Forall_app.
Qed.

(** Connecting only opens sessions, waits, and closes the sessions that
    fail their verification. *)
Lemma get_working_subtensor_connect_events w :
  Forall (λ ev, connect_event ev = true) (get_working_subtensor w).1.
Proof. apply try_endpoints_connect_events. Qed.

Global Instance handler_frame_sequential : Sequential handler_frame.
Proof.
  split.
  - intros st. by split_and!.
  - intros st t1 st1 t2 st2 (Ht1 & Hp1 & Hv1 & Hk1 & Hc1 & Hi1 & He1)
      (Ht2 & Hp2 & Hv2 & Hk2 & Hc2 & Hi2 & He2).
    split_and!; [by apply Forall_app | congruence.. | by etrans].
Qed.

Lemma acquire_handler_frame w : always handler_frame (acquire w).
Proof.
  intros st. unfold acquire, try_, lift_trace. simpl.
  split_and!; try done.
  eapply Forall_impl; [apply get_working_subtensor_connect_events |].
  by intros [].
Qed.

(** Closes a goal [always handler_frame m] for a single step [m]. *)
Ltac handler_frame_leaf :=
  first
    [ apply acquire_handler_frame
    | apply always_send; intros; by split_and!; [repeat constructor | ..]
    | apply always_emit; intros; by split_and!; [repeat constructor | ..]
    | apply always_modify; intros; by split_and! ].

(** What [/exclude] does. *)
Lemma cmd_exclude_run w n chat_id st :
  cmd_exclude w n chat_id st =
  if bool_decide (n ∉ exclude_list (config st))
  then
    let st' :=
      set_config (set_exclude_list (exclude_list (config st) ++ [n])) st in
    ([send_event w (config st') (MsgExcluded n) chat_id], st', Returned tt)
  else ([send_event w (config st) (MsgAlreadyExcluded n) chat_id], st, Returned tt).
Proof.
  unfold cmd_exclude. rewrite bind_get. case_bool_decide.
  - unfold bind, modify. by rewrite send_telegram_message_run.
  - by rewrite send_telegram_message_run.
Qed.

Section HandlerFrame.

Context (py_int : string → option Z) (py_float : string → option Q).

Lemma cmd_exclude_handler_frame w n chat_id :
  always handler_frame (cmd_exclude w n chat_id).
Proof.
  intros st. rewrite cmd_exclude_run. case_bool_decide.
  - split_and!; try done; [by repeat constructor | by apply prefix_app_r].
  - split_and!; try done. by repeat constructor.
Qed.

Lemma handle_telegram_command_handler_frame w message :
  always handler_frame (handle_telegram_command py_int py_float w message).
Proof.
  unfold handle_telegram_command, netuid_command, cmd_balance, cmd_history,
    cmd_info, cmd_boost, cmd_slash, cmd_unstake, cmd_stake, cmd_amount,
    stake_on_subnet, unstake_on_subnet, close.
  repeat always_step;
    first [ apply cmd_exclude_handler_frame | handler_frame_leaf ].
Qed.

End HandlerFrame.

(** X13.  Whatever the message and the answers of the gateway, and
    whether it returns or raises, [handle_telegram_command] leaves alone the
    batch buffer of the block loop, the validator, the Telegram credentials
    and the update interval, and it never removes an exclusion: the exclude
    list after the command extends the one before.  It connects, stakes or
    unstakes, and replies, and makes no other call. *)
Theorem handle_telegram_command_frame (py_int : string → option Z)
    (py_float : string → option Q) (w : World) (message : Message) (st : St) :
  let out := handle_telegram_command py_int py_float w message st in
  (∀ ev, ev ∈ trace_of out →
     match ev with
     | EConsole _ | EWaitForBlock _ | EGetUpdates _ | ESleep _ => False
     | _ => True
     end) ∧
  purchase_history (state_of out) = purchase_history st ∧
  validator (config (state_of out)) = validator (config st) ∧
  telegram_token (config (state_of out)) = telegram_token (config st) ∧
  telegram_chat_id (config (state_of out)) = telegram_chat_id (config st) ∧
  telegram_update_interval (config (state_of out)) =
    telegram_update_interval (config st) ∧
  exclude_list (config st) `prefix_of` exclude_list (config (state_of out)).
Proof.
  intros out.
  destruct (handle_telegram_command_handler_frame py_int py_float w message st)
    as (Hev & Hrest).
  split; [| exact Hrest].
  rewrite Forall_forall in Hev. intros ev Hin. specialize (Hev ev Hin).
  by destruct ev.
Qed.

(** *** What the interpreter can raise *)

Section RaisesOnly.

Context (P : exn → Prop).

Lemma raises_only_bind {A B} (m : M A) (f : A → M B) :
  raises_only P m → (∀ a, raises_only P (f a)) → raises_only P (bind m f).
Proof.
  intros Hm Hf st e. destruct (m st) as [[t st'] [a | e']] eqn:Heq.
  - rewrite (bind_returned _ _ _ _ _ _ Heq). apply Hf.
  - rewrite (bind_raised _ _ _ _ _ _ Heq). intros [= <-].
    apply (Hm st). by rewrite Heq.
Qed.

Lemma raises_only_returns {A} (m : M A) :
  (∀ st, ∃ a, result_of (m st) = Returned a) → raises_only P m.
Proof. intros Hm st e. destruct (Hm st) as [a ->]. done. Qed.

Lemma raises_only_ret {A} (a : A) : raises_only P (ret a).
Proof. by intros st e. Qed.

Lemma raises_only_try {A} (m : M A) : raises_only P (try_ m).
Proof. intros st e. unfold try_. by destruct (m st) as [[t st'] r]. Qed.

Lemma raises_only_send w text chat_id :
  raises_only P (send_telegram_message w text chat_id).
Proof. intros st e. by rewrite send_telegram_message_run. Qed.

Lemma raises_only_await {A} (r : outcome A) :
  (∀ e, r = Raised e → P e) → raises_only P (await r).
Proof. intros Hr st e. destruct r; [done |]. intros [= <-]. by apply Hr. Qed.

End RaisesOnly.

(** Peels one construct off a goal [raises_only P m]. *)
Ltac raises_step :=
  lazymatch goal with
  | |- raises_only _ (bind _ _) => apply raises_only_bind; [| intros ?]
  | |- raises_only _ (ret _) => apply raises_only_ret
  | |- raises_only _ get => by intros ? ?
  | |- raises_only _ (modify _) => by intros ? ?
  | |- raises_only _ (emit _) => by intros ? ?
  | |- raises_only _ (close _) => by intros ? ?
  | |- raises_only _ (try_ _) => apply raises_only_try
  | |- raises_only _ (acquire _) => apply raises_only_try
  | |- raises_only _ (send_telegram_message _ _ _) => apply raises_only_send
  | |- raises_only _ (match ?x with _ => _ end) => destruct x
  | |- raises_only _ _ => progress cbv zeta
  end.

Lemma balance_lines_raises stake_info todo : ∀ msg_lines e,
  balance_lines stake_info todo msg_lines = Raised e → e = AttributeError.
Proof.
  induction todo as [|stake rest IH]; intros msg_lines e; simpl; [done |].
  destruct (Qltb 0 (float_or_zero (si_stake stake))); [| apply IH].
  unfold list_symbol. congruence.
Qed.

Lemma build_subnet_info_raises subnets : ∀ subnet_info e,
  build_subnet_info subnets subnet_info = Raised e → e = ConversionError.
Proof.
  induction subnets as [|s rest IH]; intros subnet_info e; simpl; [done |].
  case_bool_decide; [| apply IH].
  destruct (price s); [apply IH | congruence].
Qed.

Lemma cmd_balance_raises w chat_id :
  raises_only (λ e, e = AttributeError) (cmd_balance w chat_id).
Proof.
  unfold cmd_balance. repeat raises_step.
  apply raises_only_await. apply balance_lines_raises.
Qed.

Lemma cmd_history_raises w chat_id :
  raises_only (λ e, e = ConversionError) (cmd_history w chat_id).
Proof.
  unfold cmd_history. repeat raises_step.
  apply raises_only_await. apply build_subnet_info_raises.
Qed.

Section Raises.

Context (py_int : string → option Z) (py_float : string → option Q).

Lemma netuid_command_raises w cmd n parts chat_id :
  raises_only (λ _, False) (netuid_command py_float w cmd n parts chat_id).
Proof.
  unfold netuid_command, cmd_info, cmd_boost, cmd_slash, cmd_exclude,
    cmd_unstake, cmd_stake.
  repeat raises_step.
Qed.

End Raises.

(** X14.  [handle_telegram_command] raises in three cases only: [/amount]
    given without a value raises [IndexError]; [/balance] can raise
    [AttributeError]; and [/history] can raise [ConversionError].  No error
    of the gateway (connecting, querying, staking, unstaking) and no error
    of the Telegram POST leaves the handler, and no other command raises. *)
Theorem handle_telegram_command_raises (py_int : string → option Z)
    (py_float : string → option Q) (w : World) (message : Message) (st : St)
    (e : exn) :
  result_of (handle_telegram_command py_int py_float w message st) = Raised e →
  (e = IndexError ∧ lower <$> split (msg_text message) = ["/amount"]) ∨
  (e = AttributeError ∧ verb_of (msg_text message) = Some "/balance") ∨
  (e = ConversionError ∧ verb_of (msg_text message) = Some "/history").
Proof.
  unfold handle_telegram_command, verb_of.
  destruct (split (msg_text message)) as [|first rest].
  { by rewrite send_telegram_message_run. }
  simpl. repeat case_bool_decide.
  - unfold bind, modify. by rewrite send_telegram_message_run.
  - unfold bind, modify. by rewrite send_telegram_message_run.
  - intros ->%cmd_balance_raises. right; left. split; [done | congruence].
  - intros ->%cmd_history_raises. right; right. split; [done | congruence].
  - destruct rest as [|arg rest]; simpl.
    { by rewrite send_telegram_message_run. }
    destruct (py_int arg) as [n|].
    + by intros []%netuid_command_raises.
    + by rewrite send_telegram_message_run.
  - unfold cmd_amount. destruct rest as [|arg rest]; simpl.
    { intros [= <-]. left. split; [done | congruence]. }
    destruct (py_float arg) as [new_amount|].
    + unfold bind, modify. by rewrite send_telegram_message_run.
    + by rewrite send_telegram_message_run.
  - done.
Qed.

(** [/amount] without a value raises [IndexError]. *)
Lemma handle_telegram_command_raises_witness :
  result_of (handle_telegram_command ex_int ex_float (ex_world 20 2 0)
               (ex_message "/amount") ex_store) = Raised IndexError ∧
  ((IndexError = IndexError ∧
    lower <$> split (msg_text (ex_message "/amount")) = ["/amount"]) ∨
   (IndexError = AttributeError ∧
    verb_of (msg_text (ex_message "/amount")) = Some "/balance") ∨
   (IndexError = ConversionError ∧
    verb_of (msg_text (ex_message "/amount")) = Some "/history")).
Proof.
  split; [reflexivity |].
  apply (handle_telegram_command_raises ex_int ex_float (ex_world 20 2 0)
           (ex_message "/amount") ex_store IndexError).
  reflexivity.
Defined.

(** *** The commands that move funds *)

Lemma unstake_calls_app t1 t2 :
  unstake_calls (t1 ++ t2) = unstake_calls t1 ++ unstake_calls t2.
Proof. apply omap_app. Qed.

Global Instance moves_nothing_sequential : Sequential moves_nothing.
Proof.
  split.
  - done.
  - intros st t1 st1 t2 st2 [Ha1 Hu1] [Ha2 Hu2]. split.
    + by rewrite add_stake_calls_app, Ha1, Ha2.
    + by rewrite unstake_calls_app, Hu1, Hu2.
Qed.

Lemma connect_events_move_nothing (t : list event) :
  Forall (λ ev, connect_event ev = true) t →
  add_stake_calls t = [] ∧ unstake_calls t = [] ∧ sent t = [].
Proof.
  induction 1 as [|ev t Hev _ (IH1 & IH2 & IH3)]; [done |].
  unfold add_stake_calls, unstake_calls, sent in *. by destruct ev.
Qed.

Lemma acquire_moves_nothing w : always moves_nothing (acquire w).
Proof.
  intros st. unfold acquire, try_, lift_trace. simpl.
  destruct (connect_events_move_nothing _ (get_working_subtensor_connect_events w))
    as (Ha & Hu & _).
  by split.
Qed.

(** Closes a goal [always moves_nothing m] for a single step [m]. *)
Ltac moves_nothing_leaf :=
  first
    [ apply acquire_moves_nothing
    | by apply always_send
    | by apply always_emit
    | by apply always_modify ].

(** [acquire], by what the endpoint selector gives. *)
Lemma acquire_run w st :
  acquire w st =
  ((get_working_subtensor w).1, st, Returned (get_working_subtensor w).2).
Proof. done. Qed.

Section Funds.

Context (py_int : string → option Z) (py_float : string → option Q).

Local Abbreviation handle := (handle_telegram_command py_int py_float).

(** What [/stake] and [/unstake] do once their two numbers are parsed. *)
Lemma cmd_stake_run w n parts arg amount chat_id st :
  parts !! 2%nat = Some arg → py_float arg = Some amount →
  cmd_stake py_float w n parts chat_id st =
  match get_working_subtensor w with
  | (tc, Raised e) =>
      (tc ++ [send_event w (config st) (MsgErrInit e) chat_id], st, Returned tt)
  | (tc, Returned sub) =>
      (tc ++ [EAddStake sub n amount;
              send_event w (config st)
                match w_add_stake w with
                | Returned _ => MsgStaked amount n
                | Raised e => MsgErrStake n e
                end chat_id;
              EClose sub], st, Returned tt)
  end.
Proof.
  intros Hparts Hfloat. unfold cmd_stake. rewrite Hparts, Hfloat.
  unfold bind at 1. rewrite acquire_run.
  destruct (get_working_subtensor w) as [tc [sub | e]]; simpl.
  - unfold stake_on_subnet, close, bind, try_, emit, await.
    destruct (w_add_stake w) as [[] | e]; simpl;
      by rewrite send_telegram_message_run.
  - by rewrite send_telegram_message_run.
Qed.

Lemma cmd_unstake_run w n parts arg amount chat_id st :
  parts !! 2%nat = Some arg → py_float arg = Some amount →
  cmd_unstake py_float w n parts chat_id st =
  match get_working_subtensor w with
  | (tc, Raised e) =>
      (tc ++ [send_event w (config st) (MsgErrInit e) chat_id], st, Returned tt)
  | (tc, Returned sub) =>
      (tc ++ [EUnstake sub n amount;
              send_event w (config st)
                match w_unstake w with
                | Returned _ => MsgUnstaked amount n
                | Raised e => MsgErrUnstake n e
                end chat_id;
              EClose sub], st, Returned tt)
  end.
Proof.
  intros Hparts Hfloat. unfold cmd_unstake. rewrite Hparts, Hfloat.
  unfold bind at 1. rewrite acquire_run.
  destruct (get_working_subtensor w) as [tc [sub | e]]; simpl.
  - unfold unstake_on_subnet, close, bind, try_, emit, await.
    destruct (w_unstake w) as [[] | e]; simpl;
      by rewrite send_telegram_message_run.
  - by rewrite send_telegram_message_run.
Qed.

(** A message whose first token is a netuid command and whose second is a
    number is handled by [netuid_command]. *)
Lemma handle_netuid_command w message first arg rest n :
  split (msg_text message) = first :: arg :: rest →
  lower first ∈ netuid_commands → py_int arg = Some n →
  handle w message =
  netuid_command py_float w (lower first) n (first :: arg :: rest)
    (msg_chat_id message).
Proof.
  intros Hsplit Hcmd Hint. unfold handle_telegram_command. rewrite Hsplit.
  cbv zeta.
  assert (lower first ≠ "/pause" ∧ lower first ≠ "/start" ∧
          lower first ≠ "/balance" ∧ lower first ≠ "/history") as (? & ? & ? & ?).
  { split_and!; intros Heq; rewrite Heq in Hcmd;
      by apply (bool_decide_pack _) in Hcmd. }
  rewrite !bool_decide_eq_false_2 by done.
  rewrite (bool_decide_eq_true_2 _ Hcmd). simpl. by rewrite Hint.
Qed.

Lemma cmd_amount_moves_nothing w parts chat_id :
  always moves_nothing (cmd_amount py_float w parts chat_id).
Proof. unfold cmd_amount. repeat always_step; moves_nothing_leaf. Qed.

Lemma cmd_stake_moves w n parts chat_id st :
  let t := trace_of (cmd_stake py_float w n parts chat_id st) in
  unstake_calls t = [] ∧
  (add_stake_calls t = [] ∨
   ∃ sub arg amount, parts !! 2%nat = Some arg ∧ py_float arg = Some amount ∧
     (get_working_subtensor w).2 = Returned sub ∧
     add_stake_calls t = [(sub, n, amount)]).
Proof.
  destruct (parts !! 2%nat) as [arg|] eqn:Hparts; last first.
  { unfold cmd_stake. rewrite Hparts, send_telegram_message_run. by split; [| left]. }
  destruct (py_float arg) as [amount|] eqn:Hfloat; last first.
  { unfold cmd_stake. rewrite Hparts, Hfloat, send_telegram_message_run.
    by split; [| left]. }
  rewrite (cmd_stake_run _ _ _ _ _ _ _ Hparts Hfloat).
  destruct (connect_events_move_nothing _ (get_working_subtensor_connect_events w))
    as (Ha & Hu & _).
  destruct (get_working_subtensor w) as [tc [sub | e]]; unfold trace_of; simpl in *.
  - rewrite unstake_calls_app, add_stake_calls_app, Ha, Hu. simpl.
    split; [done |]. right. by exists sub, arg, amount.
  - rewrite unstake_calls_app, add_stake_calls_app, Ha, Hu. by split; [| left].
Qed.

Lemma cmd_unstake_moves w n parts chat_id st :
  let t := trace_of (cmd_unstake py_float w n parts chat_id st) in
  add_stake_calls t = [] ∧
  (unstake_calls t = [] ∨
   ∃ sub arg amount, parts !! 2%nat = Some arg ∧ py_float arg = Some amount ∧
     (get_working_subtensor w).2 = Returned sub ∧
     unstake_calls t = [(sub, n, amount)]).
Proof.
  destruct (parts !! 2%nat) as [arg|] eqn:Hparts; last first.
  { unfold cmd_unstake. rewrite Hparts, send_telegram_message_run.
    by split; [| left]. }
  destruct (py_float arg) as [amount|] eqn:Hfloat; last first.
  { unfold cmd_unstake. rewrite Hparts, Hfloat, send_telegram_message_run.
    by split; [| left]. }
  rewrite (cmd_unstake_run _ _ _ _ _ _ _ Hparts Hfloat).
  destruct (connect_events_move_nothing _ (get_working_subtensor_connect_events w))
    as (Ha & Hu & _).
  destruct (get_working_subtensor w) as [tc [sub | e]]; unfold trace_of; simpl in *.
  - rewrite unstake_calls_app, add_stake_calls_app, Ha, Hu. simpl.
    split; [done |]. right. by exists sub, arg, amount.
  - rewrite unstake_calls_app, add_stake_calls_app, Ha, Hu. by split; [| left].
Qed.

Lemma other_commands_move_nothing w cmd n parts chat_id :
  cmd ≠ "/stake" → cmd ≠ "/unstake" →
  always moves_nothing (netuid_command py_float w cmd n parts chat_id).
Proof.
  intros Hs Hu. unfold netuid_command.
  rewrite (bool_decide_eq_false_2 _ Hs), (bool_decide_eq_false_2 _ Hu).
  unfold cmd_info, cmd_boost, cmd_slash, cmd_exclude, close.
  repeat always_step; moves_nothing_leaf.
Qed.

(** A message with another verb than [/stake] and [/unstake] moves
    nothing. *)
Lemma handle_moves_nothing w message :
  verb_of (msg_text message) ≠ Some "/stake" →
  verb_of (msg_text message) ≠ Some "/unstake" →
  always moves_nothing (handle w message).
Proof.
  unfold handle_telegram_command, verb_of.
  destruct (split (msg_text message)) as [|first rest]; cbv zeta.
  { intros _ _. by apply always_send. }
  simpl. intros Hs Hu.
  unfold cmd_balance, cmd_history, close.
  repeat always_step;
    first [ apply other_commands_move_nothing; congruence
          | apply cmd_amount_moves_nothing
          | moves_nothing_leaf ].
Qed.

(** The way of a [/stake] and of an [/unstake] through the dispatch. *)
Lemma handle_stake w message first rest st :
  split (msg_text message) = first :: rest → lower first = "/stake" →
  handle w message st =
  match rest with
  | [] => replied w st MsgUsageNetuid (msg_chat_id message)
  | arg :: _ =>
      match py_int arg with
      | None => replied w st MsgUsageNumericNetuid (msg_chat_id message)
      | Some n => cmd_stake py_float w n (first :: rest) (msg_chat_id message) st
      end
  end.
Proof.
  intros Hsplit Hcmd. unfold handle_telegram_command, replied.
  rewrite Hsplit. cbv zeta. rewrite Hcmd. simpl.
  destruct rest as [|arg rest]; simpl; [apply send_telegram_message_run |].
  destruct (py_int arg); [done | apply send_telegram_message_run].
Qed.

Lemma handle_unstake w message first rest st :
  split (msg_text message) = first :: rest → lower first = "/unstake" →
  handle w message st =
  match rest with
  | [] => replied w st MsgUsageNetuid (msg_chat_id message)
  | arg :: _ =>
      match py_int arg with
      | None => replied w st MsgUsageNumericNetuid (msg_chat_id message)
      | Some n => cmd_unstake py_float w n (first :: rest) (msg_chat_id message) st
      end
  end.
Proof.
  intros Hsplit Hcmd. unfold handle_telegram_command, replied.
  rewrite Hsplit. cbv zeta. rewrite Hcmd. simpl.
  destruct rest as [|arg rest]; simpl; [apply send_telegram_message_run |].
  destruct (py_int arg); [done | apply send_telegram_message_run].
Qed.

End Funds.

(** X15.  [/stake <netuid> <amount>] with two numbers connects, issues one
    [add_stake] call for that subnet and amount on the session it acquired,
    replies that it staked or, when the call raised, with the error, and
    closes the session; when no endpoint can be reached it only replies with
    the connection error.  The store is left as it is, and neither the
    pause flag, the exclude list nor the sign of the amount is consulted.
    [/unstake] does the same with one [unstake] call. *)
Theorem stake_and_unstake_commands (py_int : string → option Z)
    (py_float : string → option Q) (w : World) (message : Message) (st : St)
    (first arg1 arg2 : string) (rest : list string) (n : Z) (amount : Q) :
  split (msg_text message) = first :: arg1 :: arg2 :: rest →
  py_int arg1 = Some n → py_float arg2 = Some amount →
  let out := handle_telegram_command py_int py_float w message st in
  let chat_id := msg_chat_id message in
  let run call reply :=
    match get_working_subtensor w with
    | (tc, Raised e) =>
        (tc ++ [send_event w (config st) (MsgErrInit e) chat_id], st, Returned tt)
    | (tc, Returned sub) =>
        (tc ++ [call sub; send_event w (config st) reply chat_id; EClose sub],
         st, Returned tt)
    end in
  (lower first = "/stake" →
   out = run (λ sub, EAddStake sub n amount)
           match w_add_stake w with
           | Returned _ => MsgStaked amount n
           | Raised e => MsgErrStake n e
           end) ∧
  (lower first = "/unstake" →
   out = run (λ sub, EUnstake sub n amount)
           match w_unstake w with
           | Returned _ => MsgUnstaked amount n
           | Raised e => MsgErrUnstake n e
           end).
Proof.
  intros Hsplit Hint Hfloat out chat_id run. unfold out, run. split; intros Hcmd.
  - rewrite (handle_netuid_command _ _ _ _ _ _ _ n Hsplit), Hcmd;
      [| rewrite Hcmd; by apply (bool_decide_unpack _) | done].
    unfold netuid_command. simpl.
    by rewrite (cmd_stake_run _ _ _ _ arg2 amount).
  - rewrite (handle_netuid_command _ _ _ _ _ _ _ n Hsplit), Hcmd;
      [| rewrite Hcmd; by apply (bool_decide_unpack _) | done].
    unfold netuid_command. simpl.
    by rewrite (cmd_unstake_run _ _ _ _ arg2 amount).
Qed.

(** [/stake 1 5] on the paused example store stakes 5 on subnet 1. *)
Lemma stake_and_unstake_commands_witness :
  handle_telegram_command ex_int ex_float (ex_world 20 2 0)
    (ex_message "/stake 1 5") ex_store_paused =
  ([EOpen "finney" 1; EAddStake ex_sub 1 5%Q;
    ESendTelegram 7 (MsgStaked 5%Q 1) Posted; EClose ex_sub],
   ex_store_paused, Returned tt).
Proof.
  destruct (stake_and_unstake_commands ex_int ex_float (ex_world 20 2 0)
              (ex_message "/stake 1 5") ex_store_paused "/stake" "1" "5" [] 1 5%Q)
    as [Hstake _]; [reflexivity | reflexivity | reflexivity |].
  rewrite Hstake; reflexivity.
Defined.

(** X16.  Funds move only on command: a message makes the handler issue
    an [add_stake] call only when its verb is [/stake], and then exactly one,
    for the subnet and the amount the message gives; an [unstake] call only
    when its verb is [/unstake], likewise.  No other message, whatever the
    gateway answers, stakes or unstakes anything. *)
Theorem handler_moves_funds_only_on_command (py_int : string → option Z)
    (py_float : string → option Q) (w : World) (message : Message) (st : St) :
  let t := trace_of (handle_telegram_command py_int py_float w message st) in
  let parts := split (msg_text message) in
  let given sub n amount :=
    ∃ arg1 arg2, parts !! 1%nat = Some arg1 ∧ py_int arg1 = Some n ∧
      parts !! 2%nat = Some arg2 ∧ py_float arg2 = Some amount ∧
      (get_working_subtensor w).2 = Returned sub in
  (add_stake_calls t = [] ∨
   ∃ sub n amount, verb_of (msg_text message) = Some "/stake" ∧
     given sub n amount ∧
     add_stake_calls t = [(sub, n, amount)] ∧ unstake_calls t = []) ∧
  (unstake_calls t = [] ∨
   ∃ sub n amount, verb_of (msg_text message) = Some "/unstake" ∧
     given sub n amount ∧
     unstake_calls t = [(sub, n, amount)] ∧ add_stake_calls t = []).
Proof.
  intros t parts given. unfold t, given, parts. clear t given parts.
  destruct (decide (verb_of (msg_text message) = Some "/stake")) as [Hs | Hs].
  - unfold verb_of in Hs.
    destruct (split (msg_text message)) as [|first rest] eqn:Hsplit; [done |].
    injection Hs as Hs. rewrite (handle_stake _ _ _ _ _ _ _ Hsplit Hs).
    destruct rest as [|arg1 rest]; [by split; left |].
    destruct (py_int arg1) as [n|] eqn:Hint; [| by split; left].
    destruct (cmd_stake_moves py_float w n (first :: arg1 :: rest)
                (msg_chat_id message) st) as [Hu [Ha | Ha]].
    + by split; left.
    + destruct Ha as (sub & arg2 & amount & Harg2 & Hfloat & Hacq & Ha).
      split; [right | by left].
      exists sub, n, amount. unfold verb_of. rewrite Hsplit. simpl. rewrite Hs.
      split_and!; [done | | done | done]. by exists arg1, arg2.
  - destruct (decide (verb_of (msg_text message) = Some "/unstake")) as [Hu | Hu].
    + unfold verb_of in Hu.
      destruct (split (msg_text message)) as [|first rest] eqn:Hsplit; [done |].
      injection Hu as Hu. rewrite (handle_unstake _ _ _ _ _ _ _ Hsplit Hu).
      destruct rest as [|arg1 rest]; [by split; left |].
      destruct (py_int arg1) as [n|] eqn:Hint; [| by split; left].
      destruct (cmd_unstake_moves py_float w n (first :: arg1 :: rest)
                  (msg_chat_id message) st) as [Ha [Hn | Hn]].
      * by split; left.
      * destruct Hn as (sub & arg2 & amount & Harg2 & Hfloat & Hacq & Hn).
        split; [by left | right].
        exists sub, n, amount. unfold verb_of. rewrite Hsplit. simpl. rewrite Hu.
        split_and!; [done | | done | done]. by exists arg1, arg2.
    + destruct (handle_moves_nothing py_int py_float w message Hs Hu st)
        as [Ha Hn].
      by split; left.
Qed.

(** *** The session discipline of the commands *)

Global Instance session_idle_sequential : Sequential session_idle.
Proof.
  split.
  - intros st. by apply Forall_nil.
  - intros st t1 st1 t2 st2 H1 H2. by apply Forall_app.
Qed.

(** Closes a goal [always session_idle m] for a single step [m]. *)
Ltac session_idle_leaf :=
  first
    [ apply always_send; intros; by repeat constructor
    | apply always_emit; intros; by repeat constructor
    | apply always_modify; intros; by apply Forall_nil ].

Lemma closes_last_bind {A B} sub (m : M A) (f : A → M B) :
  always session_idle m → (∀ a, closes_last sub (f a)) →
  closes_last sub (bind m f).
Proof.
  intros Hm Hf st. specialize (Hm st).
  destruct (m st) as [[t st'] [a | e]] eqn:Heq.
  - rewrite (bind_returned _ _ _ _ _ _ Heq). unfold result_of at 1. simpl.
    specialize (Hf a st'). destruct (result_of (f a st')); [| done].
    destruct Hf as (body & Ht & Hbody). exists (t ++ body).
    unfold trace_of at 1. simpl. rewrite Ht. split; [by rewrite (assoc_L (++)) |].
    by apply Forall_app.
  - by rewrite (bind_raised _ _ _ _ _ _ Heq).
Qed.

Lemma closes_last_close sub : closes_last sub (close sub).
Proof.
  intros st. exists []. split; [done |]. by apply Forall_nil.
Qed.

(** Peels one construct off a goal [closes_last sub m]. *)
Ltac closes_step :=
  lazymatch goal with
  | |- closes_last _ (close _) => apply closes_last_close
  | |- closes_last _ (bind _ _) =>
      apply closes_last_bind;
        [repeat always_step; session_idle_leaf | intros ?]
  | |- closes_last _ (match ?x with _ => _ end) => destruct x
  | |- closes_last _ _ => progress cbv zeta
  end.

Lemma disciplined_idle w chat_id (m : M unit) :
  always session_idle m → disciplined w chat_id m.
Proof. intros Hm st _. left. apply Hm. Qed.

Lemma disciplined_session w chat_id (k : outcome handle → M unit) :
  (∀ e, k (Raised e) = send_telegram_message w (MsgErrInit e) chat_id) →
  (∀ sub, closes_last sub (k (Returned sub))) →
  disciplined w chat_id (bind (acquire w) k).
Proof.
  intros Hfail Hclose st. rewrite (bind_returned _ _ _ _ _ _ (acquire_run w st)).
  unfold result_of at 1, trace_of at 1 3 4. simpl. intros Hres. right.
  destruct (get_working_subtensor w) as [tc [sub | e]]; simpl in *.
  - specialize (Hclose sub st). rewrite Hres in Hclose.
    destruct Hclose as (body & -> & Hbody). by exists body.
  - by rewrite Hfail, send_telegram_message_run.
Qed.

Section Discipline.

Context (py_int : string → option Z) (py_float : string → option Q).

Lemma handle_telegram_command_disciplined w message :
  disciplined w (msg_chat_id message)
    (handle_telegram_command py_int py_float w message).
Proof.
  unfold handle_telegram_command, netuid_command, cmd_balance, cmd_history,
    cmd_info, cmd_boost, cmd_slash, cmd_exclude, cmd_unstake, cmd_stake,
    cmd_amount, stake_on_subnet, unstake_on_subnet.
  cbv zeta.
  repeat lazymatch goal with
         | |- disciplined _ _ (match ?x with _ => _ end) => destruct x
         end;
    first [ apply disciplined_session; [done | intros sub; repeat closes_step]
          | apply disciplined_idle; repeat always_step; session_idle_leaf ].
Qed.

End Discipline.

(** X17.  A command that returns has kept the session discipline: either
    it used no gateway session at all, or it connected once; if no endpoint
    could be reached it only replied with the connection error, and if it
    acquired a session it opened no other and closed that session as its
    last act.  (The commands that raise, [/balance] and [/history], are the
    ones that can leave their session open.) *)
Theorem handler_closes_its_session (py_int : string → option Z)
    (py_float : string → option Q) (w : World) (message : Message) (st : St) :
  let out := handle_telegram_command py_int py_float w message st in
  result_of out = Returned tt →
  (opens (trace_of out) = [] ∧ closed (trace_of out) = []) ∨
  match get_working_subtensor w with
  | (tc, Raised e) =>
      trace_of out =
        tc ++ [send_event w (config st) (MsgErrInit e) (msg_chat_id message)]
  | (tc, Returned sub) =>
      ∃ body, trace_of out = tc ++ body ++ [EClose sub] ∧
              opens body = [] ∧ closed body = []
  end.
Proof.
  intros out Hres.
  assert (∀ t : list event, Forall (λ ev, connect_event ev = false) t →
            opens t = [] ∧ closed t = []) as Hquiet.
  { induction 1 as [|ev t Hev _ [IH1 IH2]]; [done |].
    unfold opens, closed in *. by destruct ev. }
  destruct (handle_telegram_command_disciplined py_int py_float w message st Hres)
    as [Hidle | Hsession].
  - left. by apply Hquiet.
  - right. destruct (get_working_subtensor w) as [tc [sub | e]]; [| done].
    destruct Hsession as (body & Ht & Hbody). exists body.
    split; [done | by apply Hquiet].
Qed.

(** [/info 1] connects, replies and closes the session it acquired. *)
Lemma handler_closes_its_session_witness :
  ∃ body,
    trace_of (handle_telegram_command ex_int ex_float (ex_world 20 2 0)
                (ex_message "/info 1") ex_store) =
      [EOpen "finney" 1] ++ body ++ [EClose ex_sub] ∧
    opens body = [] ∧ closed body = [].
Proof.
  destruct (handler_closes_its_session ex_int ex_float (ex_world 20 2 0)
              (ex_message "/info 1") ex_store eq_refl) as [[Hopens _] | Hsession].
  - vm_compute in Hopens. discriminate Hopens.
  - exact Hsession.
Defined.

(** *** The commands and the next block cycle *)

Global Instance store_kept_sequential : Sequential store_kept.
Proof.
  split.
  - done.
  - intros st t1 st1 t2 st2 H1 H2. unfold store_kept in *. congruence.
Qed.

(** Closes a goal [always store_kept m] for a single step [m]. *)
Ltac store_kept_leaf :=
  first
    [ by apply always_send
    | by apply always_emit
    | by intros ? ].

(** The one [add_stake] call of an unpaused cycle that selects a subnet. *)
Lemma process_block_stake_call w sub st current_block subnets stakes chosen
    best_score :
  paused (config st) = false →
  w_current_block w = Returned current_block →
  w_all_subnets w = Returned subnets →
  w_stake_for_coldkey w = Returned stakes →
  select_best_subnet subnets (exclude_list (config st)) (preferences (config st))
    = (Some chosen, best_score) →
  add_stake_calls (trace_of (process_block w sub st)) =
  [(sub, netuid chosen,
    (stake_amount (config st) * pref_get (preferences (config st)) (netuid chosen))%Q)].
Proof.
  intros Hp Hb Hs Hk Hsel.
  pose proof (select_best_subnet_positive _ _ _ _ _ Hsel) as Hpos.
  unfold process_block.
  destruct (bind_split no_commit (process_block_head w sub) _ st
              (process_block_tail_no_commit w sub)) as (t2 & -> & Ht2 & _).
  rewrite add_stake_calls_app, Ht2, app_nil_r, process_block_head_eval.
  rewrite Hb, Hs, Hk, Hsel. cbv zeta. simpl fst. simpl snd.
  rewrite (allocate_commits _ _ _ _ _ _ _ _ Hp Hpos).
  destruct (w_add_stake w) as [[] | e];
    unfold trace_of, state_of, result_of; simpl;
    destruct (w_stake_for_coldkey_after w); simpl; try done;
    by destruct (w_balance w).
Qed.

Section Settings.

Context (py_int : string → option Z) (py_float : string → option Q).

Local Abbreviation handle := (handle_telegram_command py_int py_float).

Lemma handle_pause w message st :
  verb_of (msg_text message) = Some "/pause" →
  handle w message st =
  ([send_event w (config (set_config (set_paused true) st)) MsgPaused
      (msg_chat_id message)],
   set_config (set_paused true) st, Returned tt).
Proof.
  unfold verb_of, handle_telegram_command.
  destruct (split (msg_text message)) as [|first rest]; [done |].
  simpl. intros [= ->]. simpl. unfold bind, modify.
  by rewrite send_telegram_message_run.
Qed.

Lemma handle_start w message st :
  verb_of (msg_text message) = Some "/start" →
  handle w message st =
  ([send_event w (config (set_config (set_paused false) st)) MsgResumed
      (msg_chat_id message)],
   set_config (set_paused false) st, Returned tt).
Proof.
  unfold verb_of, handle_telegram_command.
  destruct (split (msg_text message)) as [|first rest]; [done |].
  simpl. intros [= ->]. simpl. unfold bind, modify.
  by rewrite send_telegram_message_run.
Qed.

Lemma handle_exclude w message first arg rest n :
  split (msg_text message) = first :: arg :: rest →
  lower first = "/exclude" → py_int arg = Some n →
  handle w message = cmd_exclude w n (msg_chat_id message).
Proof.
  intros Hsplit Hlower Hint. unfold handle_telegram_command.
  rewrite Hsplit, Hlower. simpl. by rewrite Hint.
Qed.

Lemma handle_amount w message first arg rest x st :
  split (msg_text message) = first :: arg :: rest →
  lower first = "/amount" → py_float arg = Some x →
  handle w message st =
  ([send_event w (config (set_config (set_stake_amount x) st)) (MsgNewAmount x)
      (msg_chat_id message)],
   set_config (set_stake_amount x) st, Returned tt).
Proof.
  intros Hsplit Hlower Hfloat. unfold handle_telegram_command, cmd_amount.
  rewrite Hsplit, Hlower. simpl. rewrite Hfloat. unfold bind, modify.
  by rewrite send_telegram_message_run.
Qed.

Lemma handle_store_kept w message :
  verb_of (msg_text message) ∉ Some <$> setting_commands →
  always store_kept (handle w message).
Proof.
  unfold handle_telegram_command, verb_of.
  destruct (split (msg_text message)) as [|first rest]; cbv zeta.
  { intros _. by apply always_send. }
  intros Hverb.
  assert (∀ verb, verb ∈ setting_commands → lower first ≠ verb) as Hne.
  { intros verb Hin Heq. apply Hverb.
    change (Some (lower first) ∈ Some <$> setting_commands).
    rewrite Heq. by apply list_elem_of_fmap_2. }
  clear Hverb. simpl.
  unfold netuid_command.
  rewrite !(bool_decide_eq_false_2 (lower first = "/pause")),
    !(bool_decide_eq_false_2 (lower first = "/start")),
    !(bool_decide_eq_false_2 (lower first = "/history")),
    !(bool_decide_eq_false_2 (lower first = "/amount")),
    !(bool_decide_eq_false_2 (lower first = "/boost")),
    !(bool_decide_eq_false_2 (lower first = "/slash")),
    !(bool_decide_eq_false_2 (lower first = "/exclude"))
    by (apply Hne; by apply (bool_decide_unpack _)).
  unfold cmd_balance, cmd_info, cmd_unstake, cmd_stake, stake_on_subnet,
    unstake_on_subnet, close, acquire.
  repeat always_step; store_kept_leaf.
Qed.

End Settings.

Lemma sent_send_event w cfg text chat_id :
  sent [send_event w cfg text chat_id] = [text].
Proof. done. Qed.

Lemma set_exclude_list_same st :
  set_config (set_exclude_list (exclude_list (config st))) st = st.
Proof. by destruct st as [[] ? ? ?]. Qed.

(** X18.  [/exclude <netuid>] appends the subnet to the exclude list when
    it is not in it and leaves the list as it is otherwise, replies
    accordingly, and changes nothing else; a list without duplicates stays
    so, and a second [/exclude] of the same subnet changes nothing.  No
    later block cycle selects that subnet, whatever the gateway lists. *)
Theorem exclude_command (py_int : string → option Z)
    (py_float : string → option Q) (w : World) (message : Message) (st : St)
    (first arg : string) (rest : list string) (n : Z) :
  split (msg_text message) = first :: arg :: rest →
  lower first = "/exclude" → py_int arg = Some n →
  let out := handle_telegram_command py_int py_float w message st in
  let before := exclude_list (config st) in
  let after := exclude_list (config (state_of out)) in
  result_of out = Returned tt ∧
  after = (if bool_decide (n ∈ before) then before else before ++ [n]) ∧
  state_of out = set_config (set_exclude_list after) st ∧
  sent (trace_of out) =
    [if bool_decide (n ∈ before) then MsgAlreadyExcluded n else MsgExcluded n] ∧
  (NoDup before → NoDup after) ∧
  state_of (handle_telegram_command py_int py_float w message (state_of out)) =
    state_of out ∧
  (∀ w' sub s sc,
     result_of (process_block w' sub (state_of out)) = Returned (Some s, sc) →
     netuid s ≠ n).
Proof.
  intros Hsplit Hlower Hint out before after.
  assert (n ∈ after) as Hin.
  { unfold after, out. rewrite (handle_exclude _ _ _ _ _ _ _ _ Hsplit Hlower Hint).
    rewrite cmd_exclude_run. fold before.
    destruct (decide (n ∈ before)) as [Hn | Hn].
    - rewrite bool_decide_eq_false_2 by (by intros []). done.
    - rewrite bool_decide_eq_true_2 by done. unfold state_of. simpl.
      apply elem_of_app. right. by left. }
  split_and!.
  - unfold out. rewrite (handle_exclude _ _ _ _ _ _ _ _ Hsplit Hlower Hint).
    rewrite cmd_exclude_run. by case_bool_decide.
  - unfold after, out. rewrite (handle_exclude _ _ _ _ _ _ _ _ Hsplit Hlower Hint).
    rewrite cmd_exclude_run. fold before.
    destruct (decide (n ∈ before)) as [Hn | Hn].
    + rewrite bool_decide_eq_false_2 by (by intros []).
      by rewrite (bool_decide_eq_true_2 _ Hn).
    + rewrite bool_decide_eq_true_2 by done.
      by rewrite (bool_decide_eq_false_2 _ Hn).
  - unfold after, out. rewrite (handle_exclude _ _ _ _ _ _ _ _ Hsplit Hlower Hint).
    rewrite cmd_exclude_run. case_bool_decide; unfold state_of; simpl; [done |].
    by rewrite set_exclude_list_same.
  - unfold out. rewrite (handle_exclude _ _ _ _ _ _ _ _ Hsplit Hlower Hint).
    rewrite cmd_exclude_run. fold before.
    destruct (decide (n ∈ before)) as [Hn | Hn].
    + rewrite bool_decide_eq_false_2 by (by intros []).
      by rewrite (bool_decide_eq_true_2 _ Hn).
    + rewrite bool_decide_eq_true_2 by done.
      by rewrite (bool_decide_eq_false_2 _ Hn).
  - unfold after, out. rewrite (handle_exclude _ _ _ _ _ _ _ _ Hsplit Hlower Hint).
    rewrite cmd_exclude_run. fold before.
    case_bool_decide; unfold state_of; simpl; [| done].
    intros Hnd. apply NoDup_app. split_and!; [done | | apply NoDup_singleton].
    intros x Hx ->%list_elem_of_singleton. done.
  - rewrite (handle_exclude _ _ _ _ _ _ _ _ Hsplit Hlower Hint).
    rewrite (cmd_exclude_run _ _ _ (state_of out)). fold after.
    by rewrite bool_decide_eq_false_2 by (by intros []).
  - intros w' sub s sc (subnets & _ & Hsel)%process_block_returns_selection.
    pose proof (select_best_subnet_inv (exclude_list (config (state_of out)))
                  (preferences (config (state_of out))) subnets) as Hinv.
    rewrite <- Hsel in Hinv. destruct Hinv as (i & _ & (_ & Hexcl & _) & _).
    fold after in Hexcl. by intros <-.
Qed.

(** [/exclude 2] removes the selected subnet 2 from the next selection. *)
Lemma exclude_command_witness :
  let out :=
    handle_telegram_command ex_int ex_float (ex_world 20 2 0)
      (ex_message "/exclude 2") ex_store in
  exclude_list (config (state_of out)) = [3; 2] ∧
  sent (trace_of out) = [MsgExcluded 2] ∧
  ∀ w' sub s sc,
    result_of (process_block w' sub (state_of out)) = Returned (Some s, sc) →
    netuid s ≠ 2.
Proof.
  intros out.
  destruct (exclude_command ex_int ex_float (ex_world 20 2 0)
              (ex_message "/exclude 2") ex_store "/exclude" "2" [] 2)
    as (_ & Hafter & _ & Hsent & _ & _ & Hnext);
    [reflexivity | reflexivity | reflexivity |].
  split_and!; [exact Hafter | exact Hsent | exact Hnext].
Defined.

(** X19.  [/pause] sets the pause flag and nothing else, and replies; no
    block cycle that starts from the store it leaves issues an [add_stake]
    call.  [/start] clears the flag and nothing else, and replies; the next
    cycle in which the gateway answers and a subnet is selected stakes
    again, the configured amount times the multiplier of that subnet.  Both
    verbs ignore anything that follows them in the message. *)
Theorem pause_and_start_commands (py_int : string → option Z)
    (py_float : string → option Q) (w : World) (message : Message) (st : St) :
  let out := handle_telegram_command py_int py_float w message st in
  (verb_of (msg_text message) = Some "/pause" →
   result_of out = Returned tt ∧
   state_of out = set_config (set_paused true) st ∧
   sent (trace_of out) = [MsgPaused] ∧
   ∀ w' sub, add_stake_calls (trace_of (process_block w' sub (state_of out))) = []) ∧
  (verb_of (msg_text message) = Some "/start" →
   result_of out = Returned tt ∧
   state_of out = set_config (set_paused false) st ∧
   sent (trace_of out) = [MsgResumed] ∧
   ∀ w' sub current_block subnets stakes chosen best_score,
     w_current_block w' = Returned current_block →
     w_all_subnets w' = Returned subnets →
     w_stake_for_coldkey w' = Returned stakes →
     select_best_subnet subnets (exclude_list (config st)) (preferences (config st))
       = (Some chosen, best_score) →
     add_stake_calls (trace_of (process_block w' sub (state_of out))) =
     [(sub, netuid chosen,
       (stake_amount (config st)
        * pref_get (preferences (config st)) (netuid chosen))%Q)]).
Proof.
  intros out. split; intros Hverb.
  - unfold out. rewrite (handle_pause _ _ _ _ _ Hverb).
    split_and!; [done | done | done |].
    intros w' sub. unfold state_of at 1. simpl.
    by destruct (process_block_no_commit_while_paused w' sub
                   (set_config (set_paused true) st) eq_refl) as (_ & Hcalls & _).
  - unfold out. rewrite (handle_start _ _ _ _ _ Hverb).
    split_and!; [done | done | done |].
    intros w' sub current_block subnets stakes chosen best_score Hb Hs Hk Hsel.
    unfold state_of at 1. simpl.
    by rewrite (process_block_stake_call w' sub _ current_block subnets stakes
                  chosen best_score).
Qed.

(** X20.  [/amount <value>] with a number sets the stake amount to that
    number, whatever its sign, changes nothing else, and replies; the next
    unpaused cycle in which the gateway answers and a subnet is selected
    stakes the new amount times the multiplier of that subnet. *)
Theorem amount_command (py_int : string → option Z)
    (py_float : string → option Q) (w : World) (message : Message) (st : St)
    (first arg : string) (rest : list string) (x : Q) :
  split (msg_text message) = first :: arg :: rest →
  lower first = "/amount" → py_float arg = Some x →
  let out := handle_telegram_command py_int py_float w message st in
  result_of out = Returned tt ∧
  state_of out = set_config (set_stake_amount x) st ∧
  sent (trace_of out) = [MsgNewAmount x] ∧
  ∀ w' sub current_block subnets stakes chosen best_score,
    paused (config st) = false →
    w_current_block w' = Returned current_block →
    w_all_subnets w' = Returned subnets →
    w_stake_for_coldkey w' = Returned stakes →
    select_best_subnet subnets (exclude_list (config st)) (preferences (config st))
      = (Some chosen, best_score) →
    add_stake_calls (trace_of (process_block w' sub (state_of out))) =
    [(sub, netuid chosen,
      (x * pref_get (preferences (config st)) (netuid chosen))%Q)].
Proof.
  intros Hsplit Hlower Hfloat out. unfold out.
  rewrite (handle_amount _ _ _ _ _ _ _ _ _ Hsplit Hlower Hfloat).
  split_and!; [done | done | done |].
  intros w' sub current_block subnets stakes chosen best_score Hp Hb Hs Hk Hsel.
  unfold state_of at 1. simpl.
  by rewrite (process_block_stake_call w' sub _ current_block subnets stakes
                chosen best_score).
Qed.

(** After [/amount 3] the next cycle stakes 3 times the multiplier 2 of the
    selected subnet 2. *)
Lemma amount_command_witness :
  let out :=
    handle_telegram_command ex_int ex_float (ex_world 20 2 0)
      (ex_message "/amount 3") ex_store in
  stake_amount (config (state_of out)) = 3%Q ∧
  add_stake_calls (trace_of (process_block (ex_world 21 2 0) ex_sub (state_of out)))
  = [(ex_sub, 2, (3 * 2)%Q)].
Proof.
  intros out.
  destruct (amount_command ex_int ex_float (ex_world 20 2 0)
              (ex_message "/amount 3") ex_store "/amount" "3" [] 3%Q)
    as (_ & Hstate & _ & Hnext); [reflexivity | reflexivity | reflexivity |].
  split; [unfold out; by rewrite Hstate |].
  apply (Hnext (ex_world 21 2 0) ex_sub 21 (ex_subnets 2) ex_stakes
           {| netuid := 2; subnet_name := "beta"; symbol := "b";
              price := Some 4%Q; tao_in_emission := 6%Q |} (6 / 4 * 2)%Q);
    reflexivity.
Defined.

(** X21.  The commands that report or trade change no setting: a message
    whose verb is not one of [/pause], [/start], [/history], [/boost],
    [/slash], [/exclude] and [/amount] leaves the whole store as it is,
    whatever the gateway answers and whether the handler returns or
    raises.  That covers [/info], [/balance], [/stake], [/unstake], unknown
    verbs and the empty message. *)
Theorem other_commands_keep_the_store (py_int : string → option Z)
    (py_float : string → option Q) (w : World) (message : Message) (st : St) :
  verb_of (msg_text message) ∉ Some <$> setting_commands →
  state_of (handle_telegram_command py_int py_float w message st) = st.
Proof. intros Hverb. by apply handle_store_kept. Qed.

(** [/balance] with a positive position raises, and leaves the store. *)
Lemma other_commands_keep_the_store_witness :
  result_of (handle_telegram_command ex_int ex_float (ex_world 20 2 0)
               (ex_message "/balance") ex_store) = Raised AttributeError ∧
  state_of (handle_telegram_command ex_int ex_float (ex_world 20 2 0)
              (ex_message "/balance") ex_store) = ex_store.
Proof.
  split; [reflexivity |].
  apply (other_commands_keep_the_store ex_int ex_float (ex_world 20 2 0)
           (ex_message "/balance") ex_store).
  by apply (bool_decide_unpack _).
Defined.

(** A positive product with a positive right factor has a positive left
    factor, and the order of two products with a common positive right
    factor is kept when that factor is raised. *)
Lemma Qmult_pos_l (a m : Q) : (0 < a * m)%Q → (0 < m)%Q → (0 < a)%Q.
Proof. intros Ham Hm. nra. Qed.

Lemma Qmult_le_raise (a b m m' : Q) :
  (0 < m)%Q → (m <= m')%Q → (a * m <= b * m)%Q → (a * m' <= b * m')%Q.
Proof. intros Hm Hmm Hle. assert (a <= b)%Q by nra. nra. Qed.

Lemma Qmult_lt_raise (a b m m' : Q) :
  (0 < m)%Q → (m <= m')%Q → (a * m < b * m)%Q → (a * m' < b * m')%Q.
Proof. intros Hm Hmm Hle. assert (a < b)%Q by nra. nra. Qed.

(** X22.  Boosting the subnet that is currently selected keeps it
    selected: when the multiplier of the selected subnet is a double above
    0, [/boost] of that subnet leaves the selection among the same listing
    on the same subnet, with a score that is not lower. *)
Theorem boost_keeps_selection (py_int : string → option Z)
    (py_float : string → option Q) (w : World) (message : Message) (st : St)
    (first arg : string) (rest : list string) (subnets : list Subnet)
    (chosen : Subnet) (best_score : Q) :
  split (msg_text message) = first :: arg :: rest →
  lower first = "/boost" → py_int arg = Some (netuid chosen) →
  select_best_subnet subnets (exclude_list (config st)) (preferences (config st))
    = (Some chosen, best_score) →
  (0 < pref_get (preferences (config st)) (netuid chosen))%Q →
  is_double (pref_get (preferences (config st)) (netuid chosen)) →
  let st' := state_of (handle_telegram_command py_int py_float w message st) in
  ∃ best_score',
    select_best_subnet subnets (exclude_list (config st')) (preferences (config st'))
      = (Some chosen, best_score') ∧
    (best_score <= best_score')%Q.
Proof.
  intros Hsplit Hlower Hint Hsel Hpref Hdbl st'. unfold st'. clear st'.
  rewrite (handle_boost _ _ _ _ _ _ _ _ Hsplit Hlower Hint), cmd_boost_run.
  unfold state_of, boost_store. simpl.
  set (excl := exclude_list (config st)) in *.
  set (prefs := preferences (config st)) in *.
  set (m := pref_get prefs (netuid chosen)) in *.
  pose proof (boosted_not_below m Hpref Hdbl) as Hraise.
  set (m' := boosted m) in *.
  set (prefs' := <[pretty (netuid chosen) := m']> prefs).
  pose proof (select_best_subnet_inv excl prefs subnets) as Hinv.
  rewrite Hsel in Hinv.
  destruct Hinv as (i & Hi & (Hroot & Hexcl & p & Hprice & Hp0 & Hscore) & Hpos & Hmax).
  simpl in Hscore, Hpos, Hmax.
  assert (pref_get prefs' (netuid chosen) = m') as Hm'.
  { unfold pref_get, prefs'. by rewrite lookup_insert_eq. }
  assert (∀ s', netuid s' ≠ netuid chosen →
            pref_get prefs' (netuid s') = pref_get prefs (netuid s')) as Hother.
  { intros s' Hne. unfold pref_get, prefs'. rewrite lookup_insert_ne; [done |].
    intros Heq. by apply (inj pretty) in Heq. }
  unfold effective_score in Hscore. fold m in Hscore.
  set (a := (tao_in_emission chosen / p)%Q) in *.
  assert (0 < a)%Q as Ha by (rewrite Hscore in Hpos; by eapply Qmult_pos_l).
  exists (effective_score prefs' chosen p). split.
  - apply (select_best_subnet_first_max excl prefs' subnets i); [done | | |].
    + split_and!; [done | done |]. by exists p.
    + unfold effective_score. rewrite Hm'. fold a. nra.
    + intros j s' e' Hj (Hroot' & Hexcl' & p' & Hprice' & Hp0' & ->).
      unfold effective_score. rewrite Hm'. fold a.
      assert (candidate excl prefs s' (effective_score prefs s' p')) as Hold.
      { split_and!; [done | done |]. by exists p'. }
      destruct (Hmax j s' _ Hj Hold) as [Hle Hlt].
      rewrite Hscore in Hle, Hlt. unfold effective_score in Hle, Hlt.
      destruct (decide (netuid s' = netuid chosen)) as [Heq | Hne].
      * rewrite Heq, Hm'. rewrite Heq in Hle, Hlt. fold m in Hle, Hlt.
        split; [by apply (Qmult_le_raise _ _ m) |].
        intros Hji. by apply (Qmult_lt_raise _ _ m), Hlt.
      * rewrite (Hother _ Hne). split; [nra |]. intros Hji.
        specialize (Hlt Hji). nra.
  - rewrite Hscore. unfold effective_score. rewrite Hm'. fold a. nra.
Qed.

(** Boosting the selected subnet 2 of the example, whose multiplier is 2.0,
    keeps it selected. *)
Lemma boost_keeps_selection_witness :
  let st' :=
    state_of (handle_telegram_command ex_int ex_float (ex_world 20 2 0)
                (ex_message "/boost 2") ex_store) in
  ∃ best_score',
    select_best_subnet (ex_subnets 2) (exclude_list (config st'))
      (preferences (config st'))
    = (Some {| netuid := 2; subnet_name := "beta"; symbol := "b";
               price := Some 4%Q; tao_in_emission := 6%Q |}, best_score') ∧
    (6 / 4 * 2 <= best_score')%Q.
Proof.
  apply (boost_keeps_selection ex_int ex_float (ex_world 20 2 0)
           (ex_message "/boost 2") ex_store "/boost" "2" [] (ex_subnets 2)
           {| netuid := 2; subnet_name := "beta"; symbol := "b";
              price := Some 4%Q; tao_in_emission := 6%Q |} (6 / 4 * 2)%Q);
    first [by vm_compute | reflexivity].
Defined.

(** ** More on the endpoint selector *)

Lemma closed_app t1 t2 : closed (t1 ++ t2) = closed t1 ++ closed t2.
Proof. apply omap_app. Qed.

Lemma attempt_once_closed w endpoint attempt :
  closed (attempt_once w endpoint attempt).1 =
  omap (verify_failed w) (opens (attempt_once w endpoint attempt).1).
Proof.
  unfold attempt_once, verify_failed.
  destruct (w_connect w endpoint attempt) eqn:Hc; simpl; by rewrite Hc.
Qed.

Lemma retry_from_closed w endpoint more : ∀ attempt,
  let t := (retry_from (attempt_once w endpoint) attempt more).1 in
  closed t = omap (verify_failed w) (opens t).
Proof.
  induction more as [|more IH]; intros attempt; simpl;
    pose proof (attempt_once_closed w endpoint attempt) as Hone;
    destruct (attempt_once w endpoint attempt) as [t [sub | e]]; try done.
  specialize (IH (S attempt)). simpl in IH.
  destruct (retry_from (attempt_once w endpoint) (S attempt) more) as [t' r].
  simpl in *.
  change (EBackoff :: t') with ([EBackoff] ++ t').
  rewrite !closed_app, !opens_app, !omap_app, Hone, IH. done.
Qed.

Lemma try_endpoints_closed w endpoints : ∀ last_error,
  let t := (try_endpoints w endpoints last_error).1 in
  closed t = omap (verify_failed w) (opens t).
Proof.
  induction endpoints as [|ep rest IH]; intros last_error; simpl; [done |].
  pose proof (retry_from_closed w ep (max_attempts - 1) 1) as Hep.
  fold (get_and_test_subtensor w ep) in Hep. simpl in Hep.
  destruct (get_and_test_subtensor w ep) as [t [sub | e]]; [done |].
  specialize (IH (Some e)). simpl in IH.
  destruct (try_endpoints w rest (Some e)) as [t' r]. simpl in *.
  by rewrite closed_app, opens_app, omap_app, Hep, IH.
Qed.

(** X23.  [get_working_subtensor] closes, in the order of the attempts,
    exactly the sessions that were initialised and then failed their
    verification, each once; it closes no other session, whether it ends by
    returning a session or by raising. *)
Theorem get_working_subtensor_closes_failed_sessions (w : World) :
  let t := (get_working_subtensor w).1 in
  closed t = omap (verify_failed w) (opens t).
Proof. apply try_endpoints_closed. Qed.

(** ** More on the control-poll cycle *)

Lemma polled_app t1 t2 : polled (t1 ++ t2) = polled t1 ++ polled t2.
Proof. apply omap_app. Qed.

Lemma handler_events_poll_nothing (t : list event) :
  Forall (λ ev, handler_event ev = true) t → polled t = [].
Proof.
  induction 1 as [|ev t Hev _ IH]; [done |].
  unfold polled in *. by destruct ev.
Qed.

Lemma nondecreasing_weaken lo lo' l :
  lo' ≤ lo → nondecreasing lo l → nondecreasing lo' l.
Proof. destruct l as [|x l]; simpl; [done |]. intros ? [? ?]. split; [lia | done]. Qed.

Section Cursor.

Context (py_int : string → option Z) (py_float : string → option Q).

Local Abbreviation updates_loop := (handle_updates py_int py_float).
Local Abbreviation loop := (poll_loop py_int py_float).

Lemma handle_updates_handler_frame updates : ∀ offset,
  always handler_frame (updates_loop updates offset).
Proof.
  induction updates as [|[update w] updates IH]; intros offset; simpl.
  - apply always_ret. tc_solve.
  - repeat always_step;
      first [ apply handle_telegram_command_handler_frame | apply IH ].
Qed.

Lemma handle_updates_result updates : ∀ offset st offset',
  result_of (updates_loop updates offset st) = Returned offset' →
  offset' = cursor_after updates offset.
Proof.
  induction updates as [|[update w] updates IH]; intros offset st offset'; simpl.
  - by intros [= <-].
  - intros (t1 & st1 & [] & _ & Hrest)%bind_result_inv. by eapply IH.
Qed.

Lemma cursor_after_ge updates : ∀ offset, offset ≤ cursor_after updates offset.
Proof.
  unfold cursor_after.
  induction updates as [|uw updates IH]; intros offset; simpl; [done |].
  etrans; [| apply IH]. lia.
Qed.

Lemma cursor_after_above updates : ∀ offset uw,
  uw ∈ updates → update_id uw.1 < cursor_after updates offset.
Proof.
  induction updates as [|uw' updates IH]; intros offset uw Hin.
  { by apply elem_of_nil in Hin. }
  apply elem_of_cons in Hin as [-> | Hin].
  - unfold cursor_after. simpl.
    pose proof (cursor_after_ge updates (Z.max offset (update_id uw'.1 + 1))) as Hge.
    unfold cursor_after in Hge. lia.
  - by apply IH.
Qed.

Lemma poll_loop_polled script : ∀ offset st,
  nondecreasing offset (polled (trace_of (loop script offset st))).
Proof.
  induction script as [|step script IH]; intros offset st; [done |].
  destruct step as [e | updates].
  - rewrite poll_loop_fetch_fails. unfold trace_of at 1. simpl.
    split; [done | apply IH].
  - destruct (updates_loop updates offset st) as [[t st'] [offset' | e]] eqn:Hup.
    + rewrite (poll_loop_updates_return _ _ _ _ _ _ _ _ _ Hup).
      destruct (handle_updates_handler_frame updates offset st) as [Hev _].
      rewrite Hup in Hev. unfold trace_of in Hev. simpl in Hev.
      apply handler_events_poll_nothing in Hev.
      unfold trace_of at 1. simpl. split; [done |].
      fold (polled (t ++ ESleep poll_interval
                      :: trace_of (loop script offset' st'))).
      rewrite polled_app, Hev. simpl.
      apply (nondecreasing_weaken offset'); [| apply IH].
      rewrite (handle_updates_result updates offset st offset')
        by (by rewrite Hup).
      apply cursor_after_ge.
    + rewrite (poll_loop_updates_raise _ _ _ _ _ _ _ _ _ Hup).
      destruct (handle_updates_handler_frame updates offset st) as [Hev _].
      rewrite Hup in Hev. unfold trace_of in Hev. simpl in Hev.
      apply handler_events_poll_nothing in Hev.
      unfold trace_of. simpl. split; [done |].
      fold (polled t). by rewrite Hev.
Qed.

Lemma poll_loop_first_poll step script offset st :
  head (polled (trace_of (loop (step :: script) offset st))) = Some offset.
Proof.
  destruct step as [e | updates].
  - by rewrite poll_loop_fetch_fails.
  - destruct (updates_loop updates offset st) as [[t st'] [offset' | e]] eqn:Hup.
    + by rewrite (poll_loop_updates_return _ _ _ _ _ _ _ _ _ Hup).
    + by rewrite (poll_loop_updates_raise _ _ _ _ _ _ _ _ _ Hup).
Qed.

End Cursor.

(** X24.  When the loop over one batch of updates returns, the new cursor
    is the largest of the old cursor and of every [update_id + 1] of the
    batch: it is not below the old cursor and it is above the id of every
    update of the batch, the ones without a text included, so that no
    update of the batch is asked for again. *)
Theorem handle_updates_cursor (py_int : string → option Z)
    (py_float : string → option Q) (updates : list (Update * World))
    (offset : Z) (st : St) (offset' : Z) :
  result_of (handle_updates py_int py_float updates offset st) = Returned offset' →
  offset' = cursor_after updates offset ∧
  offset ≤ offset' ∧
  ∀ update w, (update, w) ∈ updates → update_id update < offset'.
Proof.
  intros ->%handle_updates_result.
  split_and!; [done | apply cursor_after_ge |].
  intros update w Hin. by apply (cursor_after_above updates offset (update, w)).
Qed.

(** Two updates, the second without a text: the cursor passes both. *)
Lemma handle_updates_cursor_witness :
  let updates :=
    [ ({| update_id := 4; upd_message := Some (ex_message "/pause") |},
       ex_world 20 2 0);
      ({| update_id := 7; upd_message := None |}, ex_world 20 2 0) ] in
  result_of (handle_updates ex_int ex_float updates 0 ex_store) = Returned 8 ∧
  ∀ update w, (update, w) ∈ updates → update_id update < 8.
Proof.
  intros updates. split; [reflexivity |].
  by destruct (handle_updates_cursor ex_int ex_float updates 0 ex_store 8 eq_refl)
    as (_ & _ & Habove).
Defined.

(** X25.  [poll_telegram_updates] polls nothing when no token is
    configured.  Otherwise its first poll is from cursor 0 and the cursor of
    a poll is never below that of the poll before it, whatever the polls
    deliver and however the handling of a message ends. *)
Theorem poll_cursor_never_goes_back (py_int : string → option Z)
    (py_float : string → option Q) (script : list PollStep) (st : St) :
  let out := poll_telegram_updates py_int py_float script st in
  (telegram_token (config st) = "" → out = ([], st, Returned None)) ∧
  (telegram_token (config st) ≠ "" → script ≠ [] →
   head (polled (trace_of out)) = Some 0) ∧
  nondecreasing 0 (polled (trace_of out)).
Proof.
  intros out. unfold out. rewrite poll_telegram_updates_run.
  split_and!.
  - intros Htoken. by rewrite (bool_decide_eq_true_2 _ Htoken).
  - intros Htoken Hscript. rewrite (bool_decide_eq_false_2 _ Htoken).
    unfold trace_of at 1. simpl.
    destruct script as [|step script]; [done |].
    apply poll_loop_first_poll.
  - case_bool_decide; [done |]. unfold trace_of at 1. simpl.
    apply poll_loop_polled.
Qed.

(** ** More on [/history] and [/info] *)

Lemma build_subnet_info_unconvertible subnets :
  Exists (λ s, netuid s ≠ 0 ∧ price s = None) subnets →
  ∀ subnet_info, build_subnet_info subnets subnet_info = Raised ConversionError.
Proof.
  induction 1 as [s rest [Hroot Hprice] | s rest _ IH]; intros subnet_info; simpl.
  - by rewrite (bool_decide_eq_true_2 _ Hroot), Hprice.
  - case_bool_decide; [| apply IH]. destruct (price s); [apply IH | done].
Qed.

(** X26.  The ways [/history] fails.  When no endpoint can be reached it
    only replies with the connection error.  When one of its four queries
    raises it replies with that error and closes the session.  When the
    queries are answered but a listed subnet other than the root has a price
    that does not convert, it raises [ConversionError] without a reply and
    without closing the session it acquired.  In each case the snapshot and
    the rest of the store are left as they are. *)
Theorem history_command_failures (py_int : string → option Z)
    (py_float : string → option Q) (w : World) (message : Message) (st : St) :
  verb_of (msg_text message) = Some "/history" →
  let out := handle_telegram_command py_int py_float w message st in
  let chat_id := msg_chat_id message in
  match get_working_subtensor w with
  | (tc, Raised e) =>
      out = (tc ++ [send_event w (config st) (MsgErrInit e) chat_id], st,
             Returned tt)
  | (tc, Returned sub) =>
      (∀ e, history_query_error w = Some e →
         out = (tc ++ [send_event w (config st) (MsgErrPortfolioInfo e) chat_id;
                       EClose sub], st, Returned tt)) ∧
      (∀ subnets, history_query_error w = None →
         w_all_subnets w = Returned subnets →
         Exists (λ s, netuid s ≠ 0 ∧ price s = None) subnets →
         out = (tc, st, Raised ConversionError))
  end.
Proof.
  intros Hverb out chat_id. unfold out.
  rewrite (handle_history _ _ _ _ Hverb). fold chat_id.
  unfold cmd_history. rewrite (bind_returned _ _ _ _ _ _ (acquire_run w st)).
  unfold history_query_error.
  destruct (get_working_subtensor w) as [tc [sub | e]]; simpl.
  2:{ by rewrite send_telegram_message_run. }
  unfold bind, try_, await, close, emit, ret, raise.
  destruct (w_current_block w) as [current_block | e1]; simpl.
  2:{ rewrite send_telegram_message_run. simpl. split; [| done].
      by intros e [= <-]. }
  destruct (w_all_subnets w) as [subnets | e1]; simpl.
  2:{ rewrite send_telegram_message_run. simpl. split; [| done].
      by intros e [= <-]. }
  destruct (w_stake_for_coldkey w) as [stake_info | e1]; simpl.
  2:{ rewrite send_telegram_message_run. simpl. split; [| done].
      by intros e [= <-]. }
  destruct (w_balance w) as [wallet_balance | e1]; simpl.
  2:{ rewrite send_telegram_message_run. simpl. split; [| done].
      by intros e [= <-]. }
  split; [done |].
  intros subnets' _ [= <-] Hbad.
  rewrite (build_subnet_info_unconvertible _ Hbad). simpl.
  by rewrite app_nil_r.
Qed.

(** [/history] against a listing with an unpriced subnet raises and leaves
    the session it opened unclosed. *)
Lemma history_command_failures_witness :
  handle_telegram_command ex_int ex_float ex_unpriced_world
    (ex_message "/history") ex_store =
  ([EOpen "finney" 1], ex_store, Raised ConversionError).
Proof.
  pose proof (history_command_failures ex_int ex_float ex_unpriced_world
                (ex_message "/history") ex_store eq_refl) as Hfail.
  simpl in Hfail. destruct Hfail as [_ Hraise].
  apply (Hraise ex_unpriced_subnets); [reflexivity | reflexivity |].
  apply Exists_cons_tl, Exists_cons_hd. by split.
Defined.

Lemma dict_get_set {V} (d : dict V) (k : string) (v : V) (k' : string) :
  dict_get (dict_set d k v) k' =
  if bool_decide (k = k') then Some v else dict_get d k'.
Proof.
  induction d as [|[k0 v0] d IH]; simpl.
  - by case_bool_decide.
  - destruct (decide (k0 = k)) as [-> | Hne].
    + rewrite (bool_decide_eq_true_2 (k = k)) by done. simpl.
      by case_bool_decide.
    + rewrite (bool_decide_eq_false_2 _ Hne). simpl. rewrite IH.
      repeat case_bool_decide; congruence.
Qed.

(** X27.  The stake [/history] counts for a subnet is the amount of the
    last position listed for that subnet, under whatever hotkey, 0 when the
    amount does not convert; a subnet without a position has no entry.
    Unlike the table of the block cycle, positions under other validators
    are counted, and of several positions on one subnet only the last is. *)
Theorem build_current_stakes_lookup (stake_info : list StakeInfo) (n : Z) :
  dict_get (build_current_stakes stake_info) (pretty n) =
  (λ stake, float_or_zero (si_stake stake))
    <$> last_such (λ stake, bool_decide (si_netuid stake = n)) stake_info.
Proof.
  unfold build_current_stakes.
  induction stake_info as [|stake stake_info IH] using rev_ind; [done |].
  rewrite fold_left_app, last_such_snoc. simpl. rewrite dict_get_set.
  destruct (decide (si_netuid stake = n)) as [Heq | Hne].
  - by rewrite (bool_decide_eq_true_2 _ Heq), Heq, bool_decide_eq_true_2.
  - rewrite (bool_decide_eq_false_2 _ Hne).
    rewrite bool_decide_eq_false_2; [done |].
    intros Heq. by apply (inj pretty) in Heq.
Qed.

Lemma find_head_filter {A} (f : A → bool) (l : list A) :
  find f l = head (List.filter f l).
Proof. induction l as [|x l IH]; simpl; [done |]. by destruct (f x). Qed.

Lemma head_last_short {A} (l : list A) : (length l ≤ 1)%nat → head l = last l.
Proof. destruct l as [|x [|y l]]; simpl; [done | done | lia]. Qed.

Section Info.

Context (py_int : string → option Z) (py_float : string → option Q).

Lemma handle_info w message first arg rest n :
  split (msg_text message) = first :: arg :: rest →
  lower first = "/info" → py_int arg = Some n →
  handle_telegram_command py_int py_float w message =
  cmd_info w n (msg_chat_id message).
Proof.
  intros Hsplit Hlower Hint. unfold handle_telegram_command.
  rewrite Hsplit, Hlower. simpl. by rewrite Hint.
Qed.

End Info.

(** What [/info] replies once the gateway has answered and the subnet is
    listed. *)
Lemma cmd_info_run w n chat_id st tc sub current_block subnets stake_info target :
  get_working_subtensor w = (tc, Returned sub) →
  w_current_block w = Returned current_block →
  w_all_subnets w = Returned subnets →
  w_stake_for_coldkey w = Returned stake_info →
  find (λ s, bool_decide (netuid s = n)) subnets = Some target →
  cmd_info w n chat_id st =
  (tc ++ [send_event w (config st)
            (MsgSubnetInfo n (subnet_name target) (float_or_zero (price target))
               match find (position_of (validator (config st)) n) stake_info with
               | Some stake => float_or_zero (si_stake stake)
               | None => 0%Q
               end
               (symbol target) (pref_get (preferences (config st)) n)
               current_block) chat_id;
          EClose sub], st, Returned tt).
Proof.
  intros Hacq Hb Hs Hk Hfind. unfold cmd_info.
  rewrite (bind_returned _ _ _ _ _ _ (acquire_run w st)), Hacq. simpl.
  unfold bind, try_, await, close, emit, ret, get. rewrite Hb, Hs. simpl.
  rewrite Hfind, Hk. simpl. by rewrite send_telegram_message_run.
Qed.

(** X28.  [/info <netuid>] and the table of the block cycle agree: for the
    first listed subnet with that id, the price, the multiplier and the name
    [/info] reports are those of the subnet's row in the table, and so is
    the stake as long as the validator has at most one position on the
    subnet ([/info] reads the first such position, the table the last).
    The command leaves the store as it is and closes its session. *)
Theorem info_agrees_with_table (py_int : string → option Z)
    (py_float : string → option Q) (w : World) (message : Message) (st : St)
    (first arg : string) (rest : list string) (n : Z) (tc : list event)
    (sub : handle) (current_block : Z) (subnets : list Subnet)
    (stake_info : list StakeInfo) (target : Subnet)
    (chosen_netuid : option Z) (stake_action : StakeAction) :
  split (msg_text message) = first :: arg :: rest →
  lower first = "/info" → py_int arg = Some n →
  get_working_subtensor w = (tc, Returned sub) →
  w_current_block w = Returned current_block →
  w_all_subnets w = Returned subnets →
  w_stake_for_coldkey w = Returned stake_info →
  find (λ s, bool_decide (netuid s = n)) subnets = Some target →
  (length (List.filter (position_of (validator (config st)) n) stake_info) ≤ 1)%nat →
  let row :=
    row_of (get_stake_info (validator (config st)) stake_info)
      (exclude_list (config st)) (preferences (config st))
      chosen_netuid stake_action target in
  handle_telegram_command py_int py_float w message st =
  (tc ++ [send_event w (config st)
            (MsgSubnetInfo n (row_name row) (row_price row) (row_stake row)
               (symbol target) (row_pref_multiplier row) current_block)
            (msg_chat_id message);
          EClose sub], st, Returned tt).
Proof.
  intros Hsplit Hlower Hint Hacq Hb Hs Hk Hfind Hone row.
  rewrite (handle_info _ _ _ _ _ _ _ _ Hsplit Hlower Hint).
  rewrite (cmd_info_run _ _ _ _ _ _ _ _ _ _ Hacq Hb Hs Hk Hfind).
  assert (netuid target = n) as Hn.
  { apply find_some in Hfind as [_ Hn]. by apply bool_decide_eq_true in Hn. }
  unfold row, row_of. simpl. rewrite Hn.
  unfold get_stake_info. rewrite get_stake_info_fold, lookup_empty.
  rewrite find_head_filter, (head_last_short _ Hone).
  unfold last_such.
  by destruct (last (List.filter _ stake_info)).
Qed.

(** [/info 1] in the example world reports the row of subnet 1. *)
Lemma info_agrees_with_table_witness :
  sent (trace_of (handle_telegram_command ex_int ex_float (ex_world 20 2 0)
                    (ex_message "/info 1") ex_store)) =
  [MsgSubnetInfo 1 "alpha" 2%Q 10%Q "a" 1%Q 20].
Proof.
  rewrite (info_agrees_with_table ex_int ex_float (ex_world 20 2 0)
             (ex_message "/info 1") ex_store "/info" "1" [] 1
             [EOpen "finney" 1] ex_sub 20 (ex_subnets 2) ex_stakes
             {| netuid := 1; subnet_name := "alpha"; symbol := "a";
                price := Some 2%Q; tao_in_emission := 4%Q |} None ActNone);
    [reflexivity | reflexivity | reflexivity | reflexivity | reflexivity
     | reflexivity | reflexivity | reflexivity | reflexivity | simpl; lia].
Defined.

(** *** The sender of a command *)

Lemma same_run_refl {A} (m : M A) : same_run m m.
Proof. by intros st. Qed.

Lemma same_run_bind {A B} (m1 m2 : M A) (f1 f2 : A → M B) :
  same_run m1 m2 → (∀ a, same_run (f1 a) (f2 a)) →
  same_run (bind m1 f1) (bind m2 f2).
Proof.
  intros Hm Hf st. destruct (Hm st) as (Ht & Hst & Hr).
  destruct (m1 st) as [[t1 st1] r1] eqn:H1.
  destruct (m2 st) as [[t2 st2] r2] eqn:H2.
  unfold trace_of, state_of, result_of in Ht, Hst, Hr. simpl in Ht, Hst, Hr.
  subst st2 r2. destruct r1 as [a | e].
  - rewrite (bind_returned _ _ _ _ _ _ H1), (bind_returned _ _ _ _ _ _ H2).
    destruct (Hf a st1) as (Ht' & Hst' & Hr').
    unfold trace_of at 1 3, state_of at 1 3, result_of at 1 3. simpl.
    split_and!; [| done | done].
    unfold without_chat in *. by rewrite !fmap_app, Ht, Ht'.
  - by rewrite (bind_raised _ _ _ _ _ _ H1), (bind_raised _ _ _ _ _ _ H2).
Qed.

Lemma same_run_send w text c1 c2 :
  c1 ≠ 0 → c2 ≠ 0 →
  same_run (send_telegram_message w text c1) (send_telegram_message w text c2).
Proof.
  intros H1 H2 st. rewrite !send_telegram_message_run. unfold send_event.
  by rewrite !(bool_decide_eq_false_2 (c1 = 0)), !(bool_decide_eq_false_2 (c2 = 0)).
Qed.

(** Peels one construct off a goal [same_run m1 m2]. *)
Ltac same_run_step :=
  first
    [ apply same_run_refl
    | by apply same_run_send
    | apply same_run_bind; [| intros ?]
    | lazymatch goal with
      | |- same_run (match ?x with _ => _ end) (match ?x with _ => _ end) =>
          destruct x
      end ].

Global Instance replies_to_sequential chat_id : Sequential (replies_to chat_id).
Proof.
  split.
  - intros st. by apply Forall_nil.
  - intros st t1 st1 t2 st2 H1 H2. by apply Forall_app.
Qed.

Lemma send_replies_to w text chat_id :
  chat_id ≠ 0 → always (replies_to chat_id) (send_telegram_message w text chat_id).
Proof.
  intros Hc st. rewrite send_telegram_message_run. unfold send_event.
  rewrite !(bool_decide_eq_false_2 _ Hc). by repeat constructor.
Qed.

Lemma acquire_replies_to w chat_id : always (replies_to chat_id) (acquire w).
Proof.
  intros st. unfold acquire, try_, lift_trace. simpl.
  eapply Forall_impl; [apply get_working_subtensor_connect_events |].
  by intros [].
Qed.

(** X29.  The handler applies no check on the sender.  Two messages with
    the same text, from whatever chats, leave the same store, end alike and
    make the same calls with the same replies: the configured chat id is not
    consulted, so a command to pause, to change a setting, to stake or to
    unstake is obeyed from any chat.  Every reply goes to the chat the
    message came from. *)
Theorem handler_obeys_any_sender (py_int : string → option Z)
    (py_float : string → option Q) (w : World) (message1 message2 : Message)
    (st : St) :
  msg_text message1 = msg_text message2 →
  msg_chat_id message1 ≠ 0 → msg_chat_id message2 ≠ 0 →
  let out1 := handle_telegram_command py_int py_float w message1 st in
  let out2 := handle_telegram_command py_int py_float w message2 st in
  state_of out1 = state_of out2 ∧
  result_of out1 = result_of out2 ∧
  without_chat (trace_of out1) = without_chat (trace_of out2) ∧
  ∀ c text o, ESendTelegram c text o ∈ trace_of out1 → c = msg_chat_id message1.
Proof.
  intros Htext Hc1 Hc2 out1 out2.
  assert (same_run (handle_telegram_command py_int py_float w message1)
            (handle_telegram_command py_int py_float w message2)) as Hsame.
  { unfold handle_telegram_command, netuid_command, cmd_balance, cmd_history,
      cmd_info, cmd_boost, cmd_slash, cmd_exclude, cmd_unstake, cmd_stake,
      cmd_amount.
    rewrite Htext. cbv zeta. repeat same_run_step. }
  destruct (Hsame st) as (Ht & Hst & Hr). split_and!; [done | done | done |].
  assert (always (replies_to (msg_chat_id message1))
            (handle_telegram_command py_int py_float w message1)) as Hto.
  { unfold handle_telegram_command, netuid_command, cmd_balance, cmd_history,
      cmd_info, cmd_boost, cmd_slash, cmd_exclude, cmd_unstake, cmd_stake,
      cmd_amount, stake_on_subnet, unstake_on_subnet, close.
    repeat always_step;
      first [ by apply send_replies_to
            | apply acquire_replies_to
            | apply always_emit; intros; by repeat constructor
            | apply always_modify; intros; by apply Forall_nil ]. }
  intros c text o Hin. specialize (Hto st). unfold replies_to in Hto.
  rewrite Forall_forall in Hto. by apply (Hto _ Hin).
Qed.

(** [/stake 1 5] is obeyed alike from the chats 7 and 99. *)
Lemma handler_obeys_any_sender_witness :
  let out1 :=
    handle_telegram_command ex_int ex_float (ex_world 20 2 0)
      {| msg_text := "/stake 1 5"; msg_chat_id := 7 |} ex_store in
  let out2 :=
    handle_telegram_command ex_int ex_float (ex_world 20 2 0)
      {| msg_text := "/stake 1 5"; msg_chat_id := 99 |} ex_store in
  add_stake_calls (trace_of out2) = [(ex_sub, 1, 5%Q)] ∧
  without_chat (trace_of out1) = without_chat (trace_of out2).
Proof.
  intros out1 out2. split; [reflexivity |].
  by destruct (handler_obeys_any_sender ex_int ex_float (ex_world 20 2 0)
                 {| msg_text := "/stake 1 5"; msg_chat_id := 7 |}
                 {| msg_text := "/stake 1 5"; msg_chat_id := 99 |} ex_store)
    as (_ & _ & Htrace & _).
Defined.
